(** * CatPomodoro on OneChain: the reward economy and the pet life cycle

    A shallow embedding of the Move package [pomodoro_game] (modules
    [catnft], [game_item], [pomodoro_game]) and of the JavaScript client
    code that mirrors it ([gameState.js], [transactionHistory.js]) or drives
    it ([edgeCaseHandler.js], [useGameTransactions.js], [itemMapping.js],
    [treasuryMonitor.js]).

    Move integers are modelled as [Z] with the checks the Move VM performs
    written out: an addition, subtraction, multiplication or cast whose
    result does not fit the type aborts the transaction.  A function whose
    execution may abort returns a [Result]; an aborted transaction leaves
    every object as it was. *)

From Stdlib Require Import ZArith List Bool Lia String QArith Qminmax Qround Sorted.
From Stdlib Require Import Qpower Qabs Lqa.
From Stdlib Require SpecFloat.
From stdpp Require Import base option gmap pretty.

Local Open Scope Z_scope.

(** ** Move values and aborts *)

Module MoveVM.

Inductive Abort : Type :=
| AbortCode (code : Z)      (* [abort n], [assert!(c, n)] *)
| ArithmeticError           (* overflow, underflow, failed cast, division by zero *)
| EFieldDoesNotExist        (* [table::borrow] of an absent key *)
| EFieldAlreadyExists       (* [table::add] of a present key *)
| ENotEnough.               (* [balance::split] beyond the balance *)

Inductive Result (A : Type) : Type :=
| Ok (a : A)
| Err (e : Abort).
Arguments Ok {A} a.
Arguments Err {A} e.

#[export] Instance Result_ret : MRet Result := fun _ a => Ok a.
#[export] Instance Result_bind : MBind Result := fun _ _ f m =>
  match m with
  | Ok a => f a
  | Err e => Err e
  end.

Definition is_ok {A} (r : Result A) : bool :=
  match r with Ok _ => true | Err _ => false end.

Definition u8_max : Z := 255.
Definition u64_max : Z := 18446744073709551615.

Definition is_u8 (x : Z) : Prop := 0 <= x <= u8_max.
Definition is_u64 (x : Z) : Prop := 0 <= x <= u64_max.

Definition add_u8 (a b : Z) : Result Z :=
  if a + b <=? u8_max then Ok (a + b) else Err ArithmeticError.
Definition sub_u8 (a b : Z) : Result Z :=
  if b <=? a then Ok (a - b) else Err ArithmeticError.
Definition add_u64 (a b : Z) : Result Z :=
  if a + b <=? u64_max then Ok (a + b) else Err ArithmeticError.
Definition sub_u64 (a b : Z) : Result Z :=
  if b <=? a then Ok (a - b) else Err ArithmeticError.
Definition mul_u64 (a b : Z) : Result Z :=
  if a * b <=? u64_max then Ok (a * b) else Err ArithmeticError.
Definition div_u64 (a b : Z) : Result Z :=
  if b =? 0 then Err ArithmeticError else Ok (a / b).
(** [(x as u8)] on a u64 *)
Definition cast_u8 (x : Z) : Result Z :=
  if x <=? u8_max then Ok x else Err ArithmeticError.

Definition assert (c : bool) (code : Z) : Result unit :=
  if c then Ok tt else Err (AbortCode code).

Abbreviation address := Z.

End MoveVM.
Import MoveVM.

(** ** Module [pomodoro_game::catnft] *)

Module catnft.

(** The [id : UID] field carries no game data and is left out. *)
Record CatNFT : Type := mkCat {
  cat_type : Z;              (* u8 *)
  hunger : Z;                (* u8 *)
  happiness : Z;             (* u8 *)
  health : Z;                (* u8 *)
  is_alive : bool;
  last_fed_time : Z;         (* u64 *)
  days_without_feeding : Z;  (* u8 *)
}.

Definition wf (cat : CatNFT) : Prop :=
  is_u8 (cat_type cat) /\ is_u8 (hunger cat) /\ is_u8 (happiness cat) /\
  is_u8 (health cat) /\ is_u64 (last_fed_time cat) /\
  is_u8 (days_without_feeding cat).

Definition set_hunger (v : Z) (c : CatNFT) : CatNFT :=
  mkCat (cat_type c) v (happiness c) (health c) (is_alive c)
        (last_fed_time c) (days_without_feeding c).
Definition set_happiness (v : Z) (c : CatNFT) : CatNFT :=
  mkCat (cat_type c) (hunger c) v (health c) (is_alive c)
        (last_fed_time c) (days_without_feeding c).
Definition set_health (v : Z) (c : CatNFT) : CatNFT :=
  mkCat (cat_type c) (hunger c) (happiness c) v (is_alive c)
        (last_fed_time c) (days_without_feeding c).
Definition set_is_alive (v : bool) (c : CatNFT) : CatNFT :=
  mkCat (cat_type c) (hunger c) (happiness c) (health c) v
        (last_fed_time c) (days_without_feeding c).
Definition set_last_fed_time (v : Z) (c : CatNFT) : CatNFT :=
  mkCat (cat_type c) (hunger c) (happiness c) (health c) (is_alive c)
        v (days_without_feeding c).
Definition set_days_without_feeding (v : Z) (c : CatNFT) : CatNFT :=
  mkCat (cat_type c) (hunger c) (happiness c) (health c) (is_alive c)
        (last_fed_time c) v.

Definition mint (cat_type : Z) : CatNFT :=
  {| cat_type := cat_type;
     hunger := 50;
     happiness := 50;
     health := 100;
     is_alive := true;
     last_fed_time := 0;
     days_without_feeding := 0 |}.

Definition get_stats (cat : CatNFT) : Z * Z * Z * bool :=
  (hunger cat, happiness cat, health cat, is_alive cat).

(** [feed_cat(cat, food_value, clock)]; [clock] is [clock::timestamp_ms]. *)
Definition feed_cat (cat : CatNFT) (food_value : Z) (clock : Z) : Result CatNFT :=
  cat ← (if food_value <=? hunger cat
         then h ← sub_u8 (hunger cat) food_value; mret (set_hunger h cat)
         else mret (set_hunger 0 cat));
  let cat := set_last_fed_time clock cat in
  mret (set_days_without_feeding 0 cat).

Definition play_with_cat (cat : CatNFT) (happiness_boost : Z) : Result CatNFT :=
  s ← add_u8 (happiness cat) happiness_boost;
  if s <=? 100
  then s' ← add_u8 (happiness cat) happiness_boost; mret (set_happiness s' cat)
  else mret (set_happiness 100 cat).

Definition ms_per_day : Z := 86400000.

(** The death rule checked at the end of [update_stats]. *)
Definition death_rule (cat : CatNFT) : bool :=
  ((100 <=? hunger cat) && (happiness cat =? 0)) || (3 <=? days_without_feeding cat).

Definition update_stats (cat : CatNFT) (clock : Z) : Result CatNFT :=
  let current_time_ms := clock in
  let last_fed_time_ms := last_fed_time cat in
  days_passed_ms ← (if last_fed_time_ms <? current_time_ms
                    then sub_u64 current_time_ms last_fed_time_ms
                    else mret 0);
  days_passed ← div_u64 days_passed_ms ms_per_day;
  let days_without_feeding_u64 := days_without_feeding cat in
  cat ← (if days_without_feeding_u64 <? days_passed
         then days_passed_u8 ← cast_u8 days_passed;
              mret (set_days_without_feeding days_passed_u8 cat)
         else mret cat);
  cat ← (if hunger cat <? 100
         then h ← add_u8 (hunger cat) 1; mret (set_hunger h cat)
         else mret cat);
  cat ← (if 0 <? happiness cat
         then h ← sub_u8 (happiness cat) 1; mret (set_happiness h cat)
         else mret cat);
  cat ← (if 70 <? hunger cat
         then (if 0 <? health cat
               then h ← sub_u8 (health cat) 1; mret (set_health h cat)
               else mret cat)
         else mret cat);
  if death_rule cat
  then mret (set_health 0 (set_is_alive false cat))
  else mret cat.

(** The operations a holder can apply to a cat, and the states a cat goes
    through under a sequence of them; an aborted call leaves the cat as it
    was. *)
Inductive CatOp : Type :=
| Feed (food_value clock : Z)
| Play (happiness_boost : Z)
| DecayTick (clock : Z).

Definition apply_op (cat : CatNFT) (op : CatOp) : Result CatNFT :=
  match op with
  | Feed food_value clock => feed_cat cat food_value clock
  | Play happiness_boost => play_with_cat cat happiness_boost
  | DecayTick clock => update_stats cat clock
  end.

Definition after (cat : CatNFT) (op : CatOp) : CatNFT :=
  match apply_op cat op with
  | Ok cat' => cat'
  | Err _ => cat
  end.

Fixpoint trajectory (cat : CatNFT) (ops : list CatOp) : list CatNFT :=
  match ops with
  | [] => []
  | op :: ops => after cat op :: trajectory (after cat op) ops
  end.

End catnft.

(** ** Module [pomodoro_game::game_item] *)

Module game_item.

Record FoodItem : Type := mkFood {
  food_item_id : Z;    (* u8: 1=fish .. 5=premium_food *)
  hunger_value : Z;    (* u8 *)
}.

Record ToyItem : Type := mkToy {
  toy_item_id : Z;     (* u8: 6=ball .. 10=scratch_post *)
  happiness_value : Z; (* u8 *)
}.

Definition mint_food (item_id hunger_value : Z) : FoodItem :=
  mkFood item_id hunger_value.
Definition mint_toy (item_id happiness_value : Z) : ToyItem :=
  mkToy item_id happiness_value.
Definition consume_food (food : FoodItem) : Z * Z :=
  (food_item_id food, hunger_value food).
Definition consume_toy (toy : ToyItem) : Z * Z :=
  (toy_item_id toy, happiness_value toy).

End game_item.

(** ** Module [pomodoro_game::pomodoro_game] *)

Module pomodoro_game.
Import catnft game_item.

Definition EInsufficientPayment : Z := 1.
Definition EInvalidItemId : Z := 2.
Definition ETreasuryInsufficient : Z := 3.
Definition ENotAuthorized : Z := 4.

Record DailyEarning : Type := mkEarning {
  date : Z;      (* u64, days since epoch *)
  amount : Z;    (* u64, OCT earned that day, smallest units *)
  sessions : Z;  (* u64 *)
}.

(** [oct_balance : Balance<OCT>] is the value held. *)
Record Treasury : Type := mkTreasury {
  oct_balance : Z;
  treasury_admin_address : address;
  total_rewards_paid : Z;
  total_users_rewarded : Z;
}.

Record GameState : Type := mkGameState {
  food_prices : gmap Z Z;
  toy_prices : gmap Z Z;
  cat_prices : gmap Z Z;
  session_reward : Z;
  daily_earnings : gmap address DailyEarning;
  burn_address : address;
  admin_address : address;
}.

Definition set_daily_earnings (d : gmap address DailyEarning) (g : GameState) : GameState :=
  mkGameState (food_prices g) (toy_prices g) (cat_prices g) (session_reward g)
              d (burn_address g) (admin_address g).
Definition set_session_reward (r : Z) (g : GameState) : GameState :=
  mkGameState (food_prices g) (toy_prices g) (cat_prices g) r
              (daily_earnings g) (burn_address g) (admin_address g).
Definition set_food_prices (t : gmap Z Z) (g : GameState) : GameState :=
  mkGameState t (toy_prices g) (cat_prices g) (session_reward g)
              (daily_earnings g) (burn_address g) (admin_address g).
Definition set_toy_prices (t : gmap Z Z) (g : GameState) : GameState :=
  mkGameState (food_prices g) t (cat_prices g) (session_reward g)
              (daily_earnings g) (burn_address g) (admin_address g).

(** *** [one::table] and [one::balance] *)

Definition table_contains {V} (t : gmap Z V) (k : Z) : bool :=
  match t !! k with Some _ => true | None => false end.
Definition table_borrow {V} (t : gmap Z V) (k : Z) : Result V :=
  match t !! k with Some v => Ok v | None => Err EFieldDoesNotExist end.
Definition table_add {V} (t : gmap Z V) (k : Z) (v : V) : Result (gmap Z V) :=
  match t !! k with Some _ => Err EFieldAlreadyExists | None => Ok (<[k:=v]> t) end.

(** [balance::split]: the balance left once [value] is taken out. *)
Definition balance_split (self value : Z) : Result Z :=
  if value <=? self then Ok (self - value) else Err ENotEnough.
(** [coin::put], that is [balance::join]. *)
Definition balance_join (self value : Z) : Result Z := add_u64 self value.

(** *** What a transaction hands over with [transfer::public_transfer] *)

Inductive Object : Type :=
| CoinOCT (value : Z)
| Cat (cat : CatNFT)
| Toy (toy : ToyItem).

Record Transfer : Type := mkTransfer { what : Object; recipient : address }.

(** *** [init] *)

Definition init (sender : address) : Result (GameState * Treasury) :=
  let game_state :=
    {| food_prices := ∅; toy_prices := ∅; cat_prices := ∅;
       session_reward := 1000000000;
       daily_earnings := ∅;
       burn_address := 0;
       admin_address := sender |} in
  fp ← table_add (food_prices game_state) 1 1000000000;
  fp ← table_add fp 2 2000000000;
  fp ← table_add fp 3 3000000000;
  fp ← table_add fp 4 4000000000;
  fp ← table_add fp 5 5000000000;
  tp ← table_add (toy_prices game_state) 6 10;
  tp ← table_add tp 7 15;
  tp ← table_add tp 8 20;
  tp ← table_add tp 9 25;
  tp ← table_add tp 10 30;
  cp ← table_add (cat_prices game_state) 0 0;
  cp ← table_add cp 1 50;
  cp ← table_add cp 2 75;
  cp ← table_add cp 3 150;
  let game_state :=
    mkGameState fp tp cp (session_reward game_state) (daily_earnings game_state)
                (burn_address game_state) (admin_address game_state) in
  let treasury :=
    {| oct_balance := 0;
       treasury_admin_address := sender;
       total_rewards_paid := 0;
       total_users_rewarded := 0 |} in
  mret (game_state, treasury).

(** *** [complete_session] *)

Definition daily_cap : Z := 100000000000.
Definition daily_session_limit : Z := 100.

(** The [&mut DailyEarning] the source returns is the entry of [user] in the
    table of the returned game state; its current value comes with it. *)
Definition get_or_create_daily_earning (game_state : GameState) (user : address)
    (day : Z) : Result (GameState * DailyEarning) :=
  game_state ← (if negb (table_contains (daily_earnings game_state) user)
                then let new_earning := mkEarning day 0 0 in
                     t ← table_add (daily_earnings game_state) user new_earning;
                     mret (set_daily_earnings t game_state)
                else mret game_state);
  earning ← table_borrow (daily_earnings game_state) user;
  if negb (date earning =? day)
  then let earning := mkEarning day 0 0 in
       mret (set_daily_earnings (<[user := earning]> (daily_earnings game_state))
                                game_state, earning)
  else mret (game_state, earning).

Definition complete_session (treasury : Treasury) (game_state : GameState)
    (clock : Z) (sender : address) : Result (Treasury * GameState * list Transfer) :=
  let recipient := sender in
  let current_time := clock in
  current_day ← div_u64 current_time (24 * 60 * 60 * 1000);
  let base_reward := session_reward game_state in
  '(game_state, user_earning) ←
    get_or_create_daily_earning game_state recipient current_day;
  _ ← (if daily_cap <=? amount user_earning then Err (AbortCode 1) else mret tt);
  _ ← (if daily_session_limit <=? sessions user_earning
       then Err (AbortCode 2) else mret tt);
  let bonus := 0 in
  total_reward ← add_u64 base_reward bonus;
  remaining_cap ← sub_u64 daily_cap (amount user_earning);
  let final_reward :=
    if remaining_cap <? total_reward then remaining_cap else total_reward in
  _ ← assert (final_reward <=? oct_balance treasury) ETreasuryInsufficient;
  balance ← balance_split (oct_balance treasury) final_reward;
  let reward_coin := CoinOCT final_reward in
  let sent := [mkTransfer reward_coin recipient] in
  new_amount ← add_u64 (amount user_earning) final_reward;
  new_sessions ← add_u64 (sessions user_earning) 1;
  let user_earning := mkEarning (date user_earning) new_amount new_sessions in
  let game_state :=
    set_daily_earnings (<[recipient := user_earning]> (daily_earnings game_state))
                       game_state in
  paid ← add_u64 (total_rewards_paid treasury) final_reward;
  rewarded ← add_u64 (total_users_rewarded treasury) 1;
  mret (mkTreasury balance (treasury_admin_address treasury) paid rewarded,
        game_state, sent).

(** *** Purchases *)

Definition get_food_hunger_value (item_id : Z) : Z :=
  if item_id =? 1 then 10
  else if item_id =? 2 then 15
  else if item_id =? 3 then 20
  else if item_id =? 4 then 25
  else if item_id =? 5 then 50
  else 0.

Definition get_toy_happiness_value (item_id : Z) : Z :=
  if item_id =? 6 then 10
  else if item_id =? 7 then 15
  else if item_id =? 8 then 20
  else if item_id =? 9 then 25
  else if item_id =? 10 then 30
  else 0.

(** The unit price [purchase_item] looks up for [item_id]. *)
Definition item_price (game_state : GameState) (item_id : Z) : Result Z :=
  if (1 <=? item_id) && (item_id <=? 5)
  then table_borrow (food_prices game_state) item_id
  else if (6 <=? item_id) && (item_id <=? 10)
  then table_borrow (toy_prices game_state) item_id
  else Err (AbortCode EInvalidItemId).

(** [payment] is the value of the coin handed in.  The [while] loop mints
    one toy per unit bought (gas is not modelled). *)
Definition purchase_item (game_state : GameState) (payment : Z) (item_id : Z)
    (amount : Z) (sender : address) : Result (list Transfer) :=
  let buyer := sender in
  price ← item_price game_state item_id;
  total_cost ← mul_u64 price amount;
  let payment_value := payment in
  _ ← assert (total_cost <=? payment_value) EInsufficientPayment;
  let burnt := mkTransfer (CoinOCT payment) (admin_address game_state) in
  let toys :=
    if (6 <=? item_id) && (item_id <=? 10)
    then repeat (mkTransfer (Toy (mint_toy item_id (get_toy_happiness_value item_id)))
                            buyer)
                (Z.to_nat amount)
    else [] in
  mret (burnt :: toys).

Definition purchase_cat (game_state : GameState) (payment : Z) (cat_type : Z)
    (sender : address) : Result (list Transfer) :=
  let buyer := sender in
  price ← table_borrow (cat_prices game_state) cat_type;
  let payment_value := payment in
  _ ← assert (price <=? payment_value) EInsufficientPayment;
  let burnt := mkTransfer (CoinOCT payment) (admin_address game_state) in
  let cat := catnft.mint cat_type in
  mret [burnt; mkTransfer (Cat cat) buyer].

(** *** Cat interactions *)

Definition feed_cat (cat : CatNFT) (food : FoodItem) (clock : Z)
    (sender : address) : Result (list Transfer) :=
  let '(_item_id, hunger_value) := consume_food food in
  cat_mut ← catnft.feed_cat cat hunger_value clock;
  mret [mkTransfer (Cat cat_mut) sender].

Definition pet_cat (cat : CatNFT) (sender : address) : Result (list Transfer) :=
  cat_mut ← catnft.play_with_cat cat 5;
  mret [mkTransfer (Cat cat_mut) sender].

Definition play_with_cat_toy (cat : CatNFT) (toy : ToyItem)
    (sender : address) : Result (list Transfer) :=
  let '(_item_id, happiness_value) := consume_toy toy in
  cat_mut ← catnft.play_with_cat cat happiness_value;
  mret [mkTransfer (Cat cat_mut) sender].

Definition update_cat_stats (cat : CatNFT) (clock : Z)
    (sender : address) : Result (list Transfer) :=
  cat_mut ← catnft.update_stats cat clock;
  mret [mkTransfer (Cat cat_mut) sender].

(** *** Administration *)

Definition admin_set_session_reward (game_state : GameState) (new_reward : Z)
    (sender : address) : Result GameState :=
  _ ← assert (sender =? admin_address game_state) 100;
  mret (set_session_reward new_reward game_state).

Definition admin_set_item_price (game_state : GameState) (item_id price : Z)
    (sender : address) : Result GameState :=
  _ ← assert (sender =? admin_address game_state) 101;
  if item_id <=? 5
  then t ← (if table_contains (food_prices game_state) item_id
            then mret (<[item_id := price]> (food_prices game_state))
            else table_add (food_prices game_state) item_id price);
       mret (set_food_prices t game_state)
  else t ← (if table_contains (toy_prices game_state) item_id
            then mret (<[item_id := price]> (toy_prices game_state))
            else table_add (toy_prices game_state) item_id price);
       mret (set_toy_prices t game_state).

Definition fund_treasury (treasury : Treasury) (payment : Z)
    (sender : address) : Result Treasury :=
  _ ← assert (sender =? treasury_admin_address treasury) ENotAuthorized;
  balance ← balance_join (oct_balance treasury) payment;
  mret (mkTreasury balance (treasury_admin_address treasury)
                   (total_rewards_paid treasury) (total_users_rewarded treasury)).

Definition get_treasury_balance (treasury : Treasury) : Z := oct_balance treasury.

End pomodoro_game.

(** ** The ledger: transactions against the shared objects

    A transaction calls one function of [pomodoro_game] with the sender and
    the clock of the chain.  When the call aborts nothing changes and nothing
    is transferred. *)

Module ledger.
Import catnft game_item pomodoro_game.

Record Ledger : Type := mkLedger {
  treasury : Treasury;
  game_state : GameState;
}.

Inductive Call : Type :=
| CompleteSession
| PurchaseItem (payment item_id amount : Z)
| PurchaseCat (payment cat_type : Z)
| FeedCat (cat : CatNFT) (food : FoodItem)
| PetCat (cat : CatNFT)
| PlayWithCatToy (cat : CatNFT) (toy : ToyItem)
| UpdateCatStats (cat : CatNFT)
| AdminSetSessionReward (new_reward : Z)
| AdminSetItemPrice (item_id price : Z)
| FundTreasury (payment : Z).

Record Tx : Type := mkTx { call : Call; sender : address; clock : Z }.

Definition execute (l : Ledger) (tx : Tx) : Result (Ledger * list Transfer) :=
  let t := treasury l in
  let g := game_state l in
  match call tx with
  | CompleteSession =>
      '(t', g', sent) ← complete_session t g (clock tx) (sender tx);
      mret (mkLedger t' g', sent)
  | PurchaseItem payment item_id amount =>
      sent ← purchase_item g payment item_id amount (sender tx); mret (l, sent)
  | PurchaseCat payment cat_type =>
      sent ← purchase_cat g payment cat_type (sender tx); mret (l, sent)
  | FeedCat cat food =>
      sent ← feed_cat cat food (clock tx) (sender tx); mret (l, sent)
  | PetCat cat =>
      sent ← pet_cat cat (sender tx); mret (l, sent)
  | PlayWithCatToy cat toy =>
      sent ← play_with_cat_toy cat toy (sender tx); mret (l, sent)
  | UpdateCatStats cat =>
      sent ← update_cat_stats cat (clock tx) (sender tx); mret (l, sent)
  | AdminSetSessionReward new_reward =>
      g' ← admin_set_session_reward g new_reward (sender tx);
      mret (mkLedger t g', [])
  | AdminSetItemPrice item_id price =>
      g' ← admin_set_item_price g item_id price (sender tx);
      mret (mkLedger t g', [])
  | FundTreasury payment =>
      t' ← fund_treasury t payment (sender tx);
      mret (mkLedger t' g, [])
  end.

Definition step (l : Ledger) (tx : Tx) : Ledger * list Transfer :=
  match execute l tx with
  | Ok r => r
  | Err _ => (l, [])
  end.

Fixpoint run (l : Ledger) (txs : list Tx) : Ledger :=
  match txs with
  | [] => l
  | tx :: txs => run (fst (step l tx)) txs
  end.

Definition is_claim_by (user : address) (tx : Tx) : bool :=
  match call tx with
  | CompleteSession => sender tx =? user
  | _ => false
  end.

(** The rewards paid out to [user] by the [complete_session] calls of a run,
    one entry per successful claim, in order. *)
Fixpoint payouts (user : address) (l : Ledger) (txs : list Tx) : list Z :=
  match txs with
  | [] => []
  | tx :: txs =>
      let here :=
        if is_claim_by user tx
        then match execute l tx with
             | Ok (_, sent) =>
                 flat_map (fun tr => match what tr with
                                     | CoinOCT v => [v]
                                     | _ => []
                                     end) sent
             | Err _ => []
             end
        else [] in
      here ++ payouts user (fst (step l tx)) txs
  end.

Definition sum (l : list Z) : Z := fold_right Z.add 0 l.

Definition day_of (timestamp_ms : Z) : Z := timestamp_ms / 86400000.

(** The u64 values the treasury and the reward are made of. *)
Definition typed_ledger (l : Ledger) : Prop :=
  is_u64 (oct_balance (treasury l)) /\ is_u64 (session_reward (game_state l)).

(** The u64 arguments of a call that reach the treasury or the reward. *)
Definition typed_tx (tx : Tx) : Prop :=
  is_u64 (clock tx) /\
  match call tx with
  | FundTreasury payment => is_u64 payment
  | AdminSetSessionReward new_reward => is_u64 new_reward
  | _ => True
  end.

(** What the record of [user] says was earned, and how many sessions were
    paid, on day [day]; a record of another day counts for nothing. *)
Definition earned_on (user : address) (day : Z) (l : Ledger) : Z :=
  match daily_earnings (game_state l) !! user with
  | Some e => if date e =? day then amount e else 0
  | None => 0
  end.

Definition sessions_on (user : address) (day : Z) (l : Ledger) : Z :=
  match daily_earnings (game_state l) !! user with
  | Some e => if date e =? day then sessions e else 0
  | None => 0
  end.

(** The bounds of the daily earning records. *)
Definition earning_within_limits (e : DailyEarning) : Prop :=
  0 <= amount e <= daily_cap /\ 0 <= sessions e <= daily_session_limit.

Definition earnings_within_limits (l : Ledger) : Prop :=
  forall (user : address) (e : DailyEarning),
    daily_earnings (game_state l) !! user = Some e -> earning_within_limits e.

End ledger.

(** ** JavaScript numbers

    A JavaScript number is an IEEE 754 binary64 value.  A finite one is
    modelled by the rational it is, and [+], [-] and [/] by the exact
    operation followed by [to_double], the rounding to the nearest double
    with a tie going to the even significand (53 bits, subnormals from
    2^-1074).  Comparisons, [Math.max], [Math.min] and [Math.floor] are exact.
    NaN, the infinities and the sign of zero are left out: local storage
    holds JSON, which has none of them, and the amounts handled stay far
    below 2^1024. *)

Module Double.

(** The integer part of the binary logarithm of [x], for [0 < x]. *)
Definition ilog2 (x : Q) : Z :=
  if Qle_bool 1 x then Z.log2 (Qfloor x)
  else - Z.log2_up (Qceiling (/ x)).

(** The nearest integer, a tie going to the even one. *)
Definition round_half_even (x : Q) : Z :=
  let f := Qfloor x in
  match (x - inject_Z f ?= 1 # 2)%Q with
  | Lt => f
  | Eq => if Z.even f then f else f + 1
  | Gt => f + 1
  end.

(** The exponent of the last bit of the significand of [x]. *)
Definition ulp_exponent (x : Q) : Z := Z.max (-1074) (ilog2 (Qabs x) - 52).

Definition to_double (x : Q) : Q :=
  if Qeq_bool x 0 then 0%Q
  else let e := ulp_exponent x in
       Qred (inject_Z (round_half_even (x / 2 ^ e)) * 2 ^ e)%Q.

Definition add (x y : Q) : Q := to_double (x + y).
Definition sub (x y : Q) : Q := to_double (x - y).
Definition div (x y : Q) : Q := to_double (x / y).

(** [parseFloat] of the decimal digits of an integer. *)
Definition parseFloat (n : Z) : Q := to_double (inject_Z n).

(** [Number.MAX_SAFE_INTEGER] *)
Definition MAX_SAFE_INTEGER : Z := 2 ^ 53 - 1.

(** The value of a finite float of the Standard Library's specification of
    IEEE 754 ([SpecFloat], here with 53 bits and exponents up to 1024), and
    the float an integer rounds to, to compare [to_double] with it. *)
Definition of_spec_float (f : SpecFloat.spec_float) : option Q :=
  match f with
  | SpecFloat.S754_zero _ => Some 0%Q
  | SpecFloat.S754_finite s m e =>
      Some (Qred (inject_Z (if s then Z.neg m else Z.pos m) * 2 ^ e)%Q)
  | _ => None
  end.

Definition spec_float_of_Z (n : Z) : SpecFloat.spec_float :=
  SpecFloat.binary_normalize 53 1024 n 0 false.

End Double.

(** ** [gameState.js]: the local cache of the cat's stats

    The stats and the coins are JavaScript numbers (the decay adds halves and
    tenths to the stats).  Millisecond timestamps are integers far below
    2^53: their differences are exact in doubles, and the rounding of the
    quotient of one by 86_400_000 never reaches the next whole number of
    days (lemma [day_count] below), so timestamps and day counts are
    modelled as integers with the integer quotient.  [getGameState] reads
    the state from local storage and [saveGameState] writes it back; a
    function below takes the state that [getGameState] returned and
    [Date.now()], and gives the state local storage holds once it returns
    together with the value it returns. *)

Module gameState.

Record CatStats : Type := mkStats {
  hunger : Q;
  happiness : Q;
  isAlive : bool;
  lastFedTime : Z;
  daysWithoutFeeding : Z;
}.

Record State : Type := mkState {
  coins : Q;
  completedSessions : Z;
  catStats : option CatStats;   (* [None]: the field is missing *)
}.

(** [DEFAULT_STATE.catStats]; its [lastFedTime] is [Date.now()] at the time
    the module was loaded. *)
Definition DEFAULT_catStats (loaded_at : Z) : CatStats :=
  {| hunger := 50; happiness := 50; isAlive := true;
     lastFedTime := loaded_at; daysWithoutFeeding := 0 |}.

Definition set_catStats (c : CatStats) (s : State) : State :=
  mkState (coins s) (completedSessions s) (Some c).

Definition Math_floor (x : Q) : Q := inject_Z (Qfloor x).

Definition feedCat (foodValue : Q) (now loaded_at : Z) (state : State)
    : State * CatStats :=
  let stats := match catStats state with
               | Some c => c
               | None => DEFAULT_catStats loaded_at
               end in
  if negb (isAlive stats)
  then (state, stats)
  else
    let stats := mkStats (Qmax 0 (Double.sub (hunger stats) foodValue))
                         (happiness stats)
                         (isAlive stats) (lastFedTime stats)
                         (daysWithoutFeeding stats) in
    let stats := mkStats (hunger stats)
                         (Qmin 100 (Double.add (happiness stats)
                                      (Math_floor (Double.div foodValue 2))))
                         (isAlive stats) (lastFedTime stats)
                         (daysWithoutFeeding stats) in
    let stats := mkStats (hunger stats) (happiness stats) (isAlive stats)
                         now (daysWithoutFeeding stats) in
    let stats := mkStats (hunger stats) (happiness stats) (isAlive stats)
                         (lastFedTime stats) 0 in
    (set_catStats stats state, stats).

Definition playWithCat (happinessValue : Q) (loaded_at : Z) (state : State)
    : State * CatStats :=
  let stats := match catStats state with
               | Some c => c
               | None => DEFAULT_catStats loaded_at
               end in
  let stats := mkStats (hunger stats)
                       (Qmin 100 (Double.add (happiness stats) happinessValue))
                       (isAlive stats) (lastFedTime stats)
                       (daysWithoutFeeding stats) in
  (set_catStats stats state, stats).

End gameState.

(** ** [edgeCaseHandler.js] and the claim of [useGameTransactions.js] *)

Module edgeCaseHandler.

(** What the retry logic reads of a thrown value: its [canRetry] and
    [errorType] properties ([None]: undefined). *)
Record ErrorObject : Type := mkError {
  canRetry : option bool;
  errorType : option string;
}.

(** A thrown value; [None] is a falsy one ([null], [undefined]). *)
Definition Thrown : Type := option ErrorObject.

Definition errorType_is (e : ErrorObject) (s : string) : bool :=
  match errorType e with
  | Some t => String.eqb t s
  | None => false
  end.

Definition canRetry_is_false (e : ErrorObject) : bool :=
  match canRetry e with
  | Some false => true
  | _ => false
  end.

Definition shouldRetryTransaction (error : Thrown) : bool :=
  match error with
  | None => false
  | Some error =>
      if canRetry_is_false error then false
      else if errorType_is error "rejected" then false
      else if errorType_is error "insufficient_funds"
              || errorType_is error "insufficient_gas" then false
      else if errorType_is error "network_error"
              || errorType_is error "timeout"
              || errorType_is error "gas_error" then true
      else negb (canRetry_is_false error)
  end.

(** What a call does that others can observe. *)
Inductive Event : Type :=
| Submit                           (* [signAndExecuteTransaction(tx)] *)
| WaitForTransaction (digest : Z)  (* [client.waitForTransaction] *)
| Reconcile (digest : Z)           (* local state, history, events *)
| OnRetry (attempt maxRetries : nat)
| Sleep (ms : Z).                  (* [setTimeout(resolve, ms)] *)

Inductive Settled : Type :=
| Resolved (digest : Z)
| Rejected (error : Thrown).

(** [executeWithRetry(transactionFn, maxRetries, retryDelay, onRetry)].
    [transactionFn k] is what the call number [k] (from 0) of the function
    does and how its promise settles.  [todo] counts the iterations the
    [for] loop still has, [maxRetries + 1] at the start. *)
Fixpoint retry_loop (transactionFn : nat -> list Event * Settled)
    (maxRetries : nat) (retryDelay : Z) (todo : nat) (attempt : nat)
    (lastError : Thrown) : list Event * Settled :=
  match todo with
  | O => ([], Rejected lastError)
  | S todo =>
      let '(done, settled) := transactionFn attempt in
      match settled with
      | Resolved v => (done, Resolved v)
      | Rejected error =>
          if negb (shouldRetryTransaction error)
          then (done, Rejected error)
          else
            let pause :=
              if (attempt <? maxRetries)%nat
              then [OnRetry (attempt + 1) maxRetries;
                    Sleep (retryDelay * Z.of_nat (attempt + 1))]
              else [] in
            let '(rest, final) :=
              retry_loop transactionFn maxRetries retryDelay todo (S attempt) error in
            (done ++ pause ++ rest, final)
      end
  end.

Definition executeWithRetry (transactionFn : nat -> list Event * Settled)
    (maxRetries : nat) (retryDelay : Z) : list Event * Settled :=
  retry_loop transactionFn maxRetries retryDelay (S maxRetries) 0 None.

End edgeCaseHandler.

Module useGameTransactions.
Import edgeCaseHandler.

(** How one call of [executeTransaction] goes, as the wallet and the RPC
    node decide it. *)
Inductive Attempt : Type :=
| SignFailed (error : Thrown)                (* [onError] *)
| WaitFailed (digest : Z) (error : Thrown)   (* submitted, then the wait threw *)
| ReconcileFailed (digest : Z) (error : Thrown)
    (* confirmed, then the update of the local state, which sits in the
       same [try], threw *)
| Confirmed (digest : Z).

Definition executeTransaction (a : Attempt) : list Event * Settled :=
  match a with
  | SignFailed error => ([Submit], Rejected error)
  | WaitFailed digest waitError =>
      ([Submit; WaitForTransaction digest], Rejected waitError)
  | ReconcileFailed digest error =>
      ([Submit; WaitForTransaction digest], Rejected error)
  | Confirmed digest =>
      ([Submit; WaitForTransaction digest; Reconcile digest], Resolved digest)
  end.

(** The part of [completeSession] that follows the build of the transaction:
    [executeWithRetry(executeTransaction, 2, 2000, onRetry)]; a rejection is
    rethrown to the caller. *)
Definition completeSession (world : nat -> Attempt) : list Event * Settled :=
  executeWithRetry (fun k => executeTransaction (world k)) 2 2000.

Definition is_Submit (e : Event) : bool :=
  match e with Submit => true | _ => false end.

Definition submissions (trace : list Event) : nat :=
  length (List.filter is_Submit trace).

End useGameTransactions.

(** ** More of the ledger: what a run funds and pays *)

Module accounting.
Import pomodoro_game ledger.

(** The OCT a transfer list hands over. *)
Definition coins_in (sent : list Transfer) : Z :=
  sum (flat_map (fun tr => match what tr with
                           | CoinOCT v => [v]
                           | _ => []
                           end) sent).

(** What a transaction puts into the treasury: the coin of a successful
    [fund_treasury]. *)
Definition funded_by (l : Ledger) (tx : Tx) : Z :=
  match call tx with
  | FundTreasury payment => if is_ok (execute l tx) then payment else 0
  | _ => 0
  end.

(** What a transaction pays out of the treasury: the reward of a successful
    [complete_session]. *)
Definition paid_by (l : Ledger) (tx : Tx) : Z :=
  match call tx with
  | CompleteSession =>
      match execute l tx with
      | Ok (_, sent) => coins_in sent
      | Err _ => 0
      end
  | _ => 0
  end.

Definition accepted_claim (l : Ledger) (tx : Tx) : bool :=
  match call tx with
  | CompleteSession => is_ok (execute l tx)
  | _ => false
  end.

Fixpoint funded (l : Ledger) (txs : list Tx) : Z :=
  match txs with
  | [] => 0
  | tx :: txs => funded_by l tx + funded (fst (step l tx)) txs
  end.

Fixpoint paid_out (l : Ledger) (txs : list Tx) : Z :=
  match txs with
  | [] => 0
  | tx :: txs => paid_by l tx + paid_out (fst (step l tx)) txs
  end.

Fixpoint accepted_claims (l : Ledger) (txs : list Tx) : Z :=
  match txs with
  | [] => 0
  | tx :: txs =>
      (if accepted_claim l tx then 1 else 0) + accepted_claims (fst (step l tx)) txs
  end.

(** The stats of a cat as percentages, and calls with u8 arguments. *)
Definition stats_in_range (cat : catnft.CatNFT) : Prop :=
  0 <= catnft.hunger cat <= 100 /\
  0 <= catnft.happiness cat <= 100 /\
  0 <= catnft.health cat <= 100.

Definition typed_op (op : catnft.CatOp) : Prop :=
  match op with
  | catnft.Feed food_value _ => is_u8 food_value
  | catnft.Play happiness_boost => is_u8 happiness_boost
  | catnft.DecayTick _ => True
  end.

End accounting.

(** ** [itemMapping.js]

    An object literal is the list of its own properties in insertion order;
    [prop m key] is [m[key]] for a key that is not inherited from
    [Object.prototype].  Numeric ids are integers. *)

Module itemMapping.

Definition FOOD_ID_MAP : list (string * Z) :=
  [("fish", 1); ("tuna", 2); ("salmon", 3); ("catnip", 4); ("premium_food", 5)]%string.

Definition TOY_ID_MAP : list (string * Z) :=
  [("ball", 6); ("yarn", 7); ("laser", 8); ("mouse", 9); ("scratch_post", 10)]%string.

Definition CAT_TYPE_MAP : list (string * Z) :=
  [("default", 0); ("black", 1); ("white", 2); ("calico", 3)]%string.

Definition ITEM_ID_MAP : list (string * Z) := FOOD_ID_MAP ++ TOY_ID_MAP.

Fixpoint prop {V : Type} (m : list (string * V)) (key : string) : option V :=
  match m with
  | [] => None
  | (k, v) :: m => if String.eqb k key then Some v else prop m key
  end.

Fixpoint prop_num {V : Type} (m : list (Z * V)) (key : Z) : option V :=
  match m with
  | [] => None
  | (k, v) :: m => if k =? key then Some v else prop_num m key
  end.

(** [Object.fromEntries(Object.entries(m).map(([key, value]) => [value, key]))] *)
Definition reversed (m : list (string * Z)) : list (Z * string) :=
  map (fun '(key, value) => (value, key)) m.

Definition REVERSE_CAT_MAP : list (Z * string) := reversed CAT_TYPE_MAP.
Definition REVERSE_ITEM_MAP : list (Z * string) := reversed ITEM_ID_MAP.

(** [null] is [None]. *)
Definition getItemId (stringId : string) : option Z :=
  match prop ITEM_ID_MAP stringId with
  | Some id => Some id
  | None =>
      match prop CAT_TYPE_MAP stringId with
      | Some id => Some id
      | None => None
      end
  end.

Definition getStringId (numericId : Z) : option string :=
  match prop_num REVERSE_ITEM_MAP numericId with
  | Some s => Some s
  | None =>
      match prop_num REVERSE_CAT_MAP numericId with
      | Some s => Some s
      | None => None
      end
  end.

Definition getFoodId (foodId : string) : option Z := prop FOOD_ID_MAP foodId.
Definition getCatTypeId (catId : string) : option Z := prop CAT_TYPE_MAP catId.

Definition isValidNumericId (numericId : Z) : bool :=
  match getStringId numericId with Some _ => true | None => false end.

End itemMapping.

(** ** [useGameTransactions.js]: the purchases the client builds

    [usePurchaseItem] and [usePurchaseCat] split a coin of the amount they
    computed off the buyer's OCT and pass it to the Move function; what is
    modelled is that call, for a wallet that holds the coins. *)

Module purchaseHooks.
Import ledger itemMapping.


Definition catPrices : list (Z * Z) := [(0, 0); (1, 50); (2, 75); (3, 150)].

(** [x || fallback] for a number [x] ([None]: undefined). *)
Definition or_number (x : option Z) (fallback : Z) : Z :=
  match x with
  | Some v => if v =? 0 then fallback else v
  | None => fallback
  end.


(** [hasCoins]: [client.getCoins] returned a coin.  Without one no
    transaction is built. *)
Definition purchaseCat (catTypeId : Z) (hasCoins : bool) : option Call :=
  let price := or_number (prop_num catPrices catTypeId) 0 in
  if 0 <? price
  then (if hasCoins then Some (PurchaseCat price catTypeId) else None)
  else (if hasCoins then Some (PurchaseCat 1 catTypeId) else None).

(** The key of [state.catTokenIds] under which [onSuccess] stores the id of
    the cat just minted: [getStringId(catTypeId) || `cat_${catTypeId}`]. *)
Definition catTokenKey (catTypeId : Z) : string :=
  match getStringId catTypeId with
  | Some EmptyString | None => "cat_" +:+ pretty catTypeId
  | Some s => s
  end.

End purchaseHooks.

(** ** [treasuryMonitor.js]

    What the RPC node answers to [client.getObject] is an input.  The
    balance in OCT is a JavaScript number; the messages of the results are
    left out. *)

Module treasuryMonitor.

Inductive Data : Type :=
| NoData                                   (* [data] is missing *)
| DataWithoutFields                        (* no [data.content.fields] *)
| DataWithFields (oct_balance : option Z). (* [fields.oct_balance], if any *)

Inductive GetObject : Type :=
| Rejects                                  (* the call throws *)
| Replies (error : bool) (data : Data).    (* [error]: the reply has [.error] *)

Inductive Status : Type := healthy | low | critical | empty | error.

Record TreasuryData : Type := mkTreasuryData {
  balance : Q;
  canReward : Z;
  status : Status;
  failed : bool;       (* the result carries an [error] message *)
}.

Definition treasury_error : TreasuryData := mkTreasuryData 0 0 error true.

Definition getTreasuryBalance (treasuryObject : GetObject) : TreasuryData :=
  match treasuryObject with
  | Rejects => treasury_error
  | Replies true _ => treasury_error
  | Replies false (DataWithFields oct_balance) =>
      let octBalance := match oct_balance with Some b => b | None => 0 end in
      let balance := Double.div (Double.parseFloat octBalance) 1000000000 in
      let canReward := Qfloor balance in
      let status := healthy in
      let status := if Qlt_le_dec balance 10 then low else status in
      let status := if Qlt_le_dec balance 5 then critical else status in
      let status := if Qlt_le_dec balance 1 then empty else status in
      mkTreasuryData balance canReward status false
  | Replies false _ => treasury_error
  end.

Inductive Severity : Type := severity_error | severity_warning | severity_success.

Record RewardCheck : Type := mkRewardCheck {
  canProceed : bool;
  checked_balance : Q;
  severity : Severity;
}.

Definition canTreasuryReward (treasuryObject : GetObject) (rewardAmount : Q)
    : RewardCheck :=
  let treasuryData := getTreasuryBalance treasuryObject in
  if failed treasuryData then mkRewardCheck false 0 severity_error
  else if Qlt_le_dec (balance treasuryData) rewardAmount
  then mkRewardCheck false (balance treasuryData) severity_error
  else if Qlt_le_dec (balance treasuryData) 5
  then mkRewardCheck true (balance treasuryData) severity_warning
  else mkRewardCheck true (balance treasuryData) severity_success.

Record Checks : Type := mkChecks {
  walletConnected : bool;
  accountValid : bool;
  treasuryExists : bool;
  treasuryFunded : bool;
  gameStateExists : bool;
}.

Inductive PreflightError : Type :=
| WalletNotConnected
| NoAccountAddress
| TreasuryRefused (check : RewardCheck)   (* [treasuryCheck.message] *)
| GameStateNotFound
| GameStateCheckFailed.

Record Preflight : Type := mkPreflight {
  preflight_canProceed : bool;
  checks : Checks;
  errors : list PreflightError;
  allChecks : bool;
}.

(** [wallet_isConnected] is [wallet?.isConnected], [account_address] is
    whether [account?.address] is set.  [canTreasuryReward] catches every
    failure of the RPC itself, so the [catch] around it is never entered. *)
Definition preflightCheckCompleteSession (treasuryObject gameStateObject : GetObject)
    (wallet_isConnected account_address : bool) : Preflight :=
  let errors := [] in
  let '(errors, c_wallet) :=
    if negb wallet_isConnected
    then (errors ++ [WalletNotConnected], false) else (errors, true) in
  let '(errors, c_account) :=
    if negb account_address
    then (errors ++ [NoAccountAddress], false) else (errors, true) in
  let treasuryCheck := canTreasuryReward treasuryObject 1 in
  let '(errors, c_exists, c_funded) :=
    if canProceed treasuryCheck
    then (errors, true, true)
    else (errors ++ [TreasuryRefused treasuryCheck], true, false) in
  let '(errors, c_game) :=
    match gameStateObject with
    | Rejects => (errors ++ [GameStateCheckFailed], false)
    | Replies _ NoData => (errors ++ [GameStateNotFound], false)
    | Replies _ _ => (errors, true)
    end in
  let checks := mkChecks c_wallet c_account c_exists c_funded c_game in
  mkPreflight (match errors with [] => true | _ => false end)
              checks errors
              (c_wallet && c_account && c_exists && c_funded && c_game).

End treasuryMonitor.

(** ** [gameState.js]: coins, inventory, migration and the local death check

    As for [feedCat], a function takes what [getGameState] returned and gives
    what local storage holds once the function and the save it scheduled are
    done, together with its result.  Item ids are names that
    [Object.prototype] does not define; quantities are integers. *)

Module localCache.
Import gameState.

Definition set_coins (c : Q) (s : State) : State :=
  mkState c (completedSessions s) (catStats s).

Definition addCoins (amount : Q) (state : State) : State * Q :=
  let state := set_coins (Double.add (coins state) amount) state in
  (state, coins state).

Definition spendCoins (amount : Q) (state : State) : State * bool :=
  if Qle_bool amount (coins state)
  then (set_coins (Double.sub (coins state) amount) state, true)
  else (state, false).

(** [state.inventory] *)
Record Inventory : Type := mkInventory {
  foods : gmap string Z;
  toys : gmap string Z;
  cats : list string;
}.

Inductive ItemType : Type := type_foods | type_toys.

Definition items (type : ItemType) (inv : Inventory) : gmap string Z :=
  match type with type_foods => foods inv | type_toys => toys inv end.

Definition set_items (type : ItemType) (m : gmap string Z) (inv : Inventory)
    : Inventory :=
  match type with
  | type_foods => mkInventory m (toys inv) (cats inv)
  | type_toys => mkInventory (foods inv) m (cats inv)
  end.

(** [addToInventory(type, itemId)] for [type] 'foods' or 'toys' *)
Definition addToInventory (type : ItemType) (itemId : string) (inv : Inventory)
    : Inventory :=
  let m := items type inv in
  let m := match m !! itemId with
           | None | Some 0 => <[itemId := 0]> m
           | Some _ => m
           end in
  let m := match m !! itemId with
           | Some q => <[itemId := q + 1]> m
           | None => m
           end in
  set_items type m inv.

Definition removeFromInventory (type : ItemType) (itemId : string) (inv : Inventory)
    : Inventory * bool :=
  let m := items type inv in
  match m !! itemId with
  | Some q =>
      if negb (q =? 0) && (0 <? q)
      then let q := q - 1 in
           let m := <[itemId := q]> m in
           let m := if q =? 0 then delete itemId m else m in
           (set_items type m inv, true)
      else (inv, false)
  | None => (inv, false)
  end.

Definition getItemQuantity (type : ItemType) (itemId : string) (inv : Inventory) : Z :=
  match items type inv !! itemId with
  | Some q => q
  | None => 0
  end.

(** All the quantities an inventory holds are positive. *)
Definition no_empty_entry (type : ItemType) (inv : Inventory) : Prop :=
  forall id q, items type inv !! id = Some q -> 0 < q.

(** The migration of [getGameState]: an inventory stored as an array of item
    ids becomes an object of quantities. *)
Definition migrate (ids : list string) : gmap string Z :=
  fold_left (fun obj id =>
               <[id := (match obj !! id with
                        | None | Some 0 => 0
                        | Some q => q
                        end) + 1]> obj)
            ids ∅.

Definition millisecondsPerDay : Z := 1000 * 60 * 60 * 24.

(** [checkCatDeath()] at time [now].  The day count it writes is saved only
    when the cat dies. *)
Definition checkCatDeath (now : Z) (state : State) : State * option CatStats :=
  match catStats state with
  | None => (state, None)
  | Some stats =>
      if negb (isAlive stats) then (state, Some stats)
      else
        let lastFed := if lastFedTime stats =? 0 then now else lastFedTime stats in
        let days := (now - lastFed) / millisecondsPerDay in
        let stats := mkStats (hunger stats) (happiness stats) (isAlive stats)
                             (lastFedTime stats) days in
        if 3 <=? days
        then let stats := mkStats (hunger stats) (happiness stats) false
                                  (lastFedTime stats) (daysWithoutFeeding stats) in
             (set_catStats stats state, Some stats)
        else (state, Some stats)
  end.

Definition reviveCat (now : Z) (state : State) : State * option CatStats :=
  match catStats state with
  | None => (state, None)
  | Some stats =>
      let stats := mkStats 50 50 true now 0 in
      (set_catStats stats state, Some stats)
  end.

End localCache.

(** ** [transactionHistory.js]

    An entry is its timestamp and the rest of its fields.  [stored] is the
    array parsed from local storage, [None] when nothing (or nothing
    parsable) is stored. *)

Module transactionHistory.

Definition MAX_TRANSACTIONS : nat := 500.

Record Transaction (Fields : Type) : Type := mkTransaction {
  timestamp : Z;
  fields : Fields;
}.
Arguments mkTransaction {Fields} _ _.
Arguments timestamp {Fields} _.
Arguments fields {Fields} _.

Section History.
Context {Fields : Type}.

(** [history.sort((a, b) => b.timestamp - a.timestamp)]: the stable sort,
    newest first. *)
Fixpoint insert_newest_first (x : Transaction Fields) (l : list (Transaction Fields))
    : list (Transaction Fields) :=
  match l with
  | [] => [x]
  | y :: l' => if timestamp x <? timestamp y
               then y :: insert_newest_first x l'
               else x :: l
  end.

Definition sort_newest_first (l : list (Transaction Fields))
    : list (Transaction Fields) :=
  fold_right insert_newest_first [] l.

(** The order [getTransactionHistory] returns the entries in. *)
Definition newest_first (a b : Transaction Fields) : Prop :=
  timestamp b <= timestamp a.

Definition getTransactionHistory (stored : option (list (Transaction Fields)))
    : list (Transaction Fields) :=
  match stored with
  | None => []
  | Some history => sort_newest_first history
  end.

(** [addTransaction(transaction)] at time [now]: [timestamp] is the one of
    [transaction] if it has one.  Gives the array stored and the entry. *)
Definition addTransaction (given_timestamp : option Z) (transaction : Fields) (now : Z)
    (stored : option (list (Transaction Fields)))
    : list (Transaction Fields) * Transaction Fields :=
  let history := getTransactionHistory stored in
  let newTx := mkTransaction (match given_timestamp with
                              | Some t => t
                              | None => now
                              end) transaction in
  let history := newTx :: history in
  let limitedHistory := firstn MAX_TRANSACTIONS history in
  (limitedHistory, newTx).

End History.

End transactionHistory.

(** * Properties *)

(** The unit tests of the Move package. *)

Example test_mint_cat : catnft.get_stats (catnft.mint 1) = (50, 50, 100, true).
Proof. reflexivity. Qed.

Example test_play_with_cat :
  (c ← catnft.play_with_cat (catnft.mint 1) 10; catnft.play_with_cat c 50)
  = Ok (catnft.set_happiness 100 (catnft.mint 1)).
Proof. reflexivity. Qed.

Example test_get_food_hunger_value :
  map pomodoro_game.get_food_hunger_value [1; 2; 3; 4; 5; 99] = [10; 15; 20; 25; 50; 0].
Proof. reflexivity. Qed.

Example test_get_toy_happiness_value :
  map pomodoro_game.get_toy_happiness_value [6; 7; 8; 9; 10; 99]
  = [10; 15; 20; 25; 30; 0].
Proof. reflexivity. Qed.

Ltac unfold_result :=
  unfold mbind, mret, Result_bind, Result_ret in *.

Ltac case_if :=
  match goal with
  | |- context [if ?b then _ else _] => destruct b eqn:?
  | H : context [if ?b then _ else _] |- _ => destruct b eqn:?
  end.

Ltac z_bools :=
  repeat match goal with
  | H : (_ <=? _) = true |- _ => apply Z.leb_le in H
  | H : (_ <=? _) = false |- _ => apply Z.leb_gt in H
  | H : (_ <? _) = true |- _ => apply Z.ltb_lt in H
  | H : (_ <? _) = false |- _ => apply Z.ltb_ge in H
  | H : (_ =? _) = true |- _ => apply Z.eqb_eq in H
  | H : (_ =? _) = false |- _ => apply Z.eqb_neq in H
  end.

Ltac cat_fields :=
  unfold catnft.set_hunger, catnft.set_happiness, catnft.set_health,
    catnft.set_is_alive, catnft.set_last_fed_time,
    catnft.set_days_without_feeding in *;
  cbn in *.

(** ** The cat on the ledger *)

Section CatNFT.
Import catnft.

Lemma feed_cat_result (cat : CatNFT) (food_value clock : Z) :
  feed_cat cat food_value clock =
  Ok (mkCat (cat_type cat) (Z.max 0 (hunger cat - food_value)) (happiness cat)
            (health cat) (is_alive cat) clock 0).
Proof.
  unfold feed_cat, sub_u8. unfold_result.
  destruct (food_value <=? hunger cat) eqn:Hle; cat_fields; z_bools;
    do 2 f_equal; lia.
Qed.

Lemma play_with_cat_result (cat : CatNFT) (happiness_boost : Z) :
  happiness cat + happiness_boost <= u8_max ->
  play_with_cat cat happiness_boost =
  Ok (set_happiness (Z.min 100 (happiness cat + happiness_boost)) cat).
Proof.
  intros Hfit. unfold play_with_cat, add_u8. unfold_result.
  apply Z.leb_le in Hfit. rewrite Hfit.
  destruct (happiness cat + happiness_boost <=? 100) eqn:Hle; z_bools;
    cat_fields; do 2 f_equal; lia.
Qed.

Lemma play_with_cat_overflow (cat : CatNFT) (happiness_boost : Z) :
  u8_max < happiness cat + happiness_boost ->
  play_with_cat cat happiness_boost = Err ArithmeticError.
Proof.
  intros Hbig. unfold play_with_cat, add_u8. unfold_result.
  apply Z.leb_gt in Hbig. now rewrite Hbig.
Qed.

(** The day count [update_stats] computes from the clock. *)
Lemma update_stats_unfold (cat cat' : CatNFT) (clock : Z) :
  update_stats cat clock = Ok cat' ->
  let d := (if last_fed_time cat <? clock then clock - last_fed_time cat else 0)
           / ms_per_day in
  days_without_feeding cat' = Z.max (days_without_feeding cat) d /\
  hunger cat' = (if hunger cat <? 100 then hunger cat + 1 else hunger cat) /\
  happiness cat' = (if 0 <? happiness cat then happiness cat - 1 else happiness cat) /\
  cat_type cat' = cat_type cat /\
  last_fed_time cat' = last_fed_time cat /\
  (if death_rule cat'
   then is_alive cat' = false /\ health cat' = 0
   else is_alive cat' = is_alive cat /\
        health cat' = (if (70 <? hunger cat') && (0 <? health cat)
                       then health cat - 1 else health cat)).
Proof.
  unfold update_stats, sub_u64, div_u64, cast_u8, add_u8, sub_u8, death_rule.
  unfold_result. change (ms_per_day =? 0) with false. cbv zeta.
  intros H.
  repeat (case_if; cat_fields; try discriminate);
    injection H as <-; cat_fields; z_bools;
    repeat split;
    repeat (case_if; cat_fields; z_bools); try lia; try (split; lia).
Qed.

Lemma update_stats_succeeds (cat : CatNFT) (clock : Z) :
  (clock - last_fed_time cat) / ms_per_day <= u8_max ->
  exists cat', update_stats cat clock = Ok cat'.
Proof.
  intros Hd.
  unfold update_stats, sub_u64, div_u64, cast_u8, add_u8, sub_u8.
  unfold_result. unfold ms_per_day, u8_max in *.
  change (86400000 =? 0) with false. cbv zeta.
  repeat (case_if; cat_fields; z_bools); try (eexists; reflexivity); try lia;
    change (0 / 86400000) with 0 in *; lia.
Qed.

Lemma update_stats_cast_fails (cat : CatNFT) (clock : Z) :
  u8_max < (clock - last_fed_time cat) / ms_per_day ->
  days_without_feeding cat < (clock - last_fed_time cat) / ms_per_day ->
  update_stats cat clock = Err ArithmeticError.
Proof.
  intros Hbig Hmore.
  assert (Hlt : last_fed_time cat < clock).
  { destruct (Z.lt_ge_cases (last_fed_time cat) clock) as [|Hge]; [assumption|].
    assert ((clock - last_fed_time cat) / ms_per_day <= 0)
      by (apply Z.div_le_upper_bound; unfold ms_per_day; lia).
    unfold u8_max in *; lia. }
  unfold update_stats, sub_u64, div_u64, cast_u8.
  unfold_result. change (ms_per_day =? 0) with false. cbv zeta.
  apply Z.ltb_lt in Hlt. rewrite Hlt.
  apply Z.ltb_lt in Hlt. apply Z.lt_le_incl, Z.leb_le in Hlt. rewrite Hlt.
  apply Z.ltb_lt in Hmore. rewrite Hmore.
  apply Z.leb_gt in Hbig. now rewrite Hbig.
Qed.

Lemma death_rule_spec (cat : CatNFT) :
  death_rule cat = true <->
  (100 <= hunger cat /\ happiness cat = 0) \/ 3 <= days_without_feeding cat.
Proof.
  unfold death_rule.
  rewrite orb_true_iff, andb_true_iff, !Z.leb_le, Z.eqb_eq. reflexivity.
Qed.

Lemma only_decay_kills (cat : CatNFT) (op : CatOp) :
  is_alive cat = true -> death_rule (after cat op) = false ->
  is_alive (after cat op) = true.
Proof.
  intros Halive Hrule. unfold after in *.
  destruct op as [food_value clock | boost | clock]; cbn in *.
  - rewrite feed_cat_result in *. exact Halive.
  - unfold play_with_cat, add_u8 in *. unfold_result.
    repeat (case_if; cat_fields); assumption.
  - destruct (update_stats cat clock) as [cat'|] eqn:Htick; [|assumption].
    apply update_stats_unfold in Htick. cbv zeta in Htick.
    rewrite Hrule in Htick. destruct Htick as (_ & _ & _ & _ & _ & -> & _).
    exact Halive.
Qed.

(** A dead cat can be fed: ticked again, it is dead with health 0 although
    the death rule does not hold of its stats.  The cat is a minted one,
    ticked after four days, then fed. *)
Lemma dead_cat_outside_the_death_rule :
  let dead := after (mint 1) (DecayTick (4 * ms_per_day)) in
  let fed := after dead (Feed 20 (4 * ms_per_day)) in
  let ticked := after fed (DecayTick (4 * ms_per_day + 1)) in
  update_stats fed (4 * ms_per_day + 1) = Ok ticked /\
  ticked = mkCat 1 32 48 0 false (4 * ms_per_day) 0 /\
  ~ ((is_alive ticked = false /\ health ticked = 0) <->
     ((100 <= hunger ticked /\ happiness ticked = 0) \/
      3 <= days_without_feeding ticked)).
Proof.
  cbv zeta. split; [reflexivity|]. split; [reflexivity|].
  vm_compute. intros [Hdead _].
  destruct (Hdead (conj eq_refl eq_refl)) as [[Hhunger _]|Hdays];
    [apply Hhunger | apply Hdays]; reflexivity.
Qed.

(** C5, as the code has it.  A decay tick ([update_stats]) kills a living
    cat exactly when the death rule holds of the stats it leaves: a cat
    alive before the tick is dead with health 0 after it if and only if
    (hunger >= 100 and happiness = 0) or days_without_feeding >= 3.  A cat
    dead before the tick is dead after it, whether the rule holds or not.
    Along every sequence of feed, play and decay operations after which the
    rule never holds, a living cat stays alive.  A living cat last fed four
    days before the tick is dead with health 0 after it. *)
Theorem decay_tick_death_rule :
  (forall (cat cat' : CatNFT) (clock : Z),
     is_alive cat = true -> update_stats cat clock = Ok cat' ->
     (is_alive cat' = false /\ health cat' = 0) <->
     ((100 <= hunger cat' /\ happiness cat' = 0) \/ 3 <= days_without_feeding cat')) /\
  (forall (cat cat' : CatNFT) (clock : Z),
     is_alive cat = false -> update_stats cat clock = Ok cat' ->
     is_alive cat' = false) /\
  (forall (cat : CatNFT) (ops : list CatOp),
     is_alive cat = true ->
     Forall (fun c => ~ ((100 <= hunger c /\ happiness c = 0) \/
                         3 <= days_without_feeding c)) (trajectory cat ops) ->
     Forall (fun c => is_alive c = true) (trajectory cat ops)) /\
  (forall (cat : CatNFT) (clock : Z),
     is_alive cat = true ->
     (clock - last_fed_time cat) / ms_per_day = 4 ->
     exists cat', update_stats cat clock = Ok cat' /\
                  3 <= days_without_feeding cat' /\
                  is_alive cat' = false /\ health cat' = 0).
Proof.
  split; [|split; [|split]].
  - intros cat cat' clock Halive Htick.
    rewrite <- death_rule_spec.
    apply update_stats_unfold in Htick. cbv zeta in Htick.
    destruct Htick as (_ & _ & _ & _ & _ & Hend).
    destruct (death_rule cat') eqn:Hrule.
    + tauto.
    + destruct Hend as [Hstill _]. rewrite Hstill, Halive.
      split; [intros [? _]; discriminate | discriminate].
  - intros cat cat' clock Hdead Htick.
    apply update_stats_unfold in Htick. cbv zeta in Htick.
    destruct Htick as (_ & _ & _ & _ & _ & Hend).
    destruct (death_rule cat'); [tauto|].
    destruct Hend as [Hstill _]. now rewrite Hstill.
  - intros cat ops. revert cat.
    induction ops as [|op ops IH]; intros cat Halive Hnever; cbn in *.
    + constructor.
    + inversion Hnever as [|c cs Hhere Hrest]; subst.
      assert (Hnext : is_alive (after cat op) = true).
      { apply only_decay_kills; [assumption|].
        destruct (death_rule (after cat op)) eqn:Hrule; [|reflexivity].
        apply death_rule_spec in Hrule. contradiction. }
      constructor; [assumption | apply IH; assumption].
  - intros cat clock Halive Hfour.
    destruct (update_stats_succeeds cat clock) as [cat' Htick].
    { rewrite Hfour. unfold u8_max. lia. }
    exists cat'. split; [assumption|].
    pose proof (update_stats_unfold _ _ _ Htick) as Hfields. cbv zeta in Hfields.
    destruct Hfields as (Hdays & _ & _ & _ & _ & Hend).
    assert (Hlt : last_fed_time cat < clock).
    { destruct (Z.lt_ge_cases (last_fed_time cat) clock) as [|Hge]; [assumption|].
      assert ((clock - last_fed_time cat) / ms_per_day <= 0)
        by (apply Z.div_le_upper_bound; unfold ms_per_day; lia).
      lia. }
    apply Z.ltb_lt in Hlt. rewrite Hlt, Hfour in Hdays.
    assert (Hthree : 3 <= days_without_feeding cat') by lia.
    assert (Hrule : death_rule cat' = true)
      by (apply death_rule_spec; right; assumption).
    rewrite Hrule in Hend. tauto.
Qed.

Lemma decay_tick_death_rule_witness :
  let cat := mkCat 1 50 50 100 true 0 0 in
  let starving := mkCat 1 99 1 100 true 0 0 in
  let dead := mkCat 1 31 49 0 false (4 * ms_per_day) 0 in
  (exists cat', update_stats cat (4 * ms_per_day) = Ok cat' /\
                3 <= days_without_feeding cat' /\
                is_alive cat' = false /\ health cat' = 0) /\
  Forall (fun c => is_alive c = true)
         (trajectory cat [DecayTick 1000; Feed 20 2000; Play 5]) /\
  ((is_alive (after starving (DecayTick 5)) = false /\
    health (after starving (DecayTick 5)) = 0) <->
   ((100 <= hunger (after starving (DecayTick 5)) /\
     happiness (after starving (DecayTick 5)) = 0) \/
    3 <= days_without_feeding (after starving (DecayTick 5)))) /\
  is_alive (after dead (DecayTick (4 * ms_per_day + 1))) = false.
Proof.
  intros cat starving dead.
  destruct decay_tick_death_rule as (Hiff & Hdead & Htraj & Hfour).
  split; [|split; [|split]].
  - apply (Hfour cat (4 * ms_per_day)); reflexivity.
  - apply (Htraj cat [DecayTick 1000; Feed 20 2000; Play 5]); [reflexivity|].
    vm_compute trajectory.
    repeat (constructor; [cbn; lia|]). constructor.
  - apply (Hiff starving (after starving (DecayTick 5)) 5); reflexivity.
  - apply (Hdead dead (after dead (DecayTick (4 * ms_per_day + 1)))
             (4 * ms_per_day + 1)); reflexivity.
Defined.

(** C10.  [update_stats] casts the day count it recomputes to u8: when more
    than 255 days have passed since [last_fed_time], and more than the stored
    [days_without_feeding], the call aborts with an arithmetic error.  [mint]
    sets [last_fed_time] to 0, so the first tick of a freshly minted cat
    aborts at every clock value from 256 days after the epoch on.  The call
    aborts in no other case. *)
Theorem update_stats_aborts_after_255_days :
  (forall (cat : CatNFT) (clock : Z),
     u8_max < (clock - last_fed_time cat) / ms_per_day ->
     days_without_feeding cat < (clock - last_fed_time cat) / ms_per_day ->
     update_stats cat clock = Err ArithmeticError) /\
  (forall (cat_type clock : Z),
     256 * ms_per_day <= clock ->
     update_stats (mint cat_type) clock = Err ArithmeticError) /\
  (forall (cat : CatNFT) (clock : Z),
     is_ok (update_stats cat clock) = false ->
     u8_max < (clock - last_fed_time cat) / ms_per_day).
Proof.
  split; [|split].
  - exact update_stats_cast_fails.
  - intros cat_type clock Hlate.
    assert (Hdays : 256 <= (clock - 0) / ms_per_day).
    { apply Z.div_le_lower_bound; unfold ms_per_day in *; lia. }
    apply update_stats_cast_fails; cbn; unfold u8_max; lia.
  - intros cat clock Hfail.
    destruct (Z.lt_ge_cases u8_max ((clock - last_fed_time cat) / ms_per_day))
      as [|Hsmall]; [assumption|].
    destruct (update_stats_succeeds cat clock Hsmall) as [cat' Hok].
    rewrite Hok in Hfail. discriminate.
Qed.

Lemma update_stats_aborts_after_255_days_witness :
  update_stats (mkCat 1 50 50 100 true 86400000 2) (300 * 86400000)
    = Err ArithmeticError /\
  update_stats (mint 1) 1762000000000 = Err ArithmeticError /\
  u8_max < (1762000000000 - last_fed_time (mint 1)) / ms_per_day.
Proof.
  destruct update_stats_aborts_after_255_days as (Hcast & Hmint & Honly).
  split; [|split].
  - apply (Hcast (mkCat 1 50 50 100 true 86400000 2) (300 * 86400000));
      vm_compute; reflexivity.
  - apply (Hmint 1 1762000000000). vm_compute. discriminate.
  - apply (Honly (mint 1) 1762000000000). reflexivity.
Defined.

End CatNFT.

(** ** The arithmetic of doubles

    [to_double] against doubles computed elsewhere: 0.1, 0.1 + 0.2 and
    0.2 + 0.1 - 0.1 as every IEEE 754 machine has them, and quotients, a
    sum, a difference, an integer beyond 2^53 and a subnormal quotient as the
    Standard Library's specification of IEEE 754 computes them. *)

Example to_double_tenth :
  Double.to_double (1 # 10) = 3602879701896397 # 36028797018963968.
Proof. vm_compute. reflexivity. Qed.

Example tenth_plus_two_tenths :
  Double.add (Double.to_double (1 # 10)) (Double.to_double (2 # 10))
  = 1351079888211149 # 4503599627370496.
Proof. vm_compute. reflexivity. Qed.

Example two_tenths_plus_tenth_minus_tenth :
  Double.sub (Double.add (Double.to_double (2 # 10)) (Double.to_double (1 # 10)))
             (Double.to_double (1 # 10))
  = 7205759403792795 # 36028797018963968.
Proof. vm_compute. reflexivity. Qed.

Example to_double_as_SpecFloat :
  let tenth := SpecFloat.SFdiv 53 1024 (Double.spec_float_of_Z 1)
                                       (Double.spec_float_of_Z 10) in
  let fifth := SpecFloat.SFdiv 53 1024 (Double.spec_float_of_Z 2)
                                       (Double.spec_float_of_Z 10) in
  let small := SpecFloat.SFdiv 53 1024 (Double.spec_float_of_Z 1)
                                       (Double.spec_float_of_Z (3 * 2 ^ 1000)) in
  let subnormal := SpecFloat.SFdiv 53 1024 small (Double.spec_float_of_Z (2 ^ 55)) in
  Double.of_spec_float tenth = Some (Double.div 1 10) /\
  Double.of_spec_float (SpecFloat.SFadd 53 1024 tenth fifth)
  = Some (Double.add (Double.div 1 10) (Double.div 2 10)) /\
  Double.of_spec_float (SpecFloat.SFsub 53 1024 tenth fifth)
  = Some (Double.sub (Double.div 1 10) (Double.div 2 10)) /\
  Double.of_spec_float (Double.spec_float_of_Z 9999999999999999)
  = Some (Double.parseFloat 9999999999999999) /\
  Double.of_spec_float subnormal
  = Some (Double.div (Double.div 1 (inject_Z (3 * 2 ^ 1000))) (inject_Z (2 ^ 55))).
Proof. vm_compute. repeat split. Qed.

Section Doubles.
Import Double.
Local Open Scope Q_scope.

Lemma round_half_even_bounds (s : Q) :
  inject_Z (Qfloor s) <= s < inject_Z (Qfloor s + 1) /\
  (Qfloor s <= round_half_even s <= Qfloor s + 1)%Z.
Proof.
  split; [split; [apply Qfloor_le | apply Qlt_floor]|].
  unfold round_half_even.
  destruct (s - inject_Z (Qfloor s) ?= 1 # 2); [destruct (Z.even _)| |]; lia.
Qed.

Lemma round_half_even_ge (s : Q) (N : Z) :
  inject_Z N <= s -> (N <= round_half_even s)%Z.
Proof.
  intros H. destruct (round_half_even_bounds s) as [_ [Hlow _]].
  apply Qfloor_resp_le in H. rewrite Qfloor_Z in H. lia.
Qed.

Lemma round_half_even_lt_half (s : Q) (N : Z) :
  s < inject_Z N + (1 # 2) -> (round_half_even s <= N)%Z.
Proof.
  intros H. destruct (round_half_even_bounds s) as [[Hfloor _] [_ Hup]].
  assert (Hf : (Qfloor s <= N)%Z).
  { assert (Hlt : inject_Z (Qfloor s) < inject_Z (N + 1)).
    { rewrite inject_Z_plus. change (inject_Z 1) with 1. lra. }
    rewrite <- Zlt_Qlt in Hlt. lia. }
  destruct (Z.eq_dec (Qfloor s) N) as [Heq|Hne]; [|lia].
  unfold round_half_even. rewrite Heq.
  assert (Hfrac : s - inject_Z N < 1 # 2) by lra.
  rewrite Qlt_alt in Hfrac. rewrite Hfrac. lia.
Qed.

Lemma round_half_even_le (s : Q) (N : Z) :
  s <= inject_Z N -> (round_half_even s <= N)%Z.
Proof. intros H. apply round_half_even_lt_half. lra. Qed.

Lemma round_half_even_exact (s : Q) (N : Z) :
  s == inject_Z N -> round_half_even s = N.
Proof.
  intros H. apply Z.le_antisymm.
  - apply round_half_even_le. lra.
  - apply round_half_even_ge. lra.
Qed.


Lemma two_power_pos (e : Z) : 0 < 2 ^ e.
Proof. apply Qpower_0_lt. reflexivity. Qed.

Lemma two_power_Z (n : Z) : (0 <= n)%Z -> inject_Z (2 ^ n) == 2 ^ n.
Proof. intros H. now rewrite Zpower_Qpower. Qed.

Lemma two_power_succ (e : Z) : 2 ^ (e + 1) == 2 * 2 ^ e.
Proof. rewrite Qpower_plus by discriminate. change (2 ^ 1) with 2. ring. Qed.

(** [ilog2 y] is the integer part of the binary logarithm of [y]. *)
Lemma ilog2_spec (y : Q) :
  0 < y -> 2 ^ ilog2 y <= y < 2 ^ (ilog2 y + 1).
Proof.
  intros Hpos. unfold ilog2.
  destruct (Qle_bool 1 y) eqn:Hone.
  - apply Qle_bool_iff in Hone.
    assert (Hf : (1 <= Qfloor y)%Z).
    { apply (Qfloor_resp_le (inject_Z 1)) in Hone. now rewrite Qfloor_Z in Hone. }
    destruct (Z.log2_spec (Qfloor y)) as [Hlow Hup]; [lia|].
    pose proof (Z.log2_nonneg (Qfloor y)) as Hl.
    pose proof (Qfloor_le y) as Hfloor. pose proof (Qlt_floor y) as Hceil.
    rewrite <- !two_power_Z by lia. split.
    + apply Qle_trans with (inject_Z (Qfloor y)); [|assumption].
      now rewrite <- Zle_Qle.
    + apply Qlt_le_trans with (inject_Z (Qfloor y + 1)); [assumption|].
      rewrite <- Zle_Qle. rewrite Z.add_1_r. lia.
  - assert (Hlt : y < 1).
    { apply Qnot_le_lt. intros H. apply Qle_bool_iff in H. congruence. }
    assert (Hy : ~ y == 0) by lra.
    pose proof (Qmult_inv_r y Hy) as Hinv.
    assert (Hz : 1 < / y).
    { apply Qlt_shift_inv_l; [assumption|]. lra. }
    set (z := / y) in *.
    assert (Hc : (1 < Qceiling z)%Z).
    { pose proof (Qle_ceiling z) as H.
      assert (inject_Z 1 < inject_Z (Qceiling z)) as H1
        by (change (inject_Z 1) with 1; lra).
      now rewrite <- Zlt_Qlt in H1. }
    destruct (Z.log2_up_spec (Qceiling z)) as [Hlow Hup]; [assumption|].
    set (u := Z.log2_up (Qceiling z)) in *.
    assert (Hu : (1 <= u)%Z).
    { destruct (Z.le_gt_cases 1 u) as [|Hsmall]; [assumption|exfalso].
      assert (2 ^ u <= 2 ^ 0)%Z by (apply Z.pow_le_mono_r; lia).
      change (2 ^ 0)%Z with 1%Z in *. lia. }
    replace (Z.pred u) with (u - 1)%Z in Hlow by lia.
    assert (Hzu : z <= 2 ^ u).
    { rewrite <- two_power_Z by lia.
      apply Qle_trans with (inject_Z (Qceiling z)); [apply Qle_ceiling|].
      now rewrite <- Zle_Qle. }
    assert (Huz : 2 ^ (u - 1) < z).
    { rewrite <- two_power_Z by lia.
      apply Qnot_le_lt. intros Hle.
      apply Qceiling_resp_le in Hle. rewrite Qceiling_Z in Hle. lia. }
    pose proof (two_power_pos u) as Hpu.
    pose proof (two_power_pos (u - 1)) as Hpu1.
    replace (- u + 1)%Z with (- (u - 1))%Z by lia.
    rewrite !Qpower_opp. split.
    + apply Qle_shift_inv_r; [assumption|]. nra.
    + apply Qlt_shift_inv_l; [assumption|]. nra.
Qed.

Lemma ilog2_lt (y : Q) (j : Z) : 0 < y -> y < 2 ^ j -> (ilog2 y < j)%Z.
Proof.
  intros Hpos Hlt. destruct (ilog2_spec y Hpos) as [Hlow _].
  apply Qpower_lt_compat_l_inv with 2; [|reflexivity].
  eapply Qle_lt_trans; eassumption.
Qed.

Lemma ilog2_ge (y : Q) (j : Z) : 0 < y -> 2 ^ j <= y -> (j <= ilog2 y)%Z.
Proof.
  intros Hpos Hle. destruct (ilog2_spec y Hpos) as [_ Hup].
  assert (j < ilog2 y + 1)%Z; [|lia].
  apply Qpower_lt_compat_l_inv with 2; [|reflexivity].
  eapply Qle_lt_trans; eassumption.
Qed.

Lemma ilog2_comp (x y : Q) : x == y -> ilog2 x = ilog2 y.
Proof.
  intros H. unfold ilog2.
  rewrite (Qleb_comp 1 1 (Qeq_refl 1) _ _ H), (Qfloor_comp _ _ H).
  assert (Hinv : / x == / y) by now rewrite H.
  now rewrite (Qceiling_comp _ _ Hinv).
Qed.

Lemma round_half_even_comp (x y : Q) : x == y -> round_half_even x = round_half_even y.
Proof.
  intros H. unfold round_half_even.
  rewrite (Qfloor_comp _ _ H).
  assert (Hc : (x - inject_Z (Qfloor y) ?= 1 # 2) = (y - inject_Z (Qfloor y) ?= 1 # 2))
    by now rewrite H.
  now rewrite Hc.
Qed.

Lemma ulp_exponent_comp (x y : Q) : x == y -> ulp_exponent x = ulp_exponent y.
Proof.
  intros H. unfold ulp_exponent. f_equal. f_equal.
  apply ilog2_comp. now rewrite H.
Qed.

(** [to_double] depends on the value of its argument only, and its result is
    in lowest terms. *)
Lemma to_double_comp (x y : Q) : x == y -> to_double x = to_double y.
Proof.
  intros H. unfold to_double.
  rewrite (Qeqb_comp _ _ H 0 0 (Qeq_refl 0)).
  destruct (Qeq_bool y 0); [reflexivity|]. cbv zeta.
  apply Qred_complete.
  rewrite (ulp_exponent_comp _ _ H).
  rewrite (round_half_even_comp (x / 2 ^ ulp_exponent y) (y / 2 ^ ulp_exponent y))
    by now rewrite H.
  reflexivity.
Qed.

Lemma to_double_value (x : Q) :
  ~ x == 0 ->
  to_double x == inject_Z (round_half_even (x / 2 ^ ulp_exponent x)) * 2 ^ ulp_exponent x.
Proof.
  intros H. unfold to_double.
  destruct (Qeq_bool x 0) eqn:Hzero.
  - apply Qeq_bool_eq in Hzero. contradiction.
  - cbv zeta. apply Qred_correct.
Qed.

Lemma to_double_0 (x : Q) : x == 0 -> to_double x = 0.
Proof. intros H. unfold to_double. now rewrite (Qeq_eq_bool _ _ H). Qed.

Lemma to_double_reduced (x : Q) : Qred (to_double x) = to_double x.
Proof.
  unfold to_double. destruct (Qeq_bool x 0); [reflexivity|].
  cbv zeta. apply Qred_complete, Qred_correct.
Qed.

Lemma to_double_eq (x y : Q) : to_double x == y -> to_double x = Qred y.
Proof. intros H. rewrite <- to_double_reduced. now apply Qred_complete. Qed.

Lemma Qred_inject_Z (n : Z) : Qred (inject_Z n) = inject_Z n.
Proof.
  unfold Qred, inject_Z.
  pose proof (Z.ggcd_gcd n 1) as Hgcd.
  pose proof (Z.ggcd_correct_divisors n 1) as Hdiv.
  destruct (Z.ggcd n 1) as [g [a b]]. cbn [fst snd] in *.
  rewrite Z.gcd_1_r in Hgcd. subst g. destruct Hdiv as [Ha Hb].
  rewrite !Z.mul_1_l in *. subst a b. reflexivity.
Qed.

(** The exponent of a positive number. *)
Lemma ulp_exponent_pos (y : Q) :
  0 < y -> ulp_exponent y = Z.max (-1074) (ilog2 y - 52).
Proof.
  intros H. unfold ulp_exponent. f_equal. f_equal.
  apply ilog2_comp, Qabs_pos. lra.
Qed.

Lemma scale_Z (K e : Z) :
  (e <= 0)%Z -> inject_Z K / 2 ^ e == inject_Z (K * 2 ^ (- e)).
Proof.
  intros He. rewrite inject_Z_mult, two_power_Z by lia.
  rewrite Qpower_opp. unfold Qdiv. reflexivity.
Qed.

Lemma unscale (x : Q) (e : Z) : x / 2 ^ e * 2 ^ e == x.
Proof. pose proof (two_power_pos e). field. lra. Qed.

(** Rounding is the identity on what a double can hold... *)
Lemma to_double_fixed (x : Q) (N : Z) :
  x / 2 ^ ulp_exponent x == inject_Z N -> to_double x == x.
Proof.
  intros HN.
  destruct (Qeq_dec x 0) as [Hzero|Hnonzero].
  - rewrite (to_double_0 _ Hzero). now symmetry.
  - rewrite to_double_value by assumption.
    rewrite (round_half_even_exact _ _ HN), <- HN. apply unscale.
Qed.

(** ... and never crosses one: rounding keeps a number on its side of every
    integer up to 2^53. *)
Lemma to_double_ge (y : Q) (K : Z) :
  (1 <= K <= 2 ^ 53)%Z -> inject_Z K <= y -> inject_Z K <= to_double y.
Proof.
  intros HK Hy.
  assert (Hone : inject_Z 1 <= inject_Z K) by (rewrite <- Zle_Qle; lia).
  change (inject_Z 1) with 1 in Hone.
  assert (Hpos : 0 < y) by lra.
  rewrite to_double_value by lra.
  pose proof (ulp_exponent_pos y Hpos) as He.
  set (e := ulp_exponent y) in *.
  pose proof (two_power_pos e) as Hpe.
  destruct (Z.le_gt_cases e 0) as [Hneg|Hbig].
  - assert (Hs : inject_Z (K * 2 ^ (- e)) <= y / 2 ^ e).
    { rewrite <- scale_Z by assumption.
      apply Qmult_le_compat_r; [assumption|]. apply Qinv_le_0_compat. lra. }
    apply round_half_even_ge in Hs. rewrite Zle_Qle in Hs.
    rewrite <- (unscale (inject_Z K) e), scale_Z by assumption.
    apply Qmult_le_compat_r; [assumption | lra].
  - assert (He' : e = (ilog2 y - 52)%Z) by lia.
    destruct (ilog2_spec y Hpos) as [Hlow _].
    replace (ilog2 y) with (e + 52)%Z in Hlow by lia.
    rewrite Qpower_plus in Hlow by discriminate.
    assert (Hs : inject_Z (2 ^ 52) <= y / 2 ^ e).
    { rewrite two_power_Z by lia.
      apply Qle_shift_div_l; [assumption|]. lra. }
    apply round_half_even_ge in Hs. rewrite Zle_Qle in Hs.
    rewrite two_power_Z in Hs by lia.
    assert (Htwo : 2 * 2 ^ 52 <= 2 ^ e * 2 ^ 52).
    { apply Qmult_le_compat_r; [|pose proof (two_power_pos 52); lra].
      change 2 with (2 ^ 1) at 1. apply Qpower_le_compat_l; [lia|discriminate]. }
    assert (HK53 : inject_Z K <= inject_Z (2 ^ 53)) by (rewrite <- Zle_Qle; lia).
    rewrite two_power_Z in HK53 by lia.
    change (2 ^ 53) with (2 * 2 ^ 52) in HK53.
    set (r := inject_Z (round_half_even (y / 2 ^ e))) in *.
    pose proof (two_power_pos 52).
    apply Qle_trans with (2 ^ 52 * 2 ^ e); [lra|].
    apply Qmult_le_compat_r; [assumption | lra].
Qed.

Lemma ulp_exponent_small (y : Q) (j : Z) :
  0 < y -> y < 2 ^ j -> (-1074 <= j - 53)%Z -> (ulp_exponent y <= j - 53)%Z.
Proof.
  intros Hpos Hlt Hj. rewrite ulp_exponent_pos by assumption.
  pose proof (ilog2_lt y j Hpos Hlt). lia.
Qed.

Lemma to_double_le (y : Q) (K : Z) :
  (K < 2 ^ 53)%Z -> 0 < y -> y <= inject_Z K -> to_double y <= inject_Z K.
Proof.
  intros HK Hpos Hy.
  rewrite to_double_value by lra.
  assert (He : (ulp_exponent y <= 0)%Z).
  { apply (ulp_exponent_small y 53); [assumption| |lia].
    apply Qle_lt_trans with (inject_Z K); [assumption|].
    rewrite <- two_power_Z by lia. now rewrite <- Zlt_Qlt. }
  set (e := ulp_exponent y) in *.
  pose proof (two_power_pos e) as Hpe.
  assert (Hs : y / 2 ^ e <= inject_Z (K * 2 ^ (- e))).
  { rewrite <- scale_Z by assumption.
    apply Qmult_le_compat_r; [assumption|]. apply Qinv_le_0_compat. lra. }
  apply round_half_even_le in Hs. rewrite Zle_Qle in Hs.
  rewrite <- (unscale (inject_Z K) e), scale_Z by assumption.
  apply Qmult_le_compat_r; [assumption | lra].
Qed.

(** Below 2^j a double is within 2^(j-54) of the number it rounds: a number
    that stays more than that under an integer is rounded to less than that
    integer. *)
Lemma to_double_below (y delta : Q) (K j : Z) :
  (0 <= j <= 53)%Z -> (K <= 2 ^ j)%Z -> 1 # 2 < delta * 2 ^ (53 - j) ->
  0 < y -> y + delta <= inject_Z K ->
  to_double y < inject_Z K.
Proof.
  intros Hj HK Hdelta Hpos Hy.
  assert (Hd : 0 < delta).
  { pose proof (two_power_pos (53 - j)).
    destruct (Qlt_le_dec 0 delta) as [|Hneg]; [assumption|exfalso]. nra. }
  rewrite to_double_value by lra.
  assert (He : (ulp_exponent y <= j - 53)%Z).
  { apply (ulp_exponent_small y j); [assumption| |lia].
    apply Qlt_le_trans with (inject_Z K); [lra|].
    rewrite <- two_power_Z by lia. now rewrite <- Zle_Qle. }
  set (e := ulp_exponent y) in *.
  pose proof (two_power_pos e) as Hpe.
  pose proof (two_power_pos (- e)) as Hpne.
  assert (Hgap : 2 ^ (53 - j) <= 2 ^ (- e))
    by (apply Qpower_le_compat_l; [lia|discriminate]).
  assert (Hscaled : y / 2 ^ e == y * 2 ^ (- e))
    by (rewrite Qpower_opp; reflexivity).
  assert (HKs : inject_Z (K * 2 ^ (- e)) == inject_Z K * 2 ^ (- e))
    by (rewrite inject_Z_mult, two_power_Z by lia; reflexivity).
  assert (Hs : y / 2 ^ e < inject_Z (K * 2 ^ (- e) - 1) + (1 # 2)).
  { unfold Z.sub. rewrite inject_Z_plus, HKs, Hscaled.
    change (inject_Z (- (1))) with (- (1)).
    assert (Hmul : (y + delta) * 2 ^ (- e) <= inject_Z K * 2 ^ (- e))
      by (apply Qmult_le_compat_r; [assumption | lra]).
    assert (Hdelta' : delta * 2 ^ (53 - j) <= delta * 2 ^ (- e))
      by (apply Qmult_le_l; assumption).
    lra. }
  apply round_half_even_lt_half in Hs. rewrite Zle_Qle in Hs.
  unfold Z.sub in Hs. rewrite inject_Z_plus, HKs in Hs.
  change (inject_Z (- (1))) with (- (1)) in Hs.
  set (r := inject_Z (round_half_even (y / 2 ^ e))) in *.
  apply Qle_lt_trans with ((inject_Z K * 2 ^ (- e) + - (1)) * 2 ^ e).
  - apply Qmult_le_compat_r; [assumption | lra].
  - rewrite Qpower_opp.
    assert (Heq : (inject_Z K * / 2 ^ e + - (1)) * 2 ^ e == inject_Z K - 2 ^ e)
      by (field; lra).
    rewrite Heq. lra.
Qed.

Lemma to_double_lt (y : Q) (K : Z) :
  (K <= 2 ^ 24)%Z -> 0 < y -> y + (1 # 1000000000) <= inject_Z K ->
  to_double y < inject_Z K.
Proof.
  intros HK Hpos Hy.
  apply (to_double_below y (1 # 1000000000) K 24);
    [lia | assumption | reflexivity | assumption | assumption].
Qed.

Lemma to_double_nonpos (y : Q) : y <= 0 -> to_double y <= 0.
Proof.
  intros Hy. destruct (Qeq_dec y 0) as [Hzero|Hnonzero].
  - rewrite (to_double_0 _ Hzero). lra.
  - rewrite to_double_value by assumption.
    set (e := ulp_exponent y). pose proof (two_power_pos e) as Hpe.
    assert (Hs : y / 2 ^ e <= inject_Z 0).
    { change (inject_Z 0) with 0. apply Qle_shift_div_r; [assumption|]. lra. }
    apply round_half_even_le in Hs. rewrite Zle_Qle in Hs.
    change (inject_Z 0) with 0 in Hs.
    apply Qle_trans with (0 * 2 ^ e); [|rewrite Qmult_0_l; lra].
    apply Qmult_le_compat_r; [assumption | lra].
Qed.

Lemma to_double_nonneg (y : Q) : 0 <= y -> 0 <= to_double y.
Proof.
  intros Hy. destruct (Qeq_dec y 0) as [Hzero|Hnonzero].
  - rewrite (to_double_0 _ Hzero). lra.
  - rewrite to_double_value by assumption.
    set (e := ulp_exponent y). pose proof (two_power_pos e) as Hpe.
    assert (Hs : inject_Z 0 <= y / 2 ^ e).
    { change (inject_Z 0) with 0. apply Qle_shift_div_l; [assumption|]. lra. }
    apply round_half_even_ge in Hs. rewrite Zle_Qle in Hs.
    change (inject_Z 0) with 0 in Hs.
    apply Qmult_le_0_compat; [assumption | lra].
Qed.

(** What a double holds exactly: an integer below 2^53 in magnitude, and
    such an integer over a power of two, is its own rounding. *)
Lemma to_double_exact (n j : Z) :
  (Z.abs n < 2 ^ 53)%Z -> (0 <= j <= 1021)%Z ->
  to_double (inject_Z n / 2 ^ j) == inject_Z n / 2 ^ j.
Proof.
  intros Hn Hj.
  set (x := inject_Z n / 2 ^ j).
  pose proof (two_power_pos j) as Hpj.
  destruct (Z.eq_dec n 0%Z) as [->|Hnonzero].
  { assert (Hzero : x == 0) by (subst x; unfold Qdiv; ring).
    rewrite (to_double_0 _ Hzero). now symmetry. }
  assert (Habs : Qabs x == inject_Z (Z.abs n) / 2 ^ j).
  { subst x. unfold Qdiv. rewrite Qabs_Qmult, Qabs_Qinv.
    rewrite (Qabs_pos (2 ^ j)) by lra.
    destruct n; reflexivity. }
  assert (Hpos : 0 < Qabs x).
  { rewrite Habs. apply Qlt_shift_div_l; [assumption|].
    rewrite Qmult_0_l. change 0 with (inject_Z 0). rewrite <- Zlt_Qlt. lia. }
  assert (He : (ulp_exponent x <= - j)%Z).
  { assert (Hsame : ulp_exponent x = ulp_exponent (Qabs x)).
    { unfold ulp_exponent. f_equal. f_equal. apply ilog2_comp.
      symmetry. apply Qabs_pos. apply Qabs_nonneg. }
    rewrite Hsame.
    replace (- j)%Z with (53 - j - 53)%Z by lia.
    apply ulp_exponent_small; [assumption| |lia].
    rewrite Habs. apply Qlt_shift_div_r; [assumption|].
    rewrite <- Qpower_plus by discriminate.
    replace (53 - j + j)%Z with 53%Z by lia.
    rewrite <- two_power_Z by lia. rewrite <- Zlt_Qlt. assumption. }
  apply (to_double_fixed x (n * 2 ^ (- ulp_exponent x - j))).
  set (e := ulp_exponent x) in *.
  rewrite inject_Z_mult, two_power_Z by lia.
  subst x. unfold Zminus. rewrite Qpower_plus, !Qpower_opp by discriminate.
  pose proof (two_power_pos e). field. split; lra.
Qed.

Lemma to_double_integer (n : Z) :
  (Z.abs n < 2 ^ 53)%Z -> to_double (inject_Z n) = inject_Z n.
Proof.
  intros Hn. rewrite <- (Qred_inject_Z n) at 2.
  apply to_double_eq.
  rewrite (to_double_comp _ (inject_Z n / 2 ^ 0)).
  - rewrite to_double_exact by lia. change (2 ^ 0) with 1. field.
  - change (2 ^ 0) with 1. field.
Qed.

Lemma Qmax_0_inject_Z (z : Z) : Qmax 0 (inject_Z z) = inject_Z (Z.max 0 z).
Proof. now destruct z. Qed.

Lemma Qmin_100_inject_Z (z : Z) : Qmin 100 (inject_Z z) = inject_Z (Z.min 100 z).
Proof.
  unfold Qmin, GenericMinMax.gmin, Qcompare. cbn [Qnum Qden inject_Z].
  rewrite !Z.mul_1_r.
  destruct (Z.compare_spec 100 z);
    [rewrite Z.min_l by lia | rewrite Z.min_l by lia | rewrite Z.min_r by lia];
    reflexivity.
Qed.

Lemma add_integers (a b : Z) :
  (Z.abs (a + b) < 2 ^ 53)%Z ->
  add (inject_Z a) (inject_Z b) = inject_Z (a + b).
Proof.
  intros H. unfold add.
  rewrite (to_double_comp _ (inject_Z (a + b))) by (now rewrite inject_Z_plus).
  now apply to_double_integer.
Qed.

Lemma sub_integers (a b : Z) :
  (Z.abs (a - b) < 2 ^ 53)%Z ->
  sub (inject_Z a) (inject_Z b) = inject_Z (a - b).
Proof.
  intros H. unfold sub.
  rewrite (to_double_comp _ (inject_Z (a - b)))
    by (unfold Z.sub; now rewrite inject_Z_plus, inject_Z_opp).
  now apply to_double_integer.
Qed.

Lemma floor_of_half (n : Z) :
  (Z.abs n < 2 ^ 53)%Z -> Qfloor (div (inject_Z n) 2) = (n / 2)%Z.
Proof.
  intros H. unfold div.
  pose proof (to_double_exact n 1 H ltac:(lia)) as Hexact.
  change (2 ^ 1) with 2 in Hexact.
  rewrite (Qfloor_comp _ _ Hexact).
  unfold Qfloor, Qdiv, Qmult, Qinv, inject_Z. cbn [Qnum Qden].
  now rewrite Z.mul_1_r.
Qed.

Lemma Qfloor_unique (x : Q) (k : Z) :
  inject_Z k <= x -> x < inject_Z (k + 1) -> Qfloor x = k.
Proof.
  intros Hlow Hup.
  pose proof (Qfloor_le x) as Hfloor. pose proof (Qlt_floor x) as Hnext.
  assert (H1 : inject_Z k < inject_Z (Qfloor x + 1)) by lra.
  assert (H2 : inject_Z (Qfloor x) < inject_Z (k + 1)) by lra.
  rewrite <- Zlt_Qlt in H1, H2. lia.
Qed.

(** The whole number of days in a difference of timestamps, as
    [Math.floor(ms / 86_400_000)] computes it in doubles, is the integer
    quotient. *)
Lemma day_count (ms : Z) :
  (0 <= ms < 2 ^ 53)%Z ->
  Qfloor (div (inject_Z ms) 86400000) = (ms / 86400000)%Z.
Proof.
  intros Hms. unfold div.
  pose proof (Z.mul_div_le ms 86400000 ltac:(lia)) as Hlow.
  pose proof (Z.mul_succ_div_gt ms 86400000 ltac:(lia)) as Hup.
  pose proof (Z.div_pos ms 86400000 ltac:(lia) ltac:(lia)) as Hk.
  assert (Hsmall : (ms / 86400000 < 2 ^ 27 - 1)%Z)
    by (apply Z.div_lt_upper_bound; lia).
  set (k := (ms / 86400000)%Z) in *.
  assert (Hklow : inject_Z k <= inject_Z ms / 86400000).
  { apply Qle_shift_div_l; [reflexivity|].
    change 86400000 with (inject_Z 86400000) at 1.
    rewrite <- inject_Z_mult, <- Zle_Qle. lia. }
  apply Qfloor_unique.
  - destruct (Z.eq_dec k 0%Z) as [Hzero|Hnonzero].
    + rewrite Hzero. apply to_double_nonneg. rewrite Hzero in Hklow. exact Hklow.
    + apply to_double_ge; [lia | exact Hklow].
  - destruct (Z.eq_dec ms 0%Z) as [->|Hnonzero].
    + vm_compute. reflexivity.
    + apply (to_double_below _ (1 # 86400000) _ 27);
        [lia | lia | reflexivity | |].
      * apply Qlt_shift_div_l; [reflexivity|]. rewrite Qmult_0_l.
        change 0 with (inject_Z 0). rewrite <- Zlt_Qlt. lia.
      * assert (Hnext : inject_Z (ms + 1) <= inject_Z ((k + 1) * 86400000))
          by (rewrite <- Zle_Qle; lia).
        rewrite inject_Z_plus, inject_Z_mult in Hnext.
        change (inject_Z 1) with 1 in Hnext.
        change (inject_Z 86400000) with 86400000 in Hnext.
        assert (Hsum : inject_Z ms / 86400000 + (1 # 86400000)
                       == (inject_Z ms + 1) / 86400000) by field.
        rewrite Hsum.
        apply Qle_shift_div_r; [reflexivity | exact Hnext].
Qed.

End Doubles.

(** ** Feeding and playing: the ledger and the local cache *)

Section FeedAndPlay.

(** The ledger's [feed_cat] and [play_with_cat] never read [is_alive]: a dead
    cat is fed and played with like a living one. *)
Lemma dead_cat_is_still_fed :
  let dead := catnft.mkCat 1 80 10 0 false 0 3 in
  catnft.is_alive dead = false /\
  catnft.feed_cat dead 20 1000 = Ok (catnft.mkCat 1 60 10 0 false 1000 0) /\
  catnft.play_with_cat dead 5 = Ok (catnft.mkCat 1 80 15 0 false 0 3) /\
  ~ (forall (cat : catnft.CatNFT) (food_value clock : Z),
       catnft.is_alive cat = false ->
       catnft.feed_cat cat food_value clock = Ok cat).
Proof.
  cbv zeta. split; [reflexivity|]. split; [reflexivity|]. split; [reflexivity|].
  intros Hfrozen.
  specialize (Hfrozen (catnft.mkCat 1 80 10 0 false 0 3) 20 1000 eq_refl).
  discriminate Hfrozen.
Qed.

(** C6, as the code has it.  On a dead pet the local cache's [feedCat] is a
    silent no-op: the stored state and the stats it returns are the ones it
    found.  The ledger's [feed_cat] and [play_with_cat] do not look at
    [is_alive]: on a dead cat [feed_cat] still sets hunger, [last_fed_time]
    and [days_without_feeding], and [play_with_cat] still raises happiness;
    neither touches [is_alive] or health, and neither aborts (but for a
    happiness sum beyond u8). *)
Theorem feed_and_play_on_a_dead_pet :
  (forall (foodValue : Q) (now loaded_at : Z) (state : gameState.State)
          (stats : gameState.CatStats),
     gameState.catStats state = Some stats ->
     gameState.isAlive stats = false ->
     gameState.feedCat foodValue now loaded_at state = (state, stats)) /\
  (forall (cat : catnft.CatNFT) (food_value clock : Z),
     catnft.is_alive cat = false ->
     catnft.feed_cat cat food_value clock =
     Ok (catnft.mkCat (catnft.cat_type cat)
                      (Z.max 0 (catnft.hunger cat - food_value))
                      (catnft.happiness cat) (catnft.health cat) false clock 0)) /\
  (forall (cat : catnft.CatNFT) (happiness_boost : Z),
     catnft.is_alive cat = false ->
     catnft.happiness cat + happiness_boost <= u8_max ->
     catnft.play_with_cat cat happiness_boost =
     Ok (catnft.mkCat (catnft.cat_type cat) (catnft.hunger cat)
                      (Z.min 100 (catnft.happiness cat + happiness_boost))
                      (catnft.health cat) false (catnft.last_fed_time cat)
                      (catnft.days_without_feeding cat))).
Proof.
  split; [|split].
  - intros foodValue now loaded_at state stats Hstats Hdead.
    unfold gameState.feedCat. rewrite Hstats, Hdead. reflexivity.
  - intros cat food_value clock Hdead.
    rewrite feed_cat_result, Hdead. reflexivity.
  - intros cat happiness_boost Hdead Hfit.
    rewrite play_with_cat_result by assumption.
    unfold catnft.set_happiness. rewrite Hdead. reflexivity.
Qed.

Lemma feed_and_play_on_a_dead_pet_witness :
  let stats := gameState.mkStats 80 10 false 0 3 in
  let state := gameState.mkState 0 0 (Some stats) in
  let dead := catnft.mkCat 1 80 10 0 false 0 3 in
  gameState.feedCat 20 1000 0 state = (state, stats) /\
  catnft.feed_cat dead 20 1000 = Ok (catnft.mkCat 1 60 10 0 false 1000 0) /\
  catnft.play_with_cat dead 5 = Ok (catnft.mkCat 1 80 15 0 false 0 3).
Proof.
  intros stats state dead.
  destruct feed_and_play_on_a_dead_pet as (Hcache & Hfeed & Hplay).
  split; [|split].
  - apply (Hcache 20%Q 1000 0 state stats); reflexivity.
  - apply (Hfeed dead 20 1000). reflexivity.
  - apply (Hplay dead 5); [reflexivity | vm_compute; discriminate].
Defined.

(** The local cache's [playWithCat] has no [isAlive] test either. *)
Example local_play_on_a_dead_pet :
  snd (gameState.playWithCat 15 0
         (gameState.mkState 0 0 (Some (gameState.mkStats 80 10 false 0 3)))) =
  gameState.mkStats 80 25 false 0 3.
Proof. reflexivity. Qed.

(** The ledger's [feed_cat] leaves happiness as it was: fed 20 at hunger 50
    and happiness 50, the cat ends at hunger 30 and happiness 50. *)
Lemma ledger_feed_keeps_happiness :
  let cat := catnft.mkCat 1 50 50 100 true 0 0 in
  catnft.feed_cat cat 20 1000 = Ok (catnft.mkCat 1 30 50 100 true 1000 0) /\
  ~ (forall (cat cat' : catnft.CatNFT) (food_value clock : Z),
       catnft.is_alive cat = true ->
       catnft.feed_cat cat food_value clock = Ok cat' ->
       catnft.happiness cat' = Z.min 100 (catnft.happiness cat + food_value / 2)).
Proof.
  cbv zeta. split; [reflexivity|].
  intros Hhappy.
  specialize (Hhappy (catnft.mkCat 1 50 50 100 true 0 0) _ 20 1000 eq_refl eq_refl).
  discriminate Hhappy.
Qed.

(** C7, as the code has it.  On a living pet the local cache's
    [feedCat(foodValue)] sets hunger to max(0, hunger - foodValue), happiness
    to min(100, happiness + floor(foodValue / 2)), lastFedTime to now and
    daysWithoutFeeding to 0, and stores the result, the difference, the
    quotient and the sum being those of doubles.  On integer stats and an
    integer food value they are the exact ones: fed 20 at hunger 50 and
    happiness 50 the pet ends at hunger 30 and happiness 60.  On the stats
    the decay leaves they are rounded: fed 10 at the happiness 63.9 the pet
    ends at the double 68.9, which is not the happiness it had plus 5.  The
    ledger's [feed_cat] sets hunger to max(0, hunger - food_value),
    [last_fed_time] to the clock and [days_without_feeding] to 0, and leaves
    happiness unchanged. *)
Theorem feed_a_living_pet :
  (forall (foodValue : Q) (now loaded_at : Z) (state : gameState.State)
          (stats : gameState.CatStats),
     gameState.catStats state = Some stats ->
     gameState.isAlive stats = true ->
     gameState.feedCat foodValue now loaded_at state =
     (let fed := gameState.mkStats
                   (Qmax 0 (Double.sub (gameState.hunger stats) foodValue))
                   (Qmin 100 (Double.add (gameState.happiness stats)
                                (inject_Z (Qfloor (Double.div foodValue 2)))))
                   true now 0 in
      (gameState.set_catStats fed state, fed))) /\
  (forall (hunger happiness foodValue : Z) (now loaded_at : Z) (coins : Q)
          (completedSessions lastFed days : Z),
     Z.abs hunger <= 2 ^ 51 -> Z.abs happiness <= 2 ^ 51 ->
     Z.abs foodValue <= 2 ^ 51 ->
     snd (gameState.feedCat (inject_Z foodValue) now loaded_at
            (gameState.mkState coins completedSessions
               (Some (gameState.mkStats (inject_Z hunger) (inject_Z happiness)
                                        true lastFed days)))) =
     gameState.mkStats (inject_Z (Z.max 0 (hunger - foodValue)))
                       (inject_Z (Z.min 100 (happiness + foodValue / 2)))
                       true now 0) /\
  (forall (now loaded_at : Z) (coins : Q) (completedSessions lastFed days : Z),
     snd (gameState.feedCat 20 now loaded_at
            (gameState.mkState coins completedSessions
               (Some (gameState.mkStats 50 50 true lastFed days)))) =
     gameState.mkStats 30 60 true now 0) /\
  (forall (now loaded_at : Z) (coins : Q) (completedSessions lastFed days : Z),
     let happiness := Double.to_double (639 # 10) in
     let fed := snd (gameState.feedCat 10 now loaded_at
                       (gameState.mkState coins completedSessions
                          (Some (gameState.mkStats 50 happiness true lastFed days)))) in
     gameState.happiness fed = Double.to_double (689 # 10) /\
     ~ (gameState.happiness fed == happiness + 5)%Q) /\
  (forall (cat : catnft.CatNFT) (food_value clock : Z),
     catnft.is_alive cat = true ->
     catnft.feed_cat cat food_value clock =
     Ok (catnft.mkCat (catnft.cat_type cat)
                      (Z.max 0 (catnft.hunger cat - food_value))
                      (catnft.happiness cat) (catnft.health cat) true clock 0)).
Proof.
  split; [|split; [|split; [|split]]].
  - intros foodValue now loaded_at state stats Hstats Halive.
    unfold gameState.feedCat, gameState.Math_floor.
    rewrite Hstats, Halive. reflexivity.
  - intros hunger happiness foodValue now loaded_at coins completedSessions
      lastFed days Hhunger Hhappiness Hfood.
    assert (Hhalf : Z.abs (foodValue / 2) <= 2 ^ 51).
    { pose proof (Z.div_le_upper_bound foodValue 2 (2 ^ 51)).
      pose proof (Z.div_le_lower_bound foodValue 2 (- 2 ^ 51)). lia. }
    unfold gameState.feedCat, gameState.Math_floor.
    cbn [gameState.catStats gameState.isAlive gameState.hunger gameState.happiness
         gameState.lastFedTime gameState.daysWithoutFeeding negb snd].
    rewrite sub_integers by lia.
    rewrite floor_of_half by lia.
    rewrite add_integers by lia.
    now rewrite Qmax_0_inject_Z, Qmin_100_inject_Z.
  - intros. vm_compute. reflexivity.
  - intros. split.
    + vm_compute. reflexivity.
    + vm_compute. discriminate.
  - intros cat food_value clock Halive.
    rewrite feed_cat_result, Halive. reflexivity.
Qed.

Lemma feed_a_living_pet_witness :
  let stats := gameState.mkStats 50 50 true 0 0 in
  let state := gameState.mkState 0 0 (Some stats) in
  let cat := catnft.mkCat 1 50 50 100 true 0 0 in
  gameState.feedCat 20 1000 0 state =
    (gameState.mkState 0 0 (Some (gameState.mkStats 30 60 true 1000 0)),
     gameState.mkStats 30 60 true 1000 0) /\
  snd (gameState.feedCat (inject_Z 7) 1000 0
         (gameState.mkState 0 0
            (Some (gameState.mkStats (inject_Z 5) (inject_Z 99) true 0 0)))) =
    gameState.mkStats 0 100 true 1000 0 /\
  catnft.feed_cat cat 20 1000 = Ok (catnft.mkCat 1 30 50 100 true 1000 0).
Proof.
  intros stats state cat.
  destruct feed_a_living_pet as (Hcache & Hintegers & _ & _ & Hfeed).
  split; [|split].
  - rewrite (Hcache 20%Q 1000 0 state stats) by reflexivity.
    vm_compute. reflexivity.
  - apply (Hintegers 5 99 7 1000 0 0%Q 0 0 0); vm_compute; discriminate.
  - apply (Hfeed cat 20 1000). reflexivity.
Defined.

End FeedAndPlay.

(** ** The claim orchestrator and its retries *)

Section Retry.
Import edgeCaseHandler useGameTransactions.

#[local] Arguments shouldRetryTransaction : simpl never.

Lemma submissions_app (a b : list Event) :
  submissions (a ++ b) = (submissions a + submissions b)%nat.
Proof. unfold submissions. now rewrite List.filter_app, length_app. Qed.

Ltac count_submissions :=
  unfold submissions in *; cbn in *;
  rewrite ?List.filter_app, ?length_app in *; cbn in *;
  rewrite ?List.filter_app, ?length_app in *; cbn in *.

(** The loop calls the transaction function at most once per iteration. *)
Lemma retry_loop_submissions (transactionFn : nat -> list Event * Settled)
    (maxRetries : nat) (retryDelay : Z) (todo attempt : nat) (lastError : Thrown) :
  (forall k, (submissions (fst (transactionFn k)) <= 1)%nat) ->
  (submissions (fst (retry_loop transactionFn maxRetries retryDelay todo attempt
                                lastError)) <= todo)%nat.
Proof.
  intros Hone. revert attempt lastError.
  induction todo as [|todo IH]; intros attempt lastError; cbn [retry_loop].
  - cbn. lia.
  - specialize (Hone attempt).
    destruct (transactionFn attempt) as [done [digest|error]]; cbn [fst] in *.
    + lia.
    + destruct (shouldRetryTransaction error); cbn [negb fst]; [|lia].
      specialize (IH (S attempt) error).
      destruct (retry_loop transactionFn maxRetries retryDelay todo (S attempt) error)
        as [rest final].
      destruct (attempt <? maxRetries)%nat; count_submissions; lia.
Qed.

(** Which thrown values are not retried. *)
Lemma shouldRetryTransaction_false (error : Thrown) :
  shouldRetryTransaction error = false <->
  match error with
  | None => True
  | Some e =>
      canRetry e = Some false \/
      errorType e = Some "rejected"%string \/
      errorType e = Some "insufficient_funds"%string \/
      errorType e = Some "insufficient_gas"%string
  end.
Proof.
  destruct error as [[retry type]|]; [|now split].
  unfold shouldRetryTransaction, canRetry_is_false, errorType_is.
  cbn [canRetry errorType].
  destruct retry as [[|]|]; try (split; [intros _; now left | reflexivity]).
  all: destruct type as [type|];
    [|split; [discriminate | intros [?|[?|[?|?]]]; discriminate]].
  all: destruct (String.eqb_spec type "rejected") as [->|Hrejected];
    [split; [intros _; right; now left | reflexivity]|].
  all: destruct (String.eqb_spec type "insufficient_funds") as [->|Hfunds];
    [split; [intros _; right; right; now left | reflexivity]|].
  all: destruct (String.eqb_spec type "insufficient_gas") as [->|Hgas];
    [split; [intros _; right; right; now right | reflexivity]|].
  all: cbn [orb negb];
    destruct ((type =? "network_error")%string || (type =? "timeout")%string
              || (type =? "gas_error")%string);
    (split; [discriminate | intros [?|[?|[?|?]]]; congruence]).
Qed.

Lemma executeTransaction_submits_once (a : Attempt) :
  submissions (fst (executeTransaction a)) = 1%nat.
Proof. destruct a; reflexivity. Qed.

(** An error thrown by the confirmation wait that carries neither [canRetry]
    nor [errorType] is retried: the transaction is submitted a second time. *)
Lemma wait_failure_is_resubmitted :
  let waitError := Some (mkError None None) in
  let world := fun k : nat => match k with
                              | O => WaitFailed 7 waitError
                              | _ => Confirmed 8
                              end in
  completeSession world =
    ([Submit; WaitForTransaction 7; OnRetry 1 2; Sleep 2000;
      Submit; WaitForTransaction 8; Reconcile 8], Resolved 8) /\
  submissions (fst (completeSession world)) = 2%nat.
Proof. split; reflexivity. Qed.

(** C4, as the code has it.  A claim submits the transaction at least once
    and at most three times.  When the confirmation wait of attempt [k]
    fails, the attempt is rejected with the error the wait threw; if
    [shouldRetryTransaction] refuses that error, or two retries have been
    made, the error is rethrown and nothing more is submitted; otherwise the
    transaction is submitted again. *)
Theorem wait_failure_retry_policy (world : nat -> Attempt) (k : nat)
    (digest : Z) (waitError : Thrown) :
  (k <= 2)%nat ->
  (forall j, (j < k)%nat ->
     exists e, snd (executeTransaction (world j)) = Rejected e /\
               shouldRetryTransaction e = true) ->
  world k = WaitFailed digest waitError ->
  let trace := fst (completeSession world) in
  (1 <= submissions trace <= 3)%nat /\
  (shouldRetryTransaction waitError = false \/ k = 2%nat ->
   submissions trace = S k /\ snd (completeSession world) = Rejected waitError) /\
  (shouldRetryTransaction waitError = true -> (k < 2)%nat ->
   (S (S k) <= submissions trace)%nat).
Proof.
  intros Hk Hbefore Hwait trace.
  assert (Hfirst : forall j, (j < k)%nat ->
            exists done e, executeTransaction (world j) = (done, Rejected e) /\
                           shouldRetryTransaction e = true /\
                           submissions done = 1%nat).
  { intros j Hj. destruct (Hbefore j Hj) as (e & Hrej & Hretry).
    pose proof (executeTransaction_submits_once (world j)) as Hsub.
    destruct (executeTransaction (world j)) as [done settled]; cbn in *.
    subst settled. eauto. }
  subst trace. unfold completeSession, executeWithRetry.
  destruct k as [|[|[|k]]]; [| | |lia].
  - cbn. rewrite Hwait. cbn.
    destruct (shouldRetryTransaction waitError) eqn:Hretry; cbn.
    + pose proof (executeTransaction_submits_once (world 1%nat)) as H1.
      destruct (executeTransaction (world 1%nat)) as [d1 [v1|e1]];
        [|destruct (shouldRetryTransaction e1);
          [pose proof (executeTransaction_submits_once (world 2%nat)) as H2;
           destruct (executeTransaction (world 2%nat)) as [d2 [v2|e2]];
           [|destruct (shouldRetryTransaction e2)]|]];
        count_submissions;
        (split; [lia|]); (split; [intros [?|?]; discriminate || lia | lia]).
    + (split; [lia|]). split; [intros _; split; reflexivity | discriminate].
  - destruct (Hfirst 0%nat) as (d0 & e0 & H0 & Hr0 & Hs0); [lia|].
    cbn. rewrite H0, Hr0, Hwait. cbn.
    destruct (shouldRetryTransaction waitError) eqn:Hretry; cbn.
    + pose proof (executeTransaction_submits_once (world 2%nat)) as H2.
      destruct (executeTransaction (world 2%nat)) as [d2 [v2|e2]];
        [|destruct (shouldRetryTransaction e2)];
        count_submissions;
        (split; [lia|]); (split; [intros [?|?]; discriminate || lia | lia]).
    + count_submissions.
      (split; [lia|]). split; [intros _; split; [lia|reflexivity] | discriminate].
  - destruct (Hfirst 0%nat) as (d0 & e0 & H0 & Hr0 & Hs0); [lia|].
    destruct (Hfirst 1%nat) as (d1 & e1 & H1 & Hr1 & Hs1); [lia|].
    cbn. rewrite H0, Hr0. cbn. rewrite H1, Hr1, Hwait. cbn.
    destruct (shouldRetryTransaction waitError) eqn:Hretry;
      count_submissions;
      (split; [lia|]); (split; [intros _; split; [lia|reflexivity] | lia || discriminate]).
Qed.

Lemma wait_failure_retry_policy_witness :
  let waitError := Some (mkError None (Some "timeout"%string)) in
  let world := fun k : nat => match k with
                              | 1%nat => WaitFailed 7 waitError
                              | _ => SignFailed (Some (mkError None
                                                  (Some "network_error"%string)))
                              end in
  (1 <= submissions (fst (completeSession world)) <= 3)%nat /\
  (shouldRetryTransaction waitError = false \/ 1%nat = 2%nat ->
   submissions (fst (completeSession world)) = 2%nat /\
   snd (completeSession world) = Rejected waitError) /\
  (shouldRetryTransaction waitError = true -> (1 < 2)%nat ->
   (3 <= submissions (fst (completeSession world)))%nat).
Proof.
  intros waitError world.
  apply (wait_failure_retry_policy world 1 7 waitError).
  - lia.
  - intros j Hj. assert (j = 0%nat) as -> by lia.
    eexists. split; reflexivity.
  - reflexivity.
Defined.

End Retry.

(** ** The treasury and the daily earning records *)

Section Rewards.
Import pomodoro_game ledger.

Lemma set_daily_earnings_same (g : GameState) :
  set_daily_earnings (daily_earnings g) g = g.
Proof. now destruct g. Qed.

(** What [get_or_create_daily_earning] hands to [complete_session]: the
    stored record when it is of the current day, a fresh one otherwise. *)
Lemma get_or_create_daily_earning_result (g : GameState) (user : address) (day : Z) :
  let e := match daily_earnings g !! user with
           | Some e => if date e =? day then e else mkEarning day 0 0
           | None => mkEarning day 0 0
           end in
  get_or_create_daily_earning g user day =
  Ok (set_daily_earnings (<[user := e]> (daily_earnings g)) g, e).
Proof.
  unfold get_or_create_daily_earning, table_contains, table_add, table_borrow.
  unfold_result.
  destruct (daily_earnings g !! user) as [e|] eqn:Hlookup; cbn.
  - rewrite Hlookup.
    destruct (date e =? day) eqn:Hday; cbn; [|reflexivity].
    rewrite insert_id by assumption. now rewrite set_daily_earnings_same.
  - rewrite lookup_insert_eq. cbn. rewrite Z.eqb_refl. reflexivity.
Qed.

Lemma get_or_create_date (g g' : GameState) (user : address) (day : Z)
    (e : DailyEarning) :
  get_or_create_daily_earning g user day = Ok (g', e) -> date e = day.
Proof.
  rewrite get_or_create_daily_earning_result. intros [= _ <-].
  destruct (daily_earnings g !! user) as [e0|]; [|reflexivity].
  destruct (date e0 =? day) eqn:Hday; [|reflexivity]. now apply Z.eqb_eq.
Qed.

(** The effect of an accepted claim, in terms of the record
    [get_or_create_daily_earning] hands over. *)
Lemma complete_session_accepted (t t' : Treasury) (g g' g0 : GameState)
    (clock : Z) (user : address) (sent : list Transfer) (e : DailyEarning) :
  get_or_create_daily_earning g user (clock / 86400000) = Ok (g0, e) ->
  complete_session t g clock user = Ok (t', g', sent) ->
  let payout := Z.min (session_reward g + 0) (daily_cap - amount e) in
  amount e < daily_cap /\ sessions e < daily_session_limit /\
  payout <= oct_balance t /\
  sent = [mkTransfer (CoinOCT payout) user] /\
  t' = mkTreasury (oct_balance t - payout) (treasury_admin_address t)
                  (total_rewards_paid t + payout) (total_users_rewarded t + 1) /\
  g' = set_daily_earnings
         (<[user := mkEarning (date e) (amount e + payout) (sessions e + 1)]>
            (daily_earnings g)) g.
Proof.
  intros Hget. unfold complete_session, div_u64. unfold_result.
  change (24 * 60 * 60 * 1000) with 86400000.
  change (86400000 =? 0) with false. cbv iota.
  rewrite Hget.
  rewrite get_or_create_daily_earning_result in Hget. injection Hget as <- _.
  unfold add_u64, sub_u64, assert, balance_split.
  intros H.
  repeat (case_if; cbn in *; try discriminate).
  all: injection H as <- <- <-; z_bools; unfold set_daily_earnings; cbn.
  all: rewrite insert_insert_eq.
  all: repeat split; try lia; repeat f_equal; lia.
Qed.

(** When a claim goes through. *)
Lemma complete_session_succeeds (t : Treasury) (g g0 : GameState)
    (clock : Z) (user : address) (e : DailyEarning) :
  get_or_create_daily_earning g user (clock / 86400000) = Ok (g0, e) ->
  amount e < daily_cap -> sessions e < daily_session_limit ->
  session_reward g <= u64_max ->
  let payout := Z.min (session_reward g + 0) (daily_cap - amount e) in
  payout <= oct_balance t ->
  total_rewards_paid t + payout <= u64_max ->
  total_users_rewarded t + 1 <= u64_max ->
  exists t' g', complete_session t g clock user =
                Ok (t', g', [mkTransfer (CoinOCT payout) user]).
Proof.
  intros Hget Hamount Hsessions Hreward payout Hfunded Hpaid Hcount.
  subst payout.
  unfold complete_session, div_u64. unfold_result.
  change (24 * 60 * 60 * 1000) with 86400000.
  change (86400000 =? 0) with false. cbv iota.
  rewrite Hget.
  unfold add_u64, sub_u64, assert, balance_split,
    daily_cap, daily_session_limit, u64_max in *.
  repeat (case_if; cbn in *; z_bools; try lia).
  all: (rewrite Z.min_l by lia) || (rewrite Z.min_r by lia).
  all: do 2 eexists; reflexivity.
Qed.

(** A claim the treasury cannot pay is refused with [ETreasuryInsufficient]. *)
Lemma complete_session_underfunded (t : Treasury) (g g0 : GameState)
    (clock : Z) (user : address) (e : DailyEarning) :
  get_or_create_daily_earning g user (clock / 86400000) = Ok (g0, e) ->
  amount e < daily_cap -> sessions e < daily_session_limit ->
  session_reward g <= u64_max ->
  oct_balance t < Z.min (session_reward g + 0) (daily_cap - amount e) ->
  complete_session t g clock user = Err (AbortCode ETreasuryInsufficient).
Proof.
  intros Hget Hamount Hsessions Hreward Hpoor.
  unfold complete_session, div_u64. unfold_result.
  change (24 * 60 * 60 * 1000) with 86400000.
  change (86400000 =? 0) with false. cbv iota.
  rewrite Hget.
  unfold add_u64, sub_u64, assert, balance_split,
    daily_cap, daily_session_limit, u64_max in *.
  repeat (case_if; cbn in *; z_bools; try lia); reflexivity.
Qed.

(** C3.  An accepted [complete_session] pays
    min(session_reward + bonus, daily_cap - amount) with bonus = 0, where
    [amount] and [sessions] are those of the record stored for the user when
    that record is of the day of the claim, and 0 otherwise.  The claim is
    accepted only below the cap and the session limit.  The amount paid
    leaves the treasury balance and is added to [total_rewards_paid] and to
    the user's stored [amount], while [total_users_rewarded] and the user's
    stored [sessions] grow by one.  Nothing else changes. *)
Theorem accepted_claim_effect (t t' : Treasury) (g g' : GameState)
    (clock : Z) (user : address) (sent : list Transfer) :
  complete_session t g clock user = Ok (t', g', sent) ->
  let day := clock / 86400000 in
  let today := match daily_earnings g !! user with
               | Some stored => if date stored =? day then Some stored else None
               | None => None
               end in
  let amount_today := match today with Some stored => amount stored | None => 0 end in
  let sessions_today := match today with Some stored => sessions stored | None => 0 end in
  let bonus := 0 in
  let payout := Z.min (session_reward g + bonus) (daily_cap - amount_today) in
  amount_today < daily_cap /\
  sessions_today < daily_session_limit /\
  sent = [mkTransfer (CoinOCT payout) user] /\
  oct_balance t' = oct_balance t - payout /\
  total_rewards_paid t' = total_rewards_paid t + payout /\
  total_users_rewarded t' = total_users_rewarded t + 1 /\
  treasury_admin_address t' = treasury_admin_address t /\
  daily_earnings g' !! user =
    Some (mkEarning day (amount_today + payout) (sessions_today + 1)) /\
  (forall other : address, other <> user ->
     daily_earnings g' !! other = daily_earnings g !! other) /\
  set_daily_earnings (daily_earnings g) g' = g.
Proof.
  intros Hok day today amount_today sessions_today bonus payout.
  pose proof (get_or_create_daily_earning_result g user day) as Hget.
  cbv zeta in Hget.
  set (e := match daily_earnings g !! user with
            | Some e => if date e =? day then e else mkEarning day 0 0
            | None => mkEarning day 0 0
            end) in Hget.
  assert (Hrecord : date e = day /\ amount e = amount_today /\
                    sessions e = sessions_today).
  { subst e amount_today sessions_today today.
    destruct (daily_earnings g !! user) as [stored|]; [|now repeat split].
    destruct (date stored =? day) eqn:Hday; [|now repeat split].
    apply Z.eqb_eq in Hday. now repeat split. }
  destruct Hrecord as (Hdate & Hamount & Hsessions).
  destruct (complete_session_accepted _ _ _ _ _ _ _ _ _ Hget Hok)
    as (Hcap & Hlimit & _ & -> & -> & ->).
  rewrite Hdate, Hamount, Hsessions in *.
  cbn [oct_balance total_rewards_paid total_users_rewarded treasury_admin_address
       daily_earnings set_daily_earnings].
  repeat split; try assumption.
  - apply lookup_insert_eq.
  - intros other Hother. now apply lookup_insert_ne.
  - now destruct g.
Qed.

Lemma accepted_claim_effect_witness :
  let t := mkTreasury 5000000000 1 0 0 in
  let g := mkGameState ∅ ∅ ∅ 1000000000 {[ 7 := mkEarning 0 99500000000 3 ]} 0 1 in
  let t' := mkTreasury 4500000000 1 500000000 1 in
  let g' := mkGameState ∅ ∅ ∅ 1000000000 {[ 7 := mkEarning 0 100000000000 4 ]} 0 1 in
  complete_session t g 1000 7 =
    Ok (t', g', [mkTransfer (CoinOCT 500000000) 7]) /\
  daily_earnings g' !! 7 = Some (mkEarning 0 (99500000000 + 500000000) (3 + 1)).
Proof.
  intros t g t' g'.
  assert (Hok : complete_session t g 1000 7 =
                Ok (t', g', [mkTransfer (CoinOCT 500000000) 7]))
    by (vm_compute; reflexivity).
  split; [exact Hok|].
  destruct (accepted_claim_effect t t' g g' 1000 7 _ Hok)
    as (_ & _ & _ & _ & _ & _ & _ & Hrecord & _).
  exact Hrecord.
Defined.

(** C8.  When the stored record of a user is of another day than the
    claim, [get_or_create_daily_earning] first resets it to the current day
    with amount 0 and sessions 0, and the claim is applied to the reset
    record: a funded treasury pays the full [session_reward] (which is at
    most the daily cap), whatever the user earned on the earlier day, and the
    record then holds that amount and one session. *)
Theorem day_rollover_resets (t : Treasury) (g : GameState) (clock : Z)
    (user : address) (e : DailyEarning) :
  daily_earnings g !! user = Some e ->
  date e <> clock / 86400000 ->
  session_reward g <= daily_cap ->
  session_reward g <= oct_balance t ->
  total_rewards_paid t + session_reward g <= u64_max ->
  total_users_rewarded t + 1 <= u64_max ->
  let day := clock / 86400000 in
  get_or_create_daily_earning g user day =
    Ok (set_daily_earnings (<[user := mkEarning day 0 0]> (daily_earnings g)) g,
        mkEarning day 0 0) /\
  complete_session t g clock user =
    Ok (mkTreasury (oct_balance t - session_reward g) (treasury_admin_address t)
                   (total_rewards_paid t + session_reward g)
                   (total_users_rewarded t + 1),
        set_daily_earnings
          (<[user := mkEarning day (session_reward g) 1]> (daily_earnings g)) g,
        [mkTransfer (CoinOCT (session_reward g)) user]).
Proof.
  intros Hstored Hday Hcap Hfunded Hpaid Hcount day.
  assert (Hget : get_or_create_daily_earning g user day =
                 Ok (set_daily_earnings (<[user := mkEarning day 0 0]> (daily_earnings g)) g,
                     mkEarning day 0 0)).
  { rewrite get_or_create_daily_earning_result, Hstored.
    apply Z.eqb_neq in Hday. subst day. now rewrite Hday. }
  split; [exact Hget|].
  assert (Hpay : Z.min (session_reward g + 0) (daily_cap - 0) = session_reward g)
    by lia.
  destruct (complete_session_succeeds t g _ clock user _ Hget) as (t' & g' & Hok);
    cbn [amount sessions]; rewrite ?Hpay;
    try (unfold daily_cap, daily_session_limit, u64_max in *; lia).
  destruct (complete_session_accepted _ _ _ _ _ _ _ _ _ Hget Hok)
    as (_ & _ & _ & _ & -> & ->).
  rewrite Hok. cbn [amount sessions date]. rewrite Hpay. reflexivity.
Qed.

Lemma day_rollover_resets_witness :
  let t := mkTreasury 5000000000 1 100000000000 100 in
  let exhausted := mkEarning 0 100000000000 100 in
  let g := mkGameState ∅ ∅ ∅ 1000000000 {[ 7 := exhausted ]} 0 1 in
  complete_session t g 1000 7 = Err (AbortCode 1) /\
  complete_session t g (86400000 + 1000) 7 =
    Ok (mkTreasury 4000000000 1 101000000000 101,
        mkGameState ∅ ∅ ∅ 1000000000 {[ 7 := mkEarning 1 1000000000 1 ]} 0 1,
        [mkTransfer (CoinOCT 1000000000) 7]).
Proof.
  intros t exhausted g. split; [vm_compute; reflexivity|].
  destruct (day_rollover_resets t g (86400000 + 1000) 7 exhausted) as [_ Hok];
    [vm_compute; reflexivity | vm_compute; congruence | vm_compute; congruence
    | vm_compute; congruence | vm_compute; congruence | vm_compute; congruence |].
  rewrite Hok. vm_compute. reflexivity.
Defined.

(** *** Transactions *)

(** What a successful transaction did, by the function called. *)
Lemma execute_ok (l l' : Ledger) (tx : Tx) (sent : list Transfer) :
  execute l tx = Ok (l', sent) ->
  match call tx with
  | CompleteSession =>
      exists (g0 : GameState) (e : DailyEarning),
        get_or_create_daily_earning (game_state l) (sender tx)
                                    (clock tx / 86400000) = Ok (g0, e) /\
        let payout := Z.min (session_reward (game_state l) + 0)
                            (daily_cap - amount e) in
        amount e < daily_cap /\ sessions e < daily_session_limit /\
        payout <= oct_balance (treasury l) /\
        sent = [mkTransfer (CoinOCT payout) (sender tx)] /\
        treasury l' =
          mkTreasury (oct_balance (treasury l) - payout)
                     (treasury_admin_address (treasury l))
                     (total_rewards_paid (treasury l) + payout)
                     (total_users_rewarded (treasury l) + 1) /\
        game_state l' =
          set_daily_earnings
            (<[sender tx := mkEarning (date e) (amount e + payout) (sessions e + 1)]>
               (daily_earnings (game_state l))) (game_state l)
  | FundTreasury payment =>
      sender tx = treasury_admin_address (treasury l) /\
      oct_balance (treasury l) + payment <= u64_max /\
      oct_balance (treasury l') = oct_balance (treasury l) + payment /\
      game_state l' = game_state l
  | AdminSetSessionReward new_reward =>
      treasury l' = treasury l /\
      game_state l' = set_session_reward new_reward (game_state l)
  | AdminSetItemPrice _ _ =>
      treasury l' = treasury l /\
      daily_earnings (game_state l') = daily_earnings (game_state l) /\
      session_reward (game_state l') = session_reward (game_state l)
  | _ => l' = l
  end.
Proof.
  unfold execute. unfold_result.
  destruct (call tx) as [|payment item_id amount|payment cat_type|cat food|cat
                         |cat toy|cat|new_reward|item_id price|payment].
  - destruct (complete_session _ _ _ _) as [[[t' g'] sent']|] eqn:Hok;
      [|discriminate].
    intros [= <- <-].
    destruct (get_or_create_daily_earning (game_state l) (sender tx)
                (clock tx / 86400000)) as [[g0 e]|] eqn:Hget.
    2: { rewrite get_or_create_daily_earning_result in Hget. discriminate. }
    exists g0, e. split; [reflexivity|].
    destruct (complete_session_accepted _ _ _ _ _ _ _ _ _ Hget Hok)
      as (? & ? & ? & ? & ? & ?).
    cbn. repeat split; assumption.
  - destruct (purchase_item _ _ _ _ _); [|discriminate]. now intros [= <- _].
  - destruct (purchase_cat _ _ _ _); [|discriminate]. now intros [= <- _].
  - destruct (feed_cat _ _ _ _); [|discriminate]. now intros [= <- _].
  - destruct (pet_cat _ _); [|discriminate]. now intros [= <- _].
  - destruct (play_with_cat_toy _ _ _); [|discriminate]. now intros [= <- _].
  - destruct (update_cat_stats _ _ _); [|discriminate]. now intros [= <- _].
  - unfold admin_set_session_reward, assert. unfold_result.
    case_if; [|discriminate]. now intros [= <- _].
  - unfold admin_set_item_price, assert, table_add, table_contains. unfold_result.
    intros H. repeat (case_if; try discriminate); injection H as <- _; auto.
  - unfold fund_treasury, assert, balance_join, add_u64. unfold_result.
    intros H. repeat (case_if; try discriminate); injection H as <- _; z_bools.
    cbn. auto.
Qed.

Lemma step_failed (l : Ledger) (tx : Tx) :
  is_ok (execute l tx) = false -> step l tx = (l, []).
Proof. unfold step. now destruct (execute l tx). Qed.

Lemma step_typed (l : Ledger) (tx : Tx) :
  typed_ledger l -> typed_tx tx -> typed_ledger (fst (step l tx)).
Proof.
  intros [Hbalance Hreward] [_ Hargs]. unfold step.
  destruct (execute l tx) as [[l' sent]|] eqn:Hexec; [|now split].
  apply execute_ok in Hexec. cbn [fst].
  unfold typed_ledger, is_u64 in *.
  destruct (call tx); try (subst l'; now split).
  - destruct Hexec as (g0 & e & _ & Hamount & _ & Hfunded & _ & -> & ->).
    cbn. unfold daily_cap in *. lia.
  - destruct Hexec as [-> ->]. cbn. lia.
  - destruct Hexec as (-> & _ & ->). lia.
  - destruct Hexec as (_ & Hfits & -> & ->). lia.
Qed.

Lemma run_typed (l : Ledger) (txs : list Tx) :
  typed_ledger l -> Forall typed_tx txs -> typed_ledger (run l txs).
Proof.
  revert l. induction txs as [|tx txs IH]; intros l Hl Htxs; cbn.
  - exact Hl.
  - inversion Htxs; subst. apply IH; [apply step_typed|]; assumption.
Qed.

(** C2.  The treasury balance is never negative, along any run of
    transactions; [fund_treasury] adds exactly the value of the coin paid in,
    and no other transaction raises the balance.  A claim whose payout
    exceeds the balance aborts with [ETreasuryInsufficient] and changes
    nothing. *)
Theorem treasury_balance_only_grows_by_funding :
  (forall (l : Ledger) (txs : list Tx),
     typed_ledger l -> Forall typed_tx txs ->
     0 <= oct_balance (treasury (run l txs))) /\
  (forall (l : Ledger) (tx : Tx),
     typed_ledger l -> typed_tx tx ->
     let before := oct_balance (treasury l) in
     let after := oct_balance (treasury (fst (step l tx))) in
     match call tx with
     | FundTreasury payment =>
         if is_ok (execute l tx) then after = before + payment else after = before
     | _ => 0 <= after <= before
     end) /\
  (forall (l : Ledger) (tx : Tx) (g0 : GameState) (e : DailyEarning),
     typed_ledger l ->
     call tx = CompleteSession ->
     get_or_create_daily_earning (game_state l) (sender tx) (clock tx / 86400000)
       = Ok (g0, e) ->
     amount e < daily_cap -> sessions e < daily_session_limit ->
     oct_balance (treasury l) <
       Z.min (session_reward (game_state l) + 0) (daily_cap - amount e) ->
     execute l tx = Err (AbortCode ETreasuryInsufficient) /\
     step l tx = (l, [])).
Proof.
  split; [|split].
  - intros l txs Hl Htxs. apply (run_typed l txs Hl Htxs).
  - intros l tx Hl Htx before after. subst before after.
    pose proof (step_typed l tx Hl Htx) as [[Hafter _] _].
    destruct Hl as [[Hbefore _] [Hreward _]].
    unfold step in *.
    destruct (execute l tx) as [[l' sent]|] eqn:Hexec; cbn [fst is_ok] in *.
    + apply execute_ok in Hexec.
      destruct (call tx); try (subst l'; lia).
      * destruct Hexec as (g0 & e & _ & Hamount & _ & Hfunded & _ & Ht & _).
        rewrite Ht in *. cbn [oct_balance] in *. unfold daily_cap in *. lia.
      * destruct Hexec as [-> _]. lia.
      * destruct Hexec as (-> & _). lia.
      * destruct Hexec as (_ & _ & Hsum & _). exact Hsum.
    + destruct (call tx); lia.
  - intros l tx g0 e [_ [_ Hreward]] Hcall Hget Hamount Hsessions Hpoor.
    assert (Hexec : execute l tx = Err (AbortCode ETreasuryInsufficient)).
    { unfold execute. rewrite Hcall.
      rewrite (complete_session_underfunded _ _ _ _ _ _ Hget); auto. }
    split; [exact Hexec|]. unfold step. now rewrite Hexec.
Qed.

Lemma treasury_balance_only_grows_by_funding_witness :
  let l := mkLedger (mkTreasury 500 1 0 0)
                    (mkGameState ∅ ∅ ∅ 1000000000 ∅ 0 1) in
  let fund := mkTx (FundTreasury 2500000000) 1 1000 in
  let claim := mkTx CompleteSession 7 2000 in
  0 <= oct_balance (treasury (run l [claim; fund; claim; claim; claim])) /\
  oct_balance (treasury (fst (step l fund))) = 500 + 2500000000 /\
  (execute l claim = Err (AbortCode ETreasuryInsufficient) /\
   step l claim = (l, [])).
Proof.
  intros l fund claim.
  destruct treasury_balance_only_grows_by_funding as (Hrun & Hstep & Hpoor).
  split; [|split].
  - apply (Hrun l [claim; fund; claim; claim; claim]).
    + vm_compute. intuition congruence.
    + repeat constructor; vm_compute; intuition congruence.
  - apply (Hstep l fund); vm_compute; intuition congruence.
  - apply (Hpoor l claim
                 (mkGameState ∅ ∅ ∅ 1000000000 {[ 7 := mkEarning 0 0 0 ]} 0 1)
                 (mkEarning 0 0 0)).
    + vm_compute. intuition congruence.
    + reflexivity.
    + vm_compute. reflexivity.
    + vm_compute. reflexivity.
    + vm_compute. reflexivity.
    + vm_compute. reflexivity.
Defined.

(** *** The daily limits *)

Lemma earned_on_bounds (user : address) (day : Z) (l : Ledger) :
  earnings_within_limits l ->
  0 <= earned_on user day l <= daily_cap /\
  0 <= sessions_on user day l <= daily_session_limit.
Proof.
  intros Hl. unfold earned_on, sessions_on.
  destruct (daily_earnings (game_state l) !! user) as [e|] eqn:Hrecord.
  - destruct (Hl user e Hrecord) as [? ?].
    destruct (date e =? day); unfold daily_cap, daily_session_limit in *; lia.
  - unfold daily_cap, daily_session_limit; lia.
Qed.

Lemma step_within_limits (l : Ledger) (tx : Tx) :
  typed_ledger l -> earnings_within_limits l ->
  earnings_within_limits (fst (step l tx)).
Proof.
  intros [_ [Hreward _]] Hl. unfold step.
  destruct (execute l tx) as [[l' sent]|] eqn:Hexec; [|exact Hl].
  apply execute_ok in Hexec. cbn [fst].
  destruct (call tx); try (subst l'; exact Hl).
  - destruct Hexec as (g0 & e & Hget & Hamount & Hsessions & _ & _ & _ & Hg).
    intros user r. rewrite Hg. cbn [daily_earnings set_daily_earnings].
    rewrite get_or_create_daily_earning_result in Hget. injection Hget as _ He.
    assert (Hfresh : earning_within_limits e).
    { subst e. destruct (daily_earnings (game_state l) !! sender tx) as [e0|] eqn:H0.
      - destruct (date e0 =? clock tx / 86400000); [exact (Hl _ _ H0)|].
        unfold earning_within_limits, daily_cap, daily_session_limit; cbn; lia.
      - unfold earning_within_limits, daily_cap, daily_session_limit; cbn; lia. }
    destruct (decide (sender tx = user)) as [->|Hother].
    + rewrite lookup_insert_eq. intros [= <-].
      destruct Hfresh as [? ?].
      unfold earning_within_limits, daily_cap, daily_session_limit in *.
      cbn [amount sessions]. lia.
    + rewrite lookup_insert_ne by assumption. apply Hl.
  - destruct Hexec as [_ Hg]. intros user r. rewrite Hg. apply Hl.
  - destruct Hexec as (_ & Hg & _). intros user r. rewrite Hg. apply Hl.
  - destruct Hexec as (_ & _ & _ & Hg). intros user r. rewrite Hg. apply Hl.
Qed.

Lemma payouts_cons (user : address) (l : Ledger) (tx : Tx) (txs : list Tx) :
  payouts user l (tx :: txs) =
  payouts user l [tx] ++ payouts user (fst (step l tx)) txs.
Proof. cbn [payouts]. now rewrite app_nil_r. Qed.

Lemma sum_app (a b : list Z) : sum (a ++ b) = sum a + sum b.
Proof. induction a as [|x a IH]; cbn; [reflexivity|]. unfold sum in *. lia. Qed.

(** A transaction that is not a claim of [user] pays [user] no reward and
    leaves the record of [user] alone. *)
Lemma other_tx_leaves_record (user : address) (day : Z) (l : Ledger) (tx : Tx) :
  is_claim_by user tx = false ->
  payouts user l [tx] = [] /\
  earned_on user day (fst (step l tx)) = earned_on user day l /\
  sessions_on user day (fst (step l tx)) = sessions_on user day l.
Proof.
  intros Hother. cbn [payouts]. rewrite Hother.
  split; [reflexivity|]. unfold step.
  destruct (execute l tx) as [[l' sent]|] eqn:Hexec; [|now split].
  apply execute_ok in Hexec. cbn [fst].
  unfold earned_on, sessions_on, is_claim_by in *.
  destruct (call tx); try (subst l'; now split).
  - destruct Hexec as (g0 & e & _ & _ & _ & _ & _ & _ & ->).
    cbn [daily_earnings set_daily_earnings].
    apply Z.eqb_neq in Hother.
    rewrite lookup_insert_ne by assumption. now split.
  - destruct Hexec as [_ ->]. now split.
  - destruct Hexec as (_ & -> & _). now split.
  - destruct Hexec as (_ & _ & _ & ->). now split.
Qed.

(** A claim of [user] on day [day] pays what the record of that day grows by. *)
Lemma claim_tx_counts (user : address) (day : Z) (l : Ledger) (tx : Tx) :
  is_claim_by user tx = true -> day_of (clock tx) = day ->
  sum (payouts user l [tx]) =
    earned_on user day (fst (step l tx)) - earned_on user day l /\
  Z.of_nat (length (payouts user l [tx])) =
    sessions_on user day (fst (step l tx)) - sessions_on user day l.
Proof.
  intros Hclaim Hday. cbn [payouts]. rewrite Hclaim, app_nil_r.
  unfold step.
  destruct (execute l tx) as [[l' sent]|] eqn:Hexec; [|cbn; lia].
  apply execute_ok in Hexec. cbn [fst].
  unfold is_claim_by, day_of in *.
  destruct (call tx); try discriminate.
  apply Z.eqb_eq in Hclaim.
  destruct Hexec as (g0 & e & Hget & _ & _ & _ & -> & _ & Hg).
  pose proof (get_or_create_date _ _ _ _ _ Hget) as Hdate.
  rewrite get_or_create_daily_earning_result in Hget. injection Hget as _ He.
  unfold earned_on, sessions_on. rewrite Hg.
  cbn [daily_earnings set_daily_earnings flat_map what app length sum fold_right].
  rewrite Hclaim in *. rewrite lookup_insert_eq.
  cbn [date amount sessions]. rewrite Hdate. subst day. rewrite Z.eqb_refl.
  destruct (daily_earnings (game_state l) !! user) as [e0|].
  - destruct (date e0 =? clock tx / 86400000) eqn:Hsame; subst e;
      cbn [amount sessions]; lia.
  - subst e; cbn [amount sessions]; lia.
Qed.

Lemma payouts_account (user : address) (day : Z) (txs : list Tx) (l : Ledger) :
  Forall (fun tx => is_claim_by user tx = true -> day_of (clock tx) = day) txs ->
  sum (payouts user l txs) = earned_on user day (run l txs) - earned_on user day l /\
  Z.of_nat (length (payouts user l txs)) =
    sessions_on user day (run l txs) - sessions_on user day l.
Proof.
  intros Hdays. revert l.
  induction Hdays as [|tx txs Hday _ IH]; intros l.
  - cbn. lia.
  - rewrite payouts_cons, sum_app, length_app, Nat2Z.inj_add.
    cbn [run]. destruct (IH (fst (step l tx))) as [IHsum IHcount].
    rewrite IHsum, IHcount.
    destruct (is_claim_by user tx) eqn:Hclaim.
    + destruct (claim_tx_counts user day l tx Hclaim (Hday eq_refl)) as [-> ->]. lia.
    + destruct (other_tx_leaves_record user day l tx Hclaim) as (-> & -> & ->).
      cbn. lia.
Qed.

Lemma run_within_limits (l : Ledger) (txs : list Tx) :
  typed_ledger l -> earnings_within_limits l -> Forall typed_tx txs ->
  earnings_within_limits (run l txs).
Proof.
  revert l. induction txs as [|tx txs IH]; intros l Htyped Hl Htxs; cbn.
  - exact Hl.
  - inversion Htxs; subst.
    apply IH; [apply step_typed | apply step_within_limits |]; assumption.
Qed.

(** C1.  Whatever transactions run on the ledger, if the claims of a user
    among them all fall in one calendar day, the rewards paid to that user by
    these claims sum to at most the daily cap (100_000_000_000) and number at
    most the daily session limit (100); and after the run every daily earning
    record has amount <= daily cap and sessions <= session limit. *)
Theorem daily_cap_and_session_limit (user : address) (day : Z) (l : Ledger)
    (txs : list Tx) :
  typed_ledger l -> earnings_within_limits l -> Forall typed_tx txs ->
  Forall (fun tx => is_claim_by user tx = true -> day_of (clock tx) = day) txs ->
  sum (payouts user l txs) <= daily_cap /\
  Z.of_nat (length (payouts user l txs)) <= daily_session_limit /\
  earnings_within_limits (run l txs).
Proof.
  intros Htyped Hl Htxs Hdays.
  pose proof (run_within_limits l txs Htyped Hl Htxs) as Hend.
  destruct (payouts_account user day txs l Hdays) as [Hsum Hcount].
  destruct (earned_on_bounds user day l Hl) as [? ?].
  destruct (earned_on_bounds user day (run l txs) Hend) as [? ?].
  split; [lia | split; [lia | exact Hend]].
Qed.

Lemma daily_cap_and_session_limit_witness :
  let l := mkLedger (mkTreasury 500000000000 1 0 0)
                    (mkGameState ∅ ∅ ∅ 60000000000 ∅ 0 1) in
  let claim := fun clock => mkTx CompleteSession 7 clock in
  let txs := [claim 1000; mkTx CompleteSession 8 1500; claim 2000; claim 3000] in
  payouts 7 l txs = [60000000000; 40000000000] /\
  sum (payouts 7 l txs) <= daily_cap /\
  Z.of_nat (length (payouts 7 l txs)) <= daily_session_limit /\
  earnings_within_limits (run l txs).
Proof.
  intros l claim txs. split; [vm_compute; reflexivity|].
  apply (daily_cap_and_session_limit 7 0 l txs).
  - vm_compute. intuition congruence.
  - intros user e Hrecord. unfold l in Hrecord. cbn in Hrecord.
    rewrite lookup_empty in Hrecord. discriminate.
  - repeat constructor; vm_compute; intuition congruence.
  - repeat constructor; intros _; reflexivity.
Defined.

(** The scenario of a fresh user on a funded treasury: one hundred claims in
    a day are paid 1 OCT each, the next one is refused (daily cap reached). *)
Example hundred_claims_then_refused :
  exists (g : GameState) (t : Treasury),
    init 1 = Ok (g, t) /\
    let l := mkLedger (mkTreasury 500000000000 1 0 0) g in
    let claim := mkTx CompleteSession 7 1000 in
    payouts 7 l (repeat claim 101) = repeat 1000000000 100 /\
    execute (run l (repeat claim 100)) claim = Err (AbortCode 1).
Proof. do 2 eexists. split; [reflexivity|]. vm_compute. split; reflexivity. Qed.

(** *** Purchases *)

(** [purchase_item] compares the payment with [price * amount], not with the
    unit price: nothing bought costs nothing, and two units at the unit price
    are refused. *)
Lemma purchase_requires_the_total_cost :
  exists (g : GameState) (t : Treasury),
    init 1 = Ok (g, t) /\
    item_price g 1 = Ok 1000000000 /\
    purchase_item g 0 1 0 7 = Ok [mkTransfer (CoinOCT 0) 1] /\
    purchase_item g 1000000000 1 2 7 = Err (AbortCode EInsufficientPayment) /\
    ~ (forall (payment item_id amount : Z) (sender : address)
              (sent : list Transfer) (price : Z),
         purchase_item g payment item_id amount sender = Ok sent ->
         item_price g item_id = Ok price ->
         price <= payment).
Proof.
  do 2 eexists. split; [reflexivity|].
  split; [reflexivity|]. split; [reflexivity|]. split; [reflexivity|].
  intros Hprice.
  specialize (Hprice 0 1 0 7 _ 1000000000 eq_refl eq_refl).
  vm_compute in Hprice. congruence.
Qed.

(** C9, as the code has it.  [purchase_item] requires the payment to cover
    [price(item_id) * amount], [purchase_cat] to cover [price(cat_type)].
    Either hands the whole payment coin, excess included, to
    [game_state.admin_address] (the burn vault; [burn_address] is not used)
    and pays nothing back; what else it transfers are the toys or the cat
    minted for the buyer.  A purchase leaves the treasury and the game state
    as they were. *)
Theorem purchases_burn_the_whole_payment :
  (forall (g : GameState) (payment item_id amount : Z) (sender : address)
          (sent : list Transfer),
     purchase_item g payment item_id amount sender = Ok sent ->
     exists price : Z,
       item_price g item_id = Ok price /\
       price * amount <= payment /\
       sent = mkTransfer (CoinOCT payment) (admin_address g) ::
              (if (6 <=? item_id) && (item_id <=? 10)
               then repeat (mkTransfer
                              (Toy (game_item.mint_toy item_id
                                      (get_toy_happiness_value item_id))) sender)
                           (Z.to_nat amount)
               else [])) /\
  (forall (g : GameState) (payment cat_type : Z) (sender : address)
          (sent : list Transfer),
     purchase_cat g payment cat_type sender = Ok sent ->
     exists price : Z,
       cat_prices g !! cat_type = Some price /\
       price <= payment /\
       sent = [mkTransfer (CoinOCT payment) (admin_address g);
               mkTransfer (Cat (catnft.mint cat_type)) sender]) /\
  (forall (l : Ledger) (tx : Tx),
     (exists payment item_id amount, call tx = PurchaseItem payment item_id amount) \/
     (exists payment cat_type, call tx = PurchaseCat payment cat_type) ->
     fst (step l tx) = l).
Proof.
  split; [|split].
  - intros g payment item_id amount sender sent.
    unfold purchase_item, mul_u64, assert. unfold_result.
    destruct (item_price g item_id) as [price|]; [|discriminate].
    intros H. exists price. split; [reflexivity|].
    repeat (case_if; try discriminate); injection H as <-; z_bools;
      (split; [assumption | reflexivity]).
  - intros g payment cat_type sender sent.
    unfold purchase_cat, table_borrow, assert. unfold_result.
    destruct (cat_prices g !! cat_type) as [price|]; [|discriminate].
    intros H. exists price. split; [reflexivity|].
    repeat (case_if; try discriminate); injection H as <-; z_bools.
    split; [assumption | reflexivity].
  - intros l tx Hpurchase. unfold step.
    destruct (execute l tx) as [[l' sent]|] eqn:Hexec; [|reflexivity].
    apply execute_ok in Hexec.
    destruct Hpurchase as [(p & i & a & Hcall)|(p & c & Hcall)];
      rewrite Hcall in Hexec; exact Hexec.
Qed.

Lemma purchases_burn_the_whole_payment_witness :
  let g := mkGameState {[ 1 := 1000000000 ]} {[ 6 := 10 ]} {[ 1 := 50 ]}
                       1000000000 ∅ 0 1 in
  let l := mkLedger (mkTreasury 500 1 0 0) g in
  (exists price : Z,
     item_price g 6 = Ok price /\ price * 2 <= 25 /\
     [mkTransfer (CoinOCT 25) 1;
      mkTransfer (Toy (game_item.mkToy 6 10)) 7;
      mkTransfer (Toy (game_item.mkToy 6 10)) 7] =
     mkTransfer (CoinOCT 25) (admin_address g) ::
       repeat (mkTransfer (Toy (game_item.mint_toy 6 (get_toy_happiness_value 6))) 7)
              (Z.to_nat 2)) /\
  (exists price : Z,
     cat_prices g !! 1 = Some price /\ price <= 60 /\
     [mkTransfer (CoinOCT 60) 1; mkTransfer (Cat (catnft.mint 1)) 7] =
     [mkTransfer (CoinOCT 60) (admin_address g);
      mkTransfer (Cat (catnft.mint 1)) 7]) /\
  fst (step l (mkTx (PurchaseItem 25 6 2) 7 1000)) = l.
Proof.
  intros g l.
  destruct purchases_burn_the_whole_payment as (Hitem & Hcat & Hframe).
  split; [|split].
  - apply (Hitem g 25 6 2 7). vm_compute. reflexivity.
  - apply (Hcat g 60 1 7). vm_compute. reflexivity.
  - apply (Hframe l (mkTx (PurchaseItem 25 6 2) 7 1000)).
    left. do 3 eexists. reflexivity.
Defined.

End Rewards.

(** * Further properties *)

(** ** The life of a cat on the ledger *)

Section CatLife.
Import catnft accounting.

Lemma after_in_range (cat : CatNFT) (op : CatOp) :
  stats_in_range cat -> typed_op op -> stats_in_range (after cat op).
Proof.
  intros (Hhunger & Hhappy & Hhealth) Hop. unfold after, stats_in_range.
  destruct op as [food_value clock | boost | clock]; cbn [apply_op] in *;
    unfold typed_op, is_u8, u8_max in Hop.
  - rewrite feed_cat_result. cbn [hunger happiness health]. lia.
  - destruct (Z_le_gt_dec (happiness cat + boost) u8_max) as [Hfit|Hbig].
    + rewrite play_with_cat_result by assumption.
      unfold set_happiness. cbn [hunger happiness health]. lia.
    + rewrite play_with_cat_overflow by lia. lia.
  - destruct (update_stats cat clock) as [cat'|] eqn:Htick; [|lia].
    apply update_stats_unfold in Htick. cbv zeta in Htick.
    destruct Htick as (_ & -> & -> & _ & _ & Hend).
    destruct (death_rule cat').
    + destruct Hend as [_ ->].
      repeat case_if; lia.
    + destruct Hend as [_ ->].
      repeat case_if; z_bools;
        try (apply andb_prop in Heqb1 as [_ Hpos]; z_bools); lia.
Qed.

(** X1.  Hunger, happiness and health stay within 0..100 under every
    sequence of feed, play and decay calls with u8 arguments, whether the
    calls abort or not; in particular for a cat as minted. *)
Theorem stats_stay_in_range (cat : CatNFT) (ops : list CatOp) :
  stats_in_range cat -> Forall typed_op ops ->
  Forall stats_in_range (trajectory cat ops).
Proof.
  intros Hcat Hops. revert cat Hcat.
  induction Hops as [|op ops Hop _ IH]; intros cat Hcat; cbn.
  - constructor.
  - pose proof (after_in_range cat op Hcat Hop) as Hnext.
    constructor; [exact Hnext | apply IH, Hnext].
Qed.

Lemma stats_stay_in_range_witness :
  Forall stats_in_range
         (trajectory (mint 2) [Play 200; DecayTick 1000; Feed 250 2000; Play 60]).
Proof.
  apply (stats_stay_in_range (mint 2)).
  - unfold stats_in_range. cbn. lia.
  - repeat constructor; unfold is_u8, u8_max; lia.
Defined.

Lemma after_never_revives (cat : CatNFT) (op : CatOp) :
  0 <= health cat ->
  0 <= health (after cat op) <= health cat /\
  (is_alive cat = false -> is_alive (after cat op) = false).
Proof.
  intros Hhealth. unfold after.
  destruct op as [food_value clock | boost | clock]; cbn [apply_op].
  - rewrite feed_cat_result. cbn [health is_alive]. split; [lia | auto].
  - unfold play_with_cat, add_u8. unfold_result.
    repeat (case_if; cat_fields); split; auto; lia.
  - destruct (update_stats cat clock) as [cat'|] eqn:Htick; [|split; [lia|auto]].
    apply update_stats_unfold in Htick. cbv zeta in Htick.
    destruct Htick as (_ & _ & _ & _ & _ & Hend).
    destruct (death_rule cat').
    + destruct Hend as [-> ->]. split; [lia | auto].
    + destruct Hend as [-> ->]. split; [|auto].
      case_if; [|lia].
      apply andb_prop in Heqb as [_ Hpos]. z_bools. lia.
Qed.

(** X2.  No call brings a cat back to life or restores health: along every
    sequence of feed, play and decay calls health never rises, and a cat
    that is dead stays dead. *)
Theorem death_is_permanent (cat : CatNFT) (ops : list CatOp) :
  0 <= health cat ->
  Forall (fun c => health c <= health cat /\
                   (is_alive cat = false -> is_alive c = false))
         (trajectory cat ops).
Proof.
  intros Hhealth.
  assert (Hgen : forall cat0, 0 <= health cat0 <= health cat ->
                   (is_alive cat = false -> is_alive cat0 = false) ->
                   Forall (fun c => health c <= health cat /\
                                    (is_alive cat = false -> is_alive c = false))
                          (trajectory cat0 ops)).
  { induction ops as [|op ops IH]; intros cat0 Hbound Hdead; cbn.
    - constructor.
    - destruct (after_never_revives cat0 op) as [Hnext Hstill]; [lia|].
      constructor; [split; [lia | auto] | apply IH; [lia | auto]]. }
  apply Hgen; [lia | auto].
Qed.

Lemma death_is_permanent_witness :
  let dead := mkCat 1 100 0 0 false 0 3 in
  Forall (fun c => health c <= 0 /\ (false = false -> is_alive c = false))
         (trajectory dead [Feed 50 1000; Play 30; DecayTick 2000]).
Proof.
  intros dead.
  apply (death_is_permanent dead [Feed 50 1000; Play 30; DecayTick 2000]).
  cbn. lia.
Defined.

(** X3.  [play_with_cat] adds before it compares: it aborts with an
    arithmetic error exactly when happiness + boost exceeds 255, and
    otherwise sets happiness to min(100, happiness + boost) and nothing
    else.  A cat at happiness 100 given a boost of 156 or more aborts the
    transaction instead of staying at 100. *)
Theorem play_with_cat_aborts_iff (cat : CatNFT) (happiness_boost : Z) :
  (play_with_cat cat happiness_boost = Err ArithmeticError <->
   u8_max < happiness cat + happiness_boost) /\
  (forall cat', play_with_cat cat happiness_boost = Ok cat' ->
     cat' = set_happiness (Z.min 100 (happiness cat + happiness_boost)) cat) /\
  (happiness cat = 100 -> 156 <= happiness_boost ->
   is_ok (play_with_cat cat happiness_boost) = false).
Proof.
  destruct (Z_le_gt_dec (happiness cat + happiness_boost) u8_max) as [Hfit|Hbig].
  - rewrite play_with_cat_result by assumption.
    split; [|split].
    + split; [discriminate | lia].
    + now intros cat' [= <-].
    + unfold u8_max in *. lia.
  - rewrite play_with_cat_overflow by lia.
    split; [|split].
    + split; [lia | reflexivity].
    + discriminate.
    + reflexivity.
Qed.

Lemma play_with_cat_aborts_iff_witness :
  is_ok (play_with_cat (mkCat 1 50 100 100 true 0 0) 200) = false.
Proof.
  apply (play_with_cat_aborts_iff (mkCat 1 50 100 100 true 0 0) 200);
    [reflexivity | lia].
Defined.

(** X4.  Feeding resets the starvation clock: a living cat that is fed and
    then ticked less than three days later is still alive, provided the
    food leaves its hunger below 99; its day count is that of the days
    since the feeding. *)
Theorem fed_cat_survives_the_next_tick (cat : CatNFT) (food_value fed ticked : Z) :
  is_alive cat = true ->
  fed <= ticked -> ticked - fed < 3 * ms_per_day ->
  hunger cat - food_value < 99 ->
  exists cat1 cat2,
    feed_cat cat food_value fed = Ok cat1 /\
    update_stats cat1 ticked = Ok cat2 /\
    is_alive cat2 = true /\
    days_without_feeding cat2 = (ticked - fed) / ms_per_day.
Proof.
  intros Halive Horder Hsoon Hfull.
  rewrite feed_cat_result. eexists. 
  assert (Hdays : 0 <= (ticked - fed) / ms_per_day < 3).
  { split; [apply Z.div_pos; unfold ms_per_day; lia|].
    apply Z.div_lt_upper_bound; unfold ms_per_day in *; lia. }
  match goal with |- exists cat2, Ok ?c = _ /\ _ => set (cat1 := c) end.
  destruct (update_stats_succeeds cat1 ticked) as [cat2 Htick].
  { subst cat1. cbn. unfold u8_max. lia. }
  exists cat2. split; [reflexivity|]. split; [exact Htick|].
  pose proof (update_stats_unfold _ _ _ Htick) as Hfields. cbv zeta in Hfields.
  subst cat1. cbn [last_fed_time days_without_feeding hunger happiness is_alive health]
    in Hfields.
  destruct Hfields as (Hd & Hh & _ & _ & _ & Hend).
  assert (Hd' : days_without_feeding cat2 = (ticked - fed) / ms_per_day).
  { rewrite Hd. destruct (fed <? ticked) eqn:Hlt; z_bools.
    - lia.
    - replace (ticked - fed) with 0 by lia. reflexivity. }
  split; [|exact Hd'].
  assert (Hrule : death_rule cat2 = false).
  { unfold death_rule. rewrite Hd', Hh.
    apply orb_false_iff. split.
    - apply andb_false_iff. left. apply Z.leb_gt. case_if; z_bools; lia.
    - apply Z.leb_gt. lia. }
  rewrite Hrule in Hend. destruct Hend as [-> _]. exact Halive.
Qed.

Lemma fed_cat_survives_the_next_tick_witness :
  exists cat1 cat2,
    feed_cat (mkCat 1 100 0 40 true 0 2) 20 (10 * ms_per_day) = Ok cat1 /\
    update_stats cat1 (10 * ms_per_day + 2 * ms_per_day + 5) = Ok cat2 /\
    is_alive cat2 = true /\
    days_without_feeding cat2 =
      (10 * ms_per_day + 2 * ms_per_day + 5 - 10 * ms_per_day) / ms_per_day.
Proof.
  apply (fed_cat_survives_the_next_tick (mkCat 1 100 0 40 true 0 2) 20);
    [reflexivity | vm_compute; discriminate | reflexivity | reflexivity].
Defined.

End CatLife.

Ltac case_if_in H :=
  match type of H with
  | context [if ?b then _ else _] => destruct b eqn:?
  end.

Ltac split_bools :=
  repeat match goal with
  | H : (_ && _) = true |- _ => apply andb_true_iff in H; destruct H
  | H : (_ && _) = false |- _ => apply andb_false_iff in H; destruct H
  | H : (_ || _) = true |- _ => apply orb_true_iff in H; destruct H
  | H : (_ || _) = false |- _ => apply orb_false_iff in H; destruct H
  end; z_bools.

(** ** Claims, funding and administration *)

Section Economy.
Import pomodoro_game ledger accounting.

(** The decision [complete_session] takes, step by step. *)
Lemma complete_session_cases (t : Treasury) (g g0 : GameState) (clock : Z)
    (user : address) (e : DailyEarning) :
  session_reward g <= u64_max ->
  get_or_create_daily_earning g user (clock / 86400000) = Ok (g0, e) ->
  let payout := Z.min (session_reward g + 0) (daily_cap - amount e) in
  complete_session t g clock user =
    if daily_cap <=? amount e then Err (AbortCode 1)
    else if daily_session_limit <=? sessions e then Err (AbortCode 2)
    else if oct_balance t <? payout then Err (AbortCode ETreasuryInsufficient)
    else if u64_max <? total_rewards_paid t + payout then Err ArithmeticError
    else if u64_max <? total_users_rewarded t + 1 then Err ArithmeticError
    else Ok (mkTreasury (oct_balance t - payout) (treasury_admin_address t)
                        (total_rewards_paid t + payout)
                        (total_users_rewarded t + 1),
             set_daily_earnings
               (<[user := mkEarning (date e) (amount e + payout) (sessions e + 1)]>
                  (daily_earnings g)) g,
             [mkTransfer (CoinOCT payout) user]).
Proof.
  intros Hreward Hget payout. subst payout.
  unfold complete_session, div_u64. unfold_result.
  change (24 * 60 * 60 * 1000) with 86400000.
  change (86400000 =? 0) with false. cbv iota.
  rewrite Hget.
  rewrite get_or_create_daily_earning_result in Hget. injection Hget as <- _.
  unfold add_u64, sub_u64, assert, balance_split,
    daily_cap, daily_session_limit, u64_max in *.
  destruct (100000000000 <=? amount e) eqn:Hcap; [reflexivity|].
  destruct (100 <=? sessions e) eqn:Hlimit; [reflexivity|].
  z_bools.
  replace (session_reward g + 0 <=? 18446744073709551615) with true
    by (symmetry; apply Z.leb_le; lia).
  replace (amount e <=? 100000000000) with true
    by (symmetry; apply Z.leb_le; lia).
  cbv iota beta.
  set (payout := Z.min (session_reward g + 0) (100000000000 - amount e)).
  replace (if 100000000000 - amount e <? session_reward g + 0
           then 100000000000 - amount e else session_reward g + 0)
    with payout by (subst payout; case_if; z_bools; lia).
  assert (Hpayout : payout <= 100000000000 - amount e) by (subst payout; lia).
  destruct (oct_balance t <? payout) eqn:Hpoor; z_bools.
  { replace (payout <=? oct_balance t) with false
      by (symmetry; apply Z.leb_gt; lia). reflexivity. }
  replace (payout <=? oct_balance t) with true by (symmetry; apply Z.leb_le; lia).
  cbv iota beta.
  replace (amount e + payout <=? 18446744073709551615) with true
    by (symmetry; apply Z.leb_le; lia).
  replace (sessions e + 1 <=? 18446744073709551615) with true
    by (symmetry; apply Z.leb_le; lia).
  cbv iota beta.
  destruct (18446744073709551615 <? total_rewards_paid t + payout) eqn:Hpaid; z_bools.
  { replace (total_rewards_paid t + payout <=? 18446744073709551615) with false
      by (symmetry; apply Z.leb_gt; lia). reflexivity. }
  replace (total_rewards_paid t + payout <=? 18446744073709551615) with true
    by (symmetry; apply Z.leb_le; lia).
  cbv iota beta.
  destruct (18446744073709551615 <? total_users_rewarded t + 1) eqn:Hcount; z_bools.
  { replace (total_users_rewarded t + 1 <=? 18446744073709551615) with false
      by (symmetry; apply Z.leb_gt; lia). reflexivity. }
  replace (total_users_rewarded t + 1 <=? 18446744073709551615) with true
    by (symmetry; apply Z.leb_le; lia).
  cbv iota beta. unfold set_daily_earnings. cbn.
  now rewrite insert_insert_eq.
Qed.

(** X5.  How [complete_session] ends, given the record of the day
    [get_or_create_daily_earning] hands over: abort 1 when the daily cap is
    reached, else abort 2 when the session limit is reached, else
    [ETreasuryInsufficient] when the balance is below the payout, else an
    arithmetic error when a treasury counter would overflow, else the payout.
    No other abort is possible. *)
Theorem complete_session_outcome (t : Treasury) (g g0 : GameState) (clock : Z)
    (user : address) (e : DailyEarning) :
  session_reward g <= u64_max ->
  get_or_create_daily_earning g user (clock / 86400000) = Ok (g0, e) ->
  let payout := Z.min (session_reward g + 0) (daily_cap - amount e) in
  complete_session t g clock user =
    if daily_cap <=? amount e then Err (AbortCode 1)
    else if daily_session_limit <=? sessions e then Err (AbortCode 2)
    else if oct_balance t <? payout then Err (AbortCode ETreasuryInsufficient)
    else if u64_max <? total_rewards_paid t + payout then Err ArithmeticError
    else if u64_max <? total_users_rewarded t + 1 then Err ArithmeticError
    else Ok (mkTreasury (oct_balance t - payout) (treasury_admin_address t)
                        (total_rewards_paid t + payout)
                        (total_users_rewarded t + 1),
             set_daily_earnings
               (<[user := mkEarning (date e) (amount e + payout) (sessions e + 1)]>
                  (daily_earnings g)) g,
             [mkTransfer (CoinOCT payout) user]).
Proof. exact (complete_session_cases t g g0 clock user e). Qed.

Lemma complete_session_outcome_witness :
  let t := mkTreasury 5000000000 1 0 0 in
  let g := mkGameState ∅ ∅ ∅ 1000000000 {[ 7 := mkEarning 0 500000000 100 ]} 0 1 in
  complete_session t g 1000 7 = Err (AbortCode 2).
Proof.
  intros t g.
  rewrite (complete_session_outcome t g g 1000 7 (mkEarning 0 500000000 100));
    [reflexivity | vm_compute; discriminate | vm_compute; reflexivity].
Defined.

Lemma fund_treasury_ok (t t' : Treasury) (payment : Z) (sender : address) :
  fund_treasury t payment sender = Ok t' ->
  sender = treasury_admin_address t /\
  t' = mkTreasury (oct_balance t + payment) (treasury_admin_address t)
                  (total_rewards_paid t) (total_users_rewarded t).
Proof.
  unfold fund_treasury, assert, balance_join, add_u64. unfold_result.
  intros H. repeat (case_if; try discriminate). injection H as <-.
  z_bools. now split.
Qed.

Lemma execute_fund (l l' : Ledger) (tx : Tx) (sent : list Transfer) (payment : Z) :
  call tx = FundTreasury payment ->
  execute l tx = Ok (l', sent) ->
  sender tx = treasury_admin_address (treasury l) /\
  sent = [] /\
  l' = mkLedger (mkTreasury (oct_balance (treasury l) + payment)
                            (treasury_admin_address (treasury l))
                            (total_rewards_paid (treasury l))
                            (total_users_rewarded (treasury l)))
                (game_state l).
Proof.
  intros Hcall. unfold execute. rewrite Hcall. unfold_result.
  destruct (fund_treasury _ _ _) as [t'|] eqn:Hfund; [|discriminate].
  intros [= <- <-]. apply fund_treasury_ok in Hfund as [? ->]. auto.
Qed.

(** X6.  The treasury's books balance along every run: the balance is the
    starting balance plus what [fund_treasury] put in minus the rewards paid,
    [total_rewards_paid] grows by exactly the rewards paid and
    [total_users_rewarded] by the number of accepted claims. *)
Theorem treasury_accounting (l : Ledger) (txs : list Tx) :
  oct_balance (treasury (run l txs)) =
    oct_balance (treasury l) + funded l txs - paid_out l txs /\
  total_rewards_paid (treasury (run l txs)) =
    total_rewards_paid (treasury l) + paid_out l txs /\
  total_users_rewarded (treasury (run l txs)) =
    total_users_rewarded (treasury l) + accepted_claims l txs.
Proof.
  revert l. induction txs as [|tx txs IH]; intros l; cbn [run funded paid_out accepted_claims].
  - lia.
  - destruct (IH (fst (step l tx))) as (-> & -> & ->).
    assert (Hstep :
      oct_balance (treasury (fst (step l tx))) =
        oct_balance (treasury l) + funded_by l tx - paid_by l tx /\
      total_rewards_paid (treasury (fst (step l tx))) =
        total_rewards_paid (treasury l) + paid_by l tx /\
      total_users_rewarded (treasury (fst (step l tx))) =
        total_users_rewarded (treasury l) + (if accepted_claim l tx then 1 else 0)).
    { unfold step, funded_by, paid_by, accepted_claim.
      destruct (execute l tx) as [[l' sent]|] eqn:Hexec; cbn [fst is_ok].
      - destruct (call tx) eqn:Hcall;
          try (apply execute_ok in Hexec; rewrite Hcall in Hexec; subst l'; lia).
        + apply execute_ok in Hexec. rewrite Hcall in Hexec.
          destruct Hexec as (g0 & e & _ & _ & _ & _ & -> & -> & _).
          unfold coins_in. cbn [flat_map what app sum fold_right
                                oct_balance total_rewards_paid total_users_rewarded].
          lia.
        + apply execute_ok in Hexec. rewrite Hcall in Hexec.
          destruct Hexec as [-> _]. lia.
        + apply execute_ok in Hexec. rewrite Hcall in Hexec.
          destruct Hexec as (-> & _). lia.
        + destruct (execute_fund _ _ _ _ _ Hcall Hexec) as (_ & _ & ->).
          cbn [treasury oct_balance total_rewards_paid total_users_rewarded]. lia.
      - destruct (call tx); lia. }
    destruct Hstep as (-> & -> & ->). lia.
Qed.

(** What a transaction never touches. *)
Lemma step_keeps_configuration (l : Ledger) (tx : Tx) :
  let l' := fst (step l tx) in
  admin_address (game_state l') = admin_address (game_state l) /\
  burn_address (game_state l') = burn_address (game_state l) /\
  treasury_admin_address (treasury l') = treasury_admin_address (treasury l) /\
  cat_prices (game_state l') = cat_prices (game_state l).
Proof.
  unfold step.
  destruct (execute l tx) as [[l' sent]|] eqn:Hexec; cbn [fst]; [|auto].
  destruct (call tx) eqn:Hcall;
    try (apply execute_ok in Hexec; rewrite Hcall in Hexec; subst l'; now auto).
  - apply execute_ok in Hexec. rewrite Hcall in Hexec.
    destruct Hexec as (g0 & e & _ & _ & _ & _ & _ & -> & ->). now auto.
  - apply execute_ok in Hexec. rewrite Hcall in Hexec.
    destruct Hexec as [-> ->]. now auto.
  - unfold execute in Hexec. rewrite Hcall in Hexec.
    unfold admin_set_item_price, assert, table_add, table_contains in Hexec.
    unfold_result.
    repeat (case_if; try discriminate); injection Hexec as <- _; now auto.
  - destruct (execute_fund _ _ _ _ _ Hcall Hexec) as (_ & _ & ->). now auto.
Qed.

(** X7.  No transaction changes who the administrators are, where purchases
    are burnt, or what a cat costs: [admin_address], [burn_address], the
    treasury's [admin_address] and [cat_prices] are the same after every
    run. *)
Theorem configuration_is_fixed (l : Ledger) (txs : list Tx) :
  admin_address (game_state (run l txs)) = admin_address (game_state l) /\
  burn_address (game_state (run l txs)) = burn_address (game_state l) /\
  treasury_admin_address (treasury (run l txs)) =
    treasury_admin_address (treasury l) /\
  cat_prices (game_state (run l txs)) = cat_prices (game_state l).
Proof.
  revert l. induction txs as [|tx txs IH]; intros l; cbn [run].
  - auto.
  - destruct (IH (fst (step l tx))) as (-> & -> & -> & ->).
    apply step_keeps_configuration.
Qed.

(** X8.  [admin_set_item_price] by the administrator: the new price is what
    [purchase_item] charges for an item 1..10, the price of every other item
    is as before, and so are the reward and the earning records.  A price
    set for an id outside 1..10 is stored but never charged. *)
Theorem admin_set_item_price_round_trip (g : GameState) (item_id price : Z) :
  exists g',
    admin_set_item_price g item_id price (admin_address g) = Ok g' /\
    (1 <= item_id <= 10 -> item_price g' item_id = Ok price) /\
    (forall other, other <> item_id -> item_price g' other = item_price g other) /\
    (~ 1 <= item_id <= 10 ->
     forall any, item_price g' any = item_price g any) /\
    session_reward g' = session_reward g /\
    daily_earnings g' = daily_earnings g /\
    cat_prices g' = cat_prices g.
Proof.
  assert (Hset : admin_set_item_price g item_id price (admin_address g) =
                 Ok (if item_id <=? 5
                     then set_food_prices (<[item_id := price]> (food_prices g)) g
                     else set_toy_prices (<[item_id := price]> (toy_prices g)) g)).
  { unfold admin_set_item_price, assert, table_add, table_contains. unfold_result.
    rewrite Z.eqb_refl.
    destruct (item_id <=? 5).
    - destruct (food_prices g !! item_id); reflexivity.
    - destruct (toy_prices g !! item_id); reflexivity. }
  eexists. split; [exact Hset|].
  assert (Hother : forall other, other <> item_id ->
            item_price (if item_id <=? 5
                        then set_food_prices (<[item_id := price]> (food_prices g)) g
                        else set_toy_prices (<[item_id := price]> (toy_prices g)) g)
                       other = item_price g other).
  { intros other Hne. unfold item_price, table_borrow.
    destruct (item_id <=? 5); cbn [food_prices toy_prices set_food_prices
                                   set_toy_prices];
      rewrite lookup_insert_ne by congruence; reflexivity. }
  split; [|split; [exact Hother|split]].
  - intros Hid. unfold item_price, table_borrow.
    repeat (case_if; split_bools;
            cbn [food_prices toy_prices set_food_prices set_toy_prices]);
      rewrite ?lookup_insert_eq; try reflexivity; lia.
  - intros Hout any.
    destruct (Z.eq_dec any item_id) as [->|Hne]; [|now apply Hother].
    unfold item_price.
    repeat (case_if; split_bools;
            cbn [food_prices toy_prices set_food_prices set_toy_prices]);
      try reflexivity; lia.
  - destruct (item_id <=? 5); auto.
Qed.

(** X9.  Only the administrators administrate: [admin_set_session_reward]
    and [admin_set_item_price] by a sender other than
    [game_state.admin_address] abort with 100 and 101, [fund_treasury] by a
    sender other than the treasury's admin aborts with [ENotAuthorized], and
    the ledger is as before. *)
Theorem only_the_admin (l : Ledger) (tx : Tx) :
  match call tx with
  | AdminSetSessionReward _ =>
      sender tx <> admin_address (game_state l) ->
      execute l tx = Err (AbortCode 100) /\ step l tx = (l, [])
  | AdminSetItemPrice _ _ =>
      sender tx <> admin_address (game_state l) ->
      execute l tx = Err (AbortCode 101) /\ step l tx = (l, [])
  | FundTreasury _ =>
      sender tx <> treasury_admin_address (treasury l) ->
      execute l tx = Err (AbortCode ENotAuthorized) /\ step l tx = (l, [])
  | _ => True
  end.
Proof.
  unfold step, execute.
  destruct (call tx); try exact I; intros Hother; apply Z.eqb_neq in Hother.
  - unfold admin_set_session_reward, assert. unfold_result. now rewrite Hother.
  - unfold admin_set_item_price, assert. unfold_result. now rewrite Hother.
  - unfold fund_treasury, assert. unfold_result. now rewrite Hother.
Qed.

Lemma only_the_admin_witness :
  let l := mkLedger (mkTreasury 500 1 0 0) (mkGameState ∅ ∅ ∅ 1000000000 ∅ 0 1) in
  let tx := mkTx (FundTreasury 1000) 7 1000 in
  execute l tx = Err (AbortCode ENotAuthorized) /\ step l tx = (l, []).
Proof.
  intros l tx. apply (only_the_admin l tx). vm_compute. discriminate.
Defined.

(** X10.  Funding unblocks a claim: when a claim is refused because the
    balance is below the payout and the treasury admin then funds the
    difference or more, the same claim is paid in full, and the balance ends
    at the old balance plus the funding minus the payout. *)
Theorem funding_unblocks_the_claim (l : Ledger) (claim fund : Tx) (payment : Z)
    (g0 : GameState) (e : DailyEarning) :
  call claim = CompleteSession ->
  call fund = FundTreasury payment ->
  sender fund = treasury_admin_address (treasury l) ->
  session_reward (game_state l) <= u64_max ->
  get_or_create_daily_earning (game_state l) (sender claim)
    (clock claim / 86400000) = Ok (g0, e) ->
  amount e < daily_cap -> sessions e < daily_session_limit ->
  let payout := Z.min (session_reward (game_state l) + 0) (daily_cap - amount e) in
  oct_balance (treasury l) < payout ->
  payout <= oct_balance (treasury l) + payment <= u64_max ->
  total_rewards_paid (treasury l) + payout <= u64_max ->
  total_users_rewarded (treasury l) + 1 <= u64_max ->
  execute l claim = Err (AbortCode ETreasuryInsufficient) /\
  exists l2,
    execute (fst (step l fund)) claim =
      Ok (l2, [mkTransfer (CoinOCT payout) (sender claim)]) /\
    oct_balance (treasury l2) = oct_balance (treasury l) + payment - payout.
Proof.
  intros Hclaim Hfund Hadmin Hreward Hget Hamount Hsessions payout
         Hpoor Hfunded Hpaid Hcount.
  split.
  - unfold execute. rewrite Hclaim.
    rewrite (complete_session_cases _ _ _ _ _ _ Hreward Hget).
    fold payout.
    replace (daily_cap <=? amount e) with false by (symmetry; apply Z.leb_gt; lia).
    replace (daily_session_limit <=? sessions e) with false
      by (symmetry; apply Z.leb_gt; lia).
    replace (oct_balance (treasury l) <? payout) with true
      by (symmetry; apply Z.ltb_lt; lia).
    reflexivity.
  - assert (Hstep : fst (step l fund) =
              mkLedger (mkTreasury (oct_balance (treasury l) + payment)
                                   (treasury_admin_address (treasury l))
                                   (total_rewards_paid (treasury l))
                                   (total_users_rewarded (treasury l)))
                       (game_state l)).
    { unfold step, execute. rewrite Hfund.
      unfold fund_treasury, assert, balance_join, add_u64. unfold_result.
      rewrite Hadmin, Z.eqb_refl.
      replace (oct_balance (treasury l) + payment <=? u64_max) with true
        by (symmetry; apply Z.leb_le; lia).
      reflexivity. }
    rewrite Hstep. unfold execute. rewrite Hclaim.
    cbn [treasury game_state].
    rewrite (complete_session_cases _ _ _ _ _ _ Hreward Hget).
    fold payout. cbn [oct_balance total_rewards_paid total_users_rewarded].
    replace (daily_cap <=? amount e) with false by (symmetry; apply Z.leb_gt; lia).
    replace (daily_session_limit <=? sessions e) with false
      by (symmetry; apply Z.leb_gt; lia).
    replace (oct_balance (treasury l) + payment <? payout) with false
      by (symmetry; apply Z.ltb_ge; lia).
    replace (u64_max <? total_rewards_paid (treasury l) + payout) with false
      by (symmetry; apply Z.ltb_ge; lia).
    replace (u64_max <? total_users_rewarded (treasury l) + 1) with false
      by (symmetry; apply Z.ltb_ge; lia).
    unfold_result. eexists. split; [reflexivity|]. cbn. lia.
Qed.

Lemma funding_unblocks_the_claim_witness :
  let l := mkLedger (mkTreasury 500 1 0 0) (mkGameState ∅ ∅ ∅ 1000000000 ∅ 0 1) in
  let claim := mkTx CompleteSession 7 2000 in
  let fund := mkTx (FundTreasury 2500000000) 1 1000 in
  execute l claim = Err (AbortCode ETreasuryInsufficient) /\
  exists l2,
    execute (fst (step l fund)) claim =
      Ok (l2, [mkTransfer (CoinOCT 1000000000) 7]) /\
    oct_balance (treasury l2) = 500 + 2500000000 - 1000000000.
Proof.
  intros l claim fund.
  apply (funding_unblocks_the_claim l claim fund 2500000000
           (mkGameState ∅ ∅ ∅ 1000000000 {[ 7 := mkEarning 0 0 0 ]} 0 1)
           (mkEarning 0 0 0));
    try reflexivity; vm_compute; intuition congruence.
Defined.

(** X11.  Toys are the only items minted: a purchase of [amount] toys
    (ids 6..10) hands the buyer [amount] toys of that id, a purchase of food
    hands over none.  Every toy handed over carries the happiness value of
    its id, between 10 and 30, and playing it with a cat whose happiness is
    within 0..100 never aborts and sets happiness to
    min(100, happiness + value). *)
Theorem bought_toys (g : GameState) (payment item_id amount : Z) (buyer : address)
    (sent : list Transfer) :
  purchase_item g payment item_id amount buyer = Ok sent ->
  let toys := flat_map (fun tr => match what tr with
                                  | Toy toy => [(toy, recipient tr)]
                                  | _ => []
                                  end) sent in
  length toys = (if (6 <=? item_id) && (item_id <=? 10) then Z.to_nat amount else 0%nat) /\
  Forall (fun '(toy, owner) =>
            owner = buyer /\
            game_item.toy_item_id toy = item_id /\
            game_item.happiness_value toy = get_toy_happiness_value item_id /\
            10 <= game_item.happiness_value toy <= 30 /\
            forall (cat : catnft.CatNFT) (player : address),
              0 <= catnft.happiness cat <= 100 ->
              play_with_cat_toy cat toy player =
                Ok [mkTransfer
                      (Cat (catnft.set_happiness
                              (Z.min 100 (catnft.happiness cat +
                                          game_item.happiness_value toy)) cat))
                      player])
         toys.
Proof.
  intros Hbought toys. subst toys.
  unfold purchase_item, mul_u64, assert in Hbought. unfold_result.
  destruct (item_price g item_id) as [price|] eqn:Hprice; [|discriminate].
  do 2 (case_if_in Hbought; [|discriminate]). injection Hbought as <-.
  cbn [flat_map what app].
  destruct ((6 <=? item_id) && (item_id <=? 10)) eqn:Htoy; [|split; constructor].
  split_bools.
  set (toy := game_item.mint_toy item_id (get_toy_happiness_value item_id)).
  assert (Hflat : forall n,
            flat_map (fun tr => match what tr with
                                | Toy toy => [(toy, recipient tr)]
                                | _ => []
                                end) (repeat (mkTransfer (Toy toy) buyer) n)
            = repeat (toy, buyer) n).
  { induction n as [|n IH]; cbn; [reflexivity | now rewrite IH]. }
  rewrite Hflat. split; [apply repeat_length|].
  apply List.Forall_forall. intros [toy' owner] Hin.
  apply repeat_spec in Hin. injection Hin as -> ->.
  assert (Hvalue : 10 <= get_toy_happiness_value item_id <= 30).
  { unfold get_toy_happiness_value. repeat (case_if; z_bools); lia. }
  subst toy. cbn [game_item.mint_toy game_item.toy_item_id game_item.happiness_value].
  repeat split; try lia.
  intros cat player Hhappy.
  unfold play_with_cat_toy.
  cbn [game_item.consume_toy game_item.toy_item_id game_item.happiness_value
       game_item.mint_toy].
  rewrite play_with_cat_result by (unfold u8_max; lia). reflexivity.
Qed.

Lemma bought_toys_witness :
  let g := mkGameState {[ 1 := 1000000000 ]} {[ 7 := 15 ]} ∅ 1000000000 ∅ 0 1 in
  length (flat_map (fun tr => match what tr with
                              | Toy toy => [(toy, recipient tr)]
                              | _ => []
                              end)
            [mkTransfer (CoinOCT 45) 1;
             mkTransfer (Toy (game_item.mkToy 7 15)) 9;
             mkTransfer (Toy (game_item.mkToy 7 15)) 9;
             mkTransfer (Toy (game_item.mkToy 7 15)) 9]) = 3%nat.
Proof.
  intros g.
  apply (bought_toys g 45 7 3 9). vm_compute. reflexivity.
Defined.


Lemma admin_set_item_price_round_trip_witness :
  let g := mkGameState {[ 3 := 3000000000 ]} ∅ ∅ 1000000000 ∅ 0 1 in
  exists g', admin_set_item_price g 3 777 1 = Ok g' /\ item_price g' 3 = Ok 777.
Proof.
  intros g.
  destruct (admin_set_item_price_round_trip g 3 777) as (g' & Hset & Hnew & _).
  exists g'. split; [exact Hset | apply Hnew; lia].
Defined.

End Economy.

(** ** Item ids and the purchases the client builds *)

Section ClientPurchases.
Import itemMapping purchaseHooks pomodoro_game ledger.

Lemma getStringId_cases (n : Z) (s : string) :
  getStringId n = Some s ->
  (n, s) ∈ [(1, "fish"); (2, "tuna"); (3, "salmon"); (4, "catnip");
            (5, "premium_food"); (6, "ball"); (7, "yarn"); (8, "laser");
            (9, "mouse"); (10, "scratch_post"); (0, "default")]%string.
Proof.
  unfold getStringId. cbn -[Z.eqb]. intros H.
  repeat (case_if_in H; z_bools;
          [subst n; cbn in H; injection H as <-;
           repeat (first [apply list_elem_of_here | apply list_elem_of_further])|]).
  discriminate.
Qed.

(** X12.  [getStringId] is defined exactly on 0..10 and [getItemId] maps its
    result back to the number.  The converse fails for cats: the numbers 1..3
    are taken by the foods, so [getStringId] of a cat type other than
    'default' is a food name, never the name of the cat. *)
Theorem getStringId_round_trip :
  (forall (n : Z) (s : string), getStringId n = Some s -> getItemId s = Some n) /\
  (forall n : Z, isValidNumericId n = true <-> 0 <= n <= 10) /\
  (forall (cat : string) (n : Z),
     getCatTypeId cat = Some n -> n <> 0 ->
     exists food, getStringId n = Some food /\ getFoodId food = Some n /\
                  food <> cat).
Proof.
  split; [|split].
  - intros n s Hs. apply getStringId_cases in Hs.
    repeat (apply elem_of_cons in Hs as [[= -> ->]|Hs]; [reflexivity|]).
    now apply elem_of_nil in Hs.
  - intros n. unfold isValidNumericId. split.
    + destruct (getStringId n) as [s|] eqn:Hs; [|discriminate].
      intros _. apply getStringId_cases in Hs.
      repeat (apply elem_of_cons in Hs as [[= -> ->]|Hs]; [lia|]).
      now apply elem_of_nil in Hs.
    + intros Hn.
      rewrite <- (Z2Nat.id n) by lia.
      assert (Hsmall : (Z.to_nat n < 11)%nat) by lia.
      destruct (Z.to_nat n) as [|k]; [reflexivity|].
      do 10 (destruct k as [|k]; [reflexivity|]). lia.
  - intros cat n Hcat Hn. unfold getCatTypeId in Hcat.
    cbn -[String.eqb] in Hcat.
    repeat (case_if_in Hcat;
            [apply String.eqb_eq in Heqb; subst cat; injection Hcat as <-;
             first [congruence
                   |eexists; split; [reflexivity|]; split; [reflexivity|discriminate]]
            |clear Heqb]).
    discriminate.
Qed.

Lemma getStringId_round_trip_witness :
  exists food, getStringId 1 = Some food /\ getFoodId food = Some 1 /\
               food <> "black"%string.
Proof.
  apply (proj2 (proj2 getStringId_round_trip) "black"%string 1);
    [reflexivity | discriminate].
Defined.


Lemma init_result (deployer : address) :
  init deployer =
  Ok (mkGameState
        (<[5 := 5000000000]> (<[4 := 4000000000]> (<[3 := 3000000000]>
           (<[2 := 2000000000]> (<[1 := 1000000000]> ∅)))))
        (<[10 := 30]> (<[9 := 25]> (<[8 := 20]> (<[7 := 15]> (<[6 := 10]> ∅)))))
        (<[3 := 150]> (<[2 := 75]> (<[1 := 50]> (<[0 := 0]> ∅))))
        1000000000 ∅ 0 deployer,
      mkTreasury 0 deployer 0 0).
Proof. reflexivity. Qed.



(** X14.  After [init], the cat purchase [usePurchaseCat] builds for a type
    0..3 goes through: the payment is the price on the ledger for types 1..3
    and one unit for the free default cat, and that unit is burnt like any
    payment.  The id of the minted cat is then filed under
    [getStringId(catTypeId)]: 'default' for type 0, but the food names
    'fish', 'tuna', 'salmon' for the types 1, 2, 3. *)
Theorem client_cat_purchase_after_init (deployer buyer now : Z)
    (g : GameState) (t t0 : Treasury) (catTypeId : Z) :
  init deployer = Ok (g, t0) ->
  0 <= catTypeId <= 3 ->
  exists payment,
    purchaseCat catTypeId true = Some (PurchaseCat payment catTypeId) /\
    execute (mkLedger t g) (mkTx (PurchaseCat payment catTypeId) buyer now) =
      Ok (mkLedger t g,
          [mkTransfer (CoinOCT payment) deployer;
           mkTransfer (Cat (catnft.mint catTypeId)) buyer]) /\
    cat_prices g !! catTypeId = Some (if catTypeId =? 0 then 0 else payment) /\
    (catTypeId = 0 -> payment = 1) /\
    catTokenKey catTypeId =
      (if catTypeId =? 0 then "default"%string
       else if catTypeId =? 1 then "fish"%string
       else if catTypeId =? 2 then "tuna"%string else "salmon"%string) /\
    (catTypeId <> 0 -> getCatTypeId (catTokenKey catTypeId) = None).
Proof.
  rewrite init_result. intros [= <- _] Hid.
  assert (Hcases : catTypeId = 0 \/ catTypeId = 1 \/ catTypeId = 2 \/ catTypeId = 3)
    by lia.
  destruct Hcases as [->|[->|[->| ->]]];
    eexists; (split; [reflexivity|]);
    (split; [reflexivity|]); (split; [reflexivity|]);
    (split; [intros; (reflexivity || discriminate)|]);
    (split; [reflexivity|]); intros; (reflexivity || contradiction).
Qed.

Lemma client_cat_purchase_after_init_witness :
  match init 1 with
  | Ok (g, _) =>
      exists payment,
        purchaseCat 1 true = Some (PurchaseCat payment 1) /\
        catTokenKey 1 = "fish"%string
  | Err _ => False
  end.
Proof.
  destruct (init 1) as [[g t0]|] eqn:Hinit; [|discriminate].
  destruct (client_cat_purchase_after_init 1 7 1000 g (mkTreasury 0 1 0 0) t0 1 Hinit)
    as (payment & Hcall & _ & _ & _ & Hkey & _); [lia|].
  exists payment. split; [exact Hcall | exact Hkey].
Defined.

End ClientPurchases.

(** ** The treasury monitor and the preflight check *)

Section Preflight.
Import treasuryMonitor pomodoro_game.

(** The balance in OCT that [getTreasuryBalance] computes from [b] units:
    the two roundings never carry it across a whole number of OCT. *)
Lemma oct_at_least (b K : Z) :
  1 <= K -> K * 1000000000 <= 2 ^ 53 -> K * 1000000000 <= b ->
  (inject_Z K <= Double.div (Double.parseFloat b) 1000000000)%Q.
Proof.
  intros HK Hfit Hb. unfold Double.div, Double.parseFloat.
  apply to_double_ge; [lia|].
  assert (Hparsed : (inject_Z (K * 1000000000) <= Double.to_double (inject_Z b))%Q).
  { apply to_double_ge; [lia|]. now rewrite <- Zle_Qle. }
  rewrite inject_Z_mult in Hparsed.
  apply Qle_shift_div_l; [reflexivity | exact Hparsed].
Qed.

Lemma oct_below (b K : Z) :
  1 <= K <= 2 ^ 24 -> b < K * 1000000000 -> b < 2 ^ 53 ->
  (Double.div (Double.parseFloat b) 1000000000 < inject_Z K)%Q.
Proof.
  intros HK Hb Hsafe. unfold Double.div, Double.parseFloat.
  assert (HK0 : (0 < inject_Z K)%Q).
  { change 0%Q with (inject_Z 0). rewrite <- Zlt_Qlt. lia. }
  destruct (Z.le_gt_cases b 0) as [Hneg|Hpos].
  - apply Qle_lt_trans with 0%Q; [|assumption].
    apply to_double_nonpos.
    assert (Hparsed : (Double.to_double (inject_Z b) <= 0)%Q).
    { apply to_double_nonpos. change 0%Q with (inject_Z 0).
      now rewrite <- Zle_Qle. }
    apply Qle_shift_div_r; [reflexivity|]. now rewrite Qmult_0_l.
  - rewrite to_double_integer by lia.
    assert (Hy : (0 < inject_Z b)%Q).
    { change 0%Q with (inject_Z 0). now rewrite <- Zlt_Qlt. }
    apply to_double_lt; [lia | |].
    + apply Qlt_shift_div_l; [reflexivity|]. now rewrite Qmult_0_l.
    + assert (Hnext : (inject_Z (b + 1) <= inject_Z (K * 1000000000))%Q)
        by (rewrite <- Zle_Qle; lia).
      rewrite inject_Z_plus, inject_Z_mult in Hnext.
      change (inject_Z 1) with 1%Q in Hnext.
      change (inject_Z 1000000000) with 1000000000%Q in Hnext.
      assert (Hsum : (inject_Z b / 1000000000 + (1 # 1000000000)
                      == (inject_Z b + 1) / 1000000000)%Q) by field.
      rewrite Hsum.
      apply Qle_shift_div_r; [reflexivity | exact Hnext].
Qed.

Ltac oct_cases :=
  repeat match goal with
  | |- context [Qlt_le_dec (Double.div (Double.parseFloat ?b) 1000000000) ?k] =>
      let H := fresh "Hoct" in
      destruct (Qlt_le_dec (Double.div (Double.parseFloat b) 1000000000) k)
        as [H|H]
  end.

(** Where the balance in OCT lies tells where the balance in units lies. *)
Lemma oct_lt (b K : Z) :
  1 <= K <= 10 ->
  (Double.div (Double.parseFloat b) 1000000000 < inject_Z K)%Q ->
  b < K * 1000000000.
Proof.
  intros HK Hlt.
  destruct (Z.lt_ge_cases b (K * 1000000000)) as [|Hge]; [assumption|exfalso].
  pose proof (oct_at_least b K ltac:(lia) ltac:(lia) ltac:(lia)). lra.
Qed.

Lemma oct_le (b K : Z) :
  1 <= K <= 10 ->
  (inject_Z K <= Double.div (Double.parseFloat b) 1000000000)%Q ->
  K * 1000000000 <= b.
Proof.
  intros HK Hle.
  destruct (Z.le_gt_cases (K * 1000000000) b) as [|Hlt]; [assumption|exfalso].
  pose proof (oct_below b K ltac:(lia) ltac:(lia) ltac:(lia)). lra.
Qed.

Lemma status_thresholds (b : Z) :
  status (getTreasuryBalance (Replies false (DataWithFields (Some b)))) =
  (if b <? 1000000000 then empty
   else if b <? 5000000000 then critical
   else if b <? 10000000000 then low else healthy).
Proof.
  unfold getTreasuryBalance. cbv zeta. cbn [status].
  change 10%Q with (inject_Z 10). change 5%Q with (inject_Z 5).
  change 1%Q with (inject_Z 1).
  oct_cases;
    repeat match goal with
    | H : (_ < inject_Z _)%Q |- _ => apply oct_lt in H; [|lia]
    | H : (inject_Z _ <= _)%Q |- _ => apply oct_le in H; [|lia]
    end;
    repeat (case_if; z_bools); try reflexivity; lia.
Qed.

(** X15.  [getTreasuryBalance] in units of the ledger: a reply with fields
    and balance [b] gives the balance in OCT as the double nearest to the
    quotient of the double nearest to [b] by 10^9, and 'empty' below 1 OCT
    (1_000_000_000 units), 'critical' below 5, 'low' below 10 and 'healthy'
    from 10 OCT on, whatever [b] is.  For [b] up to
    [Number.MAX_SAFE_INTEGER], [canReward] is the number of whole OCT,
    [b / 1_000_000_000]; beyond, it can be one more: 10000000 for
    9_999_999_999_999_999 units.  A missing [oct_balance] counts as 0.  Every
    other reply, and a failing RPC, gives status 'error' with balance 0. *)
Theorem getTreasuryBalance_thresholds :
  (forall b : Z,
     let data := getTreasuryBalance (Replies false (DataWithFields (Some b))) in
     balance data = Double.div (Double.parseFloat b) 1000000000 /\
     failed data = false /\
     status data = (if b <? 1000000000 then empty
                    else if b <? 5000000000 then critical
                    else if b <? 10000000000 then low else healthy) /\
     (0 <= b <= Double.MAX_SAFE_INTEGER ->
      balance data = Double.div (inject_Z b) 1000000000 /\
      canReward data = b / 1000000000)) /\
  canReward (getTreasuryBalance
               (Replies false (DataWithFields (Some 9999999999999999))))
    = 10000000 /\
  getTreasuryBalance (Replies false (DataWithFields None)) =
    mkTreasuryData 0 0 empty false /\
  (forall reply : GetObject,
     (forall oct_balance, reply <> Replies false (DataWithFields oct_balance)) ->
     getTreasuryBalance reply = mkTreasuryData 0 0 error true).
Proof.
  split; [|split; [|split]].
  - intros b data. subst data.
    split; [reflexivity|]. split; [reflexivity|].
    split; [apply status_thresholds|].
    intros Hb. unfold Double.MAX_SAFE_INTEGER in Hb.
    unfold getTreasuryBalance. cbv zeta. cbn [balance canReward].
    split.
    + unfold Double.parseFloat. now rewrite to_double_integer by lia.
    + pose proof (Z.mul_div_le b 1000000000 ltac:(lia)) as Hlow.
      pose proof (Z.mul_succ_div_gt b 1000000000 ltac:(lia)) as Hup.
      pose proof (Z.div_pos b 1000000000 ltac:(lia) ltac:(lia)) as Hk.
      set (k := b / 1000000000) in *.
      apply Qfloor_unique.
      * destruct (Z.eq_dec k 0) as [->|Hnonzero].
        -- apply to_double_nonneg.
           apply Qle_shift_div_l; [reflexivity|]. rewrite Qmult_0_l.
           apply to_double_nonneg. change 0%Q with (inject_Z 0).
           rewrite <- Zle_Qle. lia.
        -- apply oct_at_least; lia.
      * apply oct_below; lia.
  - vm_compute. reflexivity.
  - vm_compute. reflexivity.
  - intros reply Hother.
    destruct reply as [|[|] [| |oct_balance]]; try reflexivity.
    now destruct (Hother oct_balance).
Qed.

Lemma getTreasuryBalance_thresholds_witness :
  getTreasuryBalance Rejects = mkTreasuryData 0 0 error true /\
  status (getTreasuryBalance (Replies false (DataWithFields (Some 4999999999))))
    = critical /\
  canReward (getTreasuryBalance (Replies false (DataWithFields (Some 4999999999))))
    = 4.
Proof.
  destruct getTreasuryBalance_thresholds as (Hfields & _ & _ & Hother).
  split; [|split].
  - apply (Hother Rejects). discriminate.
  - apply (Hfields 4999999999).
  - apply (Hfields 4999999999). vm_compute. split; discriminate.
Defined.

Lemma canTreasuryReward_one (treasuryObject : GetObject) :
  canProceed (canTreasuryReward treasuryObject 1) = true <->
  exists b, treasuryObject = Replies false (DataWithFields (Some b)) /\
            1000000000 <= b.
Proof.
  unfold canTreasuryReward.
  destruct treasuryObject as [|[|] [| |[b|]]]; cbn [getTreasuryBalance failed];
    try (split; [discriminate | intros (b' & [=] & _)]).
  - cbv zeta. cbn [failed balance]. change 1%Q with (inject_Z 1).
    change 5%Q with (inject_Z 5).
    oct_cases; cbn [canProceed];
      repeat match goal with
      | H : (_ < inject_Z _)%Q |- _ => apply oct_lt in H; [|lia]
      | H : (inject_Z _ <= _)%Q |- _ => apply oct_le in H; [|lia]
      end.
    + split; [discriminate | intros (b' & [= <-] & ?); lia].
    + split; [intros _; exists b; split; [reflexivity | lia] | reflexivity].
    + split; [intros _; exists b; split; [reflexivity | lia] | reflexivity].
Qed.

Lemma preflight_as_booleans (treasuryObject gameStateObject : GetObject)
    (wallet_isConnected account_address : bool) :
  let p := preflightCheckCompleteSession treasuryObject gameStateObject
             wallet_isConnected account_address in
  preflight_canProceed p =
    wallet_isConnected && account_address &&
    canProceed (canTreasuryReward treasuryObject 1) &&
    match gameStateObject with
    | Rejects | Replies _ NoData => false
    | Replies _ _ => true
    end /\
  preflight_canProceed p = allChecks p /\ (length (errors p) <= 4)%nat.
Proof.
  intros p. subst p. unfold preflightCheckCompleteSession.
  destruct wallet_isConnected, account_address,
    (canProceed (canTreasuryReward treasuryObject 1)),
    gameStateObject as [|failed [| |oct]]; cbn; repeat split; lia.
Qed.

(** X16.  The preflight check passes exactly when the wallet is connected,
    the account has an address, the treasury reply has fields with a balance
    of at least 1 OCT, and the game state reply carries data (whether or not
    it also carries an error); [canProceed] and [allChecks] always agree, and
    at most four errors are reported. *)
Theorem preflight_passes_iff (treasuryObject gameStateObject : GetObject)
    (wallet_isConnected account_address : bool) :
  let p := preflightCheckCompleteSession treasuryObject gameStateObject
             wallet_isConnected account_address in
  preflight_canProceed p = allChecks p /\
  (preflight_canProceed p = true <->
   wallet_isConnected = true /\ account_address = true /\
   (exists b, treasuryObject = Replies false (DataWithFields (Some b)) /\
              1000000000 <= b) /\
   (exists failed data, gameStateObject = Replies failed data /\ data <> NoData)) /\
  (length (errors p) <= 4)%nat.
Proof.
  intros p.
  pose proof (preflight_as_booleans treasuryObject gameStateObject
                wallet_isConnected account_address) as Hbool.
  cbv zeta in Hbool. fold p in Hbool.
  destruct Hbool as (Hbool & Hall & Hlen).
  split; [exact Hall|]. split; [|exact Hlen].
  rewrite Hbool, !andb_true_iff, canTreasuryReward_one.
  assert (Hdata : match gameStateObject with
                  | Rejects | Replies _ NoData => false
                  | Replies _ _ => true
                  end = true <->
                  exists failed data, gameStateObject = Replies failed data /\
                                      data <> NoData).
  { destruct gameStateObject as [|failed [| |oct]].
    - split; [discriminate | intros (f & d & [=] & _)].
    - split; [discriminate | intros (f & d & [= <- <-] & Hd); now destruct Hd].
    - split; [|reflexivity]. intros _. do 2 eexists. split; [reflexivity|discriminate].
    - split; [|reflexivity]. intros _. do 2 eexists. split; [reflexivity|discriminate]. }
  rewrite Hdata. tauto.
Qed.

Lemma preflight_passes_iff_witness :
  preflight_canProceed
    (preflightCheckCompleteSession (Replies false (DataWithFields (Some 2000000000)))
                                   (Replies true DataWithoutFields) true true)
  = true.
Proof.
  apply (preflight_passes_iff (Replies false (DataWithFields (Some 2000000000)))
                              (Replies true DataWithoutFields) true true).
  repeat split.
  - exists 2000000000. split; [reflexivity | lia].
  - exists true, DataWithoutFields. split; [reflexivity | discriminate].
Defined.

(** X17.  A passed preflight rules out an underfunded claim only for a
    reward of at most 1 OCT: if the treasury the preflight saw is the one the
    claim runs on and [session_reward] is at most 1_000_000_000, the claim
    does not abort with [ETreasuryInsufficient]; with a reward of 2 OCT and
    a balance of 1.5 OCT the preflight passes and the claim aborts. *)
Theorem preflight_and_the_reward :
  (forall (t : Treasury) (g : GameState) (clock : Z) (user : address)
          (gameStateObject : GetObject) (wallet_isConnected account_address : bool),
     preflight_canProceed
       (preflightCheckCompleteSession
          (Replies false (DataWithFields (Some (oct_balance t))))
          gameStateObject wallet_isConnected account_address) = true ->
     session_reward g <= 1000000000 ->
     complete_session t g clock user <> Err (AbortCode ETreasuryInsufficient)) /\
  (let t := mkTreasury 1500000000 1 0 0 in
   let g := mkGameState ∅ ∅ ∅ 2000000000 ∅ 0 1 in
   preflight_canProceed
     (preflightCheckCompleteSession
        (Replies false (DataWithFields (Some (oct_balance t))))
        (Replies false DataWithoutFields) true true) = true /\
   complete_session t g 1000 7 = Err (AbortCode ETreasuryInsufficient)).
Proof.
  split; [|split; reflexivity].
  intros t g clock user gameStateObject w a Hpass Hreward.
  destruct (preflight_as_booleans
              (Replies false (DataWithFields (Some (oct_balance t))))
              gameStateObject w a) as (Hbool & _).
  rewrite Hbool, !andb_true_iff in Hpass.
  destruct Hpass as [[_ Hfunded] _].
  apply canTreasuryReward_one in Hfunded as (b & [= <-] & Hb).
  destruct (get_or_create_daily_earning g user (clock / 86400000))
    as [[g0 e]|] eqn:Hget.
  2: { rewrite get_or_create_daily_earning_result in Hget. discriminate. }
  rewrite (complete_session_cases t g g0 clock user e);
    [|unfold u64_max; lia | exact Hget].
  cbv zeta. unfold ETreasuryInsufficient.
  repeat (case_if; z_bools); try discriminate.
  unfold daily_cap in *. lia.
Qed.

Lemma preflight_and_the_reward_witness :
  complete_session (mkTreasury 1000000000 1 0 0)
                   (mkGameState ∅ ∅ ∅ 1000000000 ∅ 0 1) 1000 7
  <> Err (AbortCode ETreasuryInsufficient).
Proof.
  apply (proj1 preflight_and_the_reward (mkTreasury 1000000000 1 0 0)
           (mkGameState ∅ ∅ ∅ 1000000000 ∅ 0 1) 1000 7
           (Replies false DataWithoutFields) true true);
    [reflexivity | vm_compute; discriminate].
Defined.

End Preflight.

(** ** The local cache: coins and inventory *)

Section LocalCache.
Import gameState localCache.

(** X18.  [spendCoins] never overdraws: it succeeds exactly when the coins
    cover the amount, then holds the double nearest to [coins - amount],
    which is not negative; it fails leaving the state untouched.  On whole
    numbers of coins up to [Number.MAX_SAFE_INTEGER] the difference is the
    exact one, and coins that were added can be spent again, the state then
    being what it was.  On fractions it need not be: 0.1 added to 0.2 and
    spent again leaves 0.20000000000000004. *)
Theorem spendCoins_never_overdraws (amount : Q) (state : State) :
  let state' := fst (spendCoins amount state) in
  let ok := snd (spendCoins amount state) in
  (ok = true <-> (amount <= coins state)%Q) /\
  (ok = true ->
   coins state' = Double.sub (coins state) amount /\ (0 <= coins state')%Q) /\
  (ok = false -> state' = state) /\
  completedSessions state' = completedSessions state /\
  (forall c a : Z,
     coins state = inject_Z c -> amount = inject_Z a ->
     0 <= c -> 0 <= a -> c + a <= Double.MAX_SAFE_INTEGER ->
     (ok = true -> coins state' = inject_Z (c - a)) /\
     spendCoins amount (fst (addCoins amount state)) = (state, true)) /\
  (let fifth := Double.to_double (2 # 10) in
   let tenth := Double.to_double (1 # 10) in
   let back := fst (spendCoins tenth
                      (fst (addCoins tenth
                              (mkState fifth (completedSessions state)
                                       (catStats state))))) in
   coins back = (7205759403792795 # 36028797018963968)%Q /\
   ~ (coins back == fifth)%Q).
Proof.
  unfold spendCoins, addCoins. cbn [fst snd coins set_coins].
  split; [|split; [|split; [|split; [|split]]]].
  - destruct (Qle_bool amount (coins state)) eqn:Hle; cbn [snd].
    + apply Qle_bool_iff in Hle. tauto.
    + split; [discriminate|]. intros Hcover%Qle_bool_iff. congruence.
  - destruct (Qle_bool amount (coins state)) eqn:Hle; cbn [fst snd];
      [|discriminate].
    apply Qle_bool_iff in Hle. intros _. cbn [coins set_coins].
    split; [reflexivity|]. apply to_double_nonneg.
    now apply (proj1 (Qle_minus_iff _ _)).
  - destruct (Qle_bool amount (coins state)); cbn [fst snd];
      [discriminate | reflexivity].
  - destruct (Qle_bool amount (coins state)); reflexivity.
  - intros c a Hc Ha Hc0 Ha0 Hsafe. unfold Double.MAX_SAFE_INTEGER in Hsafe.
    rewrite Hc, Ha. split.
    + destruct (Qle_bool (inject_Z a) (inject_Z c)) eqn:Hle; cbn [fst snd];
        [|discriminate].
      intros _. cbn [coins set_coins].
      apply Qle_bool_iff in Hle. rewrite <- Zle_Qle in Hle.
      apply sub_integers. lia.
    + rewrite add_integers by lia.
      assert (Hle : Qle_bool (inject_Z a) (inject_Z (c + a)) = true)
        by (apply Qle_bool_iff; rewrite <- Zle_Qle; lia).
      rewrite Hle. rewrite sub_integers by lia.
      replace (c + a - a) with c by lia.
      destruct state as [coins0 sessions stats]. cbn in Hc |- *.
      now rewrite Hc.
  - split; [vm_compute; reflexivity | vm_compute; discriminate].
Qed.

Lemma spendCoins_never_overdraws_witness :
  let state := mkState 5 3 None in
  snd (spendCoins 7 state) = false /\ fst (spendCoins 7 state) = state /\
  spendCoins 7 (fst (addCoins 7 state)) = (state, true).
Proof.
  intros state.
  destruct (spendCoins_never_overdraws 7 state)
    as (_ & _ & Hfail & _ & Hround & _).
  split; [reflexivity|]. split; [apply Hfail; reflexivity|].
  apply (Hround 5 7); try reflexivity; vm_compute; discriminate.
Defined.

Lemma items_set_items (type : ItemType) (m : gmap string Z) (inv : Inventory) :
  items type (set_items type m inv) = m.
Proof. now destruct type. Qed.

Lemma set_items_items (type : ItemType) (inv : Inventory) :
  set_items type (items type inv) inv = inv.
Proof. now destruct type, inv. Qed.

Lemma set_items_twice (type : ItemType) (m m' : gmap string Z) (inv : Inventory) :
  set_items type m' (set_items type m inv) = set_items type m' inv.
Proof. now destruct type. Qed.

(** What [addToInventory] stores: one more than the quantity it found. *)
Lemma addToInventory_result (type : ItemType) (itemId : string) (inv : Inventory) :
  addToInventory type itemId inv =
  set_items type (<[itemId := getItemQuantity type itemId inv + 1]> (items type inv))
            inv.
Proof.
  unfold addToInventory, getItemQuantity.
  destruct (items type inv !! itemId) as [[|q|q]|] eqn:Hq;
    rewrite ?lookup_insert_eq, ?Hq, ?insert_insert_eq; reflexivity.
Qed.

Lemma removeFromInventory_result (type : ItemType) (itemId : string)
    (inv : Inventory) :
  removeFromInventory type itemId inv =
  if 0 <? getItemQuantity type itemId inv
  then (set_items type
          (if getItemQuantity type itemId inv =? 1
           then delete itemId (items type inv)
           else <[itemId := getItemQuantity type itemId inv - 1]> (items type inv))
          inv, true)
  else (inv, false).
Proof.
  unfold removeFromInventory, getItemQuantity.
  destruct (items type inv !! itemId) as [q|] eqn:Hq; [|reflexivity].
  destruct (0 <? q) eqn:Hpos; z_bools.
  - replace (negb (q =? 0)) with true
      by (symmetry; apply negb_true_iff, Z.eqb_neq; lia).
    cbn [andb]. destruct (q =? 1) eqn:Hone; z_bools.
    + subst q. cbn. now rewrite delete_insert_eq.
    + replace (q - 1 =? 0) with false by (symmetry; apply Z.eqb_neq; lia).
      reflexivity.
  - now rewrite andb_false_r.
Qed.

(** X19.  Adding an item and removing it again restores the inventory
    exactly, the entry of an item that was absent being deleted again,
    provided the inventory holds no entry with a zero or negative
    quantity. *)
Theorem add_then_remove (type : ItemType) (itemId : string) (inv : Inventory) :
  no_empty_entry type inv ->
  removeFromInventory type itemId (addToInventory type itemId inv) = (inv, true).
Proof.
  intros Hpos.
  rewrite removeFromInventory_result, addToInventory_result.
  unfold getItemQuantity.
  rewrite !items_set_items, !lookup_insert_eq, set_items_twice.
  destruct (items type inv !! itemId) as [q|] eqn:Hq.
  - specialize (Hpos _ _ Hq).
    replace (0 <? q + 1) with true by (symmetry; apply Z.ltb_lt; lia).
    replace (q + 1 =? 1) with false by (symmetry; apply Z.eqb_neq; lia).
    rewrite insert_insert_eq. replace (q + 1 - 1) with q by lia.
    rewrite insert_id by assumption. now rewrite set_items_items.
  - change (0 <? 0 + 1) with true. change (0 + 1 =? 1) with true. cbv iota.
    rewrite delete_insert_id by assumption. now rewrite set_items_items.
Qed.

Lemma add_then_remove_witness :
  let inv := mkInventory {[ "fish"%string := 2 ]} ∅ ["default"%string] in
  removeFromInventory type_foods "tuna" (addToInventory type_foods "tuna" inv)
    = (inv, true).
Proof.
  intros inv. apply (add_then_remove type_foods "tuna"%string inv).
  intros id q Hq. unfold inv in Hq. cbn in Hq.
  apply lookup_singleton_Some in Hq as [_ <-]. lia.
Defined.

(** X20.  Quantities under [addToInventory] and [removeFromInventory]:
    adding raises the quantity of the item by one; removing succeeds exactly
    when the quantity is positive and then lowers it by one, and otherwise
    changes nothing; neither touches another item, and both keep every
    stored quantity positive. *)
Theorem inventory_quantities (type : ItemType) (itemId : string) (inv : Inventory) :
  let added := addToInventory type itemId inv in
  let removed := fst (removeFromInventory type itemId inv) in
  let ok := snd (removeFromInventory type itemId inv) in
  getItemQuantity type itemId added = getItemQuantity type itemId inv + 1 /\
  (ok = true <-> 0 < getItemQuantity type itemId inv) /\
  (ok = true ->
   getItemQuantity type itemId removed = getItemQuantity type itemId inv - 1) /\
  (ok = false -> removed = inv) /\
  (forall other, other <> itemId ->
     items type added !! other = items type inv !! other /\
     items type removed !! other = items type inv !! other) /\
  (no_empty_entry type inv ->
   no_empty_entry type added /\ no_empty_entry type removed).
Proof.
  intros added removed ok. subst added removed ok.
  rewrite removeFromInventory_result, addToInventory_result.
  set (q := getItemQuantity type itemId inv).
  split.
  { unfold getItemQuantity at 1. now rewrite items_set_items, lookup_insert_eq. }
  destruct (0 <? q) eqn:Hpos; z_bools; cbn [fst snd].
  - split; [tauto|]. split.
    { intros _. unfold getItemQuantity at 1. rewrite items_set_items.
      destruct (q =? 1) eqn:Hone; z_bools.
      - rewrite lookup_delete_eq. lia.
      - now rewrite lookup_insert_eq. }
    split; [discriminate|]. split.
    { intros other Hother. rewrite !items_set_items.
      split; [now rewrite lookup_insert_ne|].
      destruct (q =? 1); [now rewrite lookup_delete_ne | now rewrite lookup_insert_ne]. }
    intros Hinv. split; intros id x; rewrite items_set_items.
    + destruct (decide (itemId = id)) as [->|Hne].
      * rewrite lookup_insert_eq. intros [= <-]. lia.
      * rewrite lookup_insert_ne by assumption. apply Hinv.
    + destruct (q =? 1) eqn:Hone; z_bools.
      * destruct (decide (itemId = id)) as [->|Hne].
        -- now rewrite lookup_delete_eq.
        -- rewrite lookup_delete_ne by assumption. apply Hinv.
      * destruct (decide (itemId = id)) as [->|Hne].
        -- rewrite lookup_insert_eq. intros [= <-]. lia.
        -- rewrite lookup_insert_ne by assumption. apply Hinv.
  - split; [split; [discriminate | lia]|]. split; [discriminate|].
    split; [reflexivity|]. split.
    { intros other Hother. rewrite !items_set_items.
      split; [now rewrite lookup_insert_ne | reflexivity]. }
    intros Hinv. split; [|exact Hinv]. intros id x. rewrite items_set_items.
    destruct (decide (itemId = id)) as [->|Hne].
    + rewrite lookup_insert_eq. intros [= <-].
      unfold q, getItemQuantity in *.
      destruct (items type inv !! id) as [y|] eqn:Hy; [|lia].
      specialize (Hinv _ _ Hy). lia.
    + rewrite lookup_insert_ne by assumption. apply Hinv.
Qed.

Lemma inventory_quantities_witness :
  let inv := mkInventory {[ "fish"%string := 1 ]} ∅ ["default"%string] in
  getItemQuantity type_foods "fish" (fst (removeFromInventory type_foods "fish" inv))
    = 1 - 1 /\
  fst (removeFromInventory type_foods "tuna" inv) = inv.
Proof.
  intros inv.
  destruct (inventory_quantities type_foods "fish"%string inv)
    as (_ & _ & Hless & _).
  destruct (inventory_quantities type_foods "tuna"%string inv)
    as (_ & _ & _ & Hsame & _).
  split; [apply Hless; reflexivity | apply Hsame; reflexivity].
Defined.

End LocalCache.

(** ** The local cache: migration, the death check, the history *)

Section LocalCacheLife.
Import gameState localCache.

Lemma migrate_from (ids : list string) (obj : gmap string Z) (id : string) :
  let result :=
    fold_left (fun obj id =>
                 <[id := (match obj !! id with
                          | None | Some 0 => 0
                          | Some q => q
                          end) + 1]> obj)
              ids obj in
  from_option (fun q => q) 0 (result !! id)
  = from_option (fun q => q) 0 (obj !! id) + Z.of_nat (count_occ string_dec ids id) /\
  (is_Some (result !! id) <-> is_Some (obj !! id) \/ In id ids).
Proof.
  revert obj. induction ids as [|id' ids IH]; intros obj; cbn [fold_left count_occ].
  - cbn. split; [lia | tauto].
  - destruct (IH (<[id' := (match obj !! id' with
                            | None | Some 0 => 0
                            | Some q => q
                            end) + 1]> obj)) as [Hcount Hsome].
    cbn zeta in Hcount, Hsome. rewrite Hcount, Hsome. clear Hcount Hsome IH.
    destruct (string_dec id' id) as [->|Hne].
    + rewrite lookup_insert_eq. cbn [from_option In].
      split.
      * destruct (obj !! id) as [[|q|q]|]; cbn [from_option]; lia.
      * split; [intros _; right; now left|intros _; left; eauto].
    + rewrite lookup_insert_ne by assumption. cbn [In].
      split; [lia | intuition congruence].
Qed.

(** X21.  The migration of an inventory stored as an array counts the
    occurrences of each id: after it the quantity of an id is the number of
    times the array held it, and ids the array did not hold have no entry
    (so no quantity is 0). *)
Theorem migrate_counts (ids : list string) (id : string) :
  let n := count_occ string_dec ids id in
  migrate ids !! id = (if (n =? 0)%nat then None else Some (Z.of_nat n)).
Proof.
  intros n. subst n.
  destruct (migrate_from ids ∅ id) as [Hcount Hsome]. cbn zeta in Hcount, Hsome.
  fold (migrate ids) in Hcount, Hsome.
  rewrite lookup_empty in Hcount, Hsome. cbn [from_option] in Hcount.
  assert (Hids : is_Some (migrate ids !! id) <-> In id ids).
  { rewrite Hsome. split; [intros [[? [=]]|]; assumption | now right]. }
  rewrite (count_occ_In string_dec) in Hids.
  destruct (Nat.eqb_spec (count_occ string_dec ids id) 0) as [Hzero|Hpos].
  - destruct (migrate ids !! id) eqn:Hq; [|reflexivity].
    exfalso. assert (is_Some (Some z)) as Hz by eauto. apply Hids in Hz. lia.
  - destruct (proj2 Hids) as [q Hq]; [lia|].
    rewrite Hq in Hcount |- *. cbn [from_option] in Hcount. f_equal. lia.
Qed.

Lemma three_days (now fed : Z) :
  3 <= (now - fed) / millisecondsPerDay <-> fed + 3 * millisecondsPerDay <= now.
Proof.
  unfold millisecondsPerDay. change (1000 * 60 * 60 * 24) with 86400000.
  split; intros H.
  - assert (86400000 * ((now - fed) / 86400000) <= now - fed)
      by (apply Z.mul_div_le; lia).
    lia.
  - apply Z.div_le_lower_bound; lia.
Qed.

Lemma checkCatDeath_alive (now : Z) (state : State) (stats : CatStats) :
  catStats state = Some stats ->
  isAlive stats = true ->
  lastFedTime stats <> 0 ->
  checkCatDeath now state =
    let days := (now - lastFedTime stats) / millisecondsPerDay in
    if 3 <=? days
    then (set_catStats (mkStats (hunger stats) (happiness stats) false
                                (lastFedTime stats) days) state,
          Some (mkStats (hunger stats) (happiness stats) false
                        (lastFedTime stats) days))
    else (state, Some (mkStats (hunger stats) (happiness stats) true
                               (lastFedTime stats) days)).
Proof.
  intros Hstats Halive Hfed. unfold checkCatDeath.
  rewrite Hstats, Halive. cbn [negb].
  apply Z.eqb_neq in Hfed. rewrite Hfed.
  cbn [hunger happiness isAlive lastFedTime daysWithoutFeeding]. reflexivity.
Qed.

(** X22.  A living cat fed at [fed] survives every death check made before
    [fed] + 3 days, and those checks save nothing; the first check made at
    or after [fed] + 3 days reports it dead and saves that, with at least 3
    days without feeding and hunger and happiness as the meal left them. *)
Theorem fed_cat_dies_after_three_days (foodValue : Q) (fed now loaded_at : Z)
    (state : State) :
  let fed_state := fst (feedCat foodValue fed loaded_at state) in
  let fed_stats := snd (feedCat foodValue fed loaded_at state) in
  isAlive fed_stats = true ->
  fed <> 0 ->
  exists checked,
    snd (checkCatDeath now fed_state) = Some checked /\
    hunger checked = hunger fed_stats /\
    happiness checked = happiness fed_stats /\
    lastFedTime checked = fed /\
    (isAlive checked = false <-> fed + 3 * millisecondsPerDay <= now) /\
    (now < fed + 3 * millisecondsPerDay ->
       fst (checkCatDeath now fed_state) = fed_state) /\
    (fed + 3 * millisecondsPerDay <= now ->
       catStats (fst (checkCatDeath now fed_state)) = Some checked /\
       3 <= daysWithoutFeeding checked).
Proof.
  intros fed_state fed_stats Halive Hfed. subst fed_state fed_stats.
  unfold feedCat in *.
  set (stats := match catStats state with
                | Some c => c
                | None => DEFAULT_catStats loaded_at
                end) in *.
  destruct (isAlive stats) eqn:Hstats; cbn [negb fst snd] in *.
  2: { rewrite Hstats in Halive. discriminate. }
  cbn [hunger happiness isAlive lastFedTime daysWithoutFeeding] in *.
  erewrite checkCatDeath_alive; [|reflexivity|assumption|assumption].
  cbn [hunger happiness isAlive lastFedTime daysWithoutFeeding]. cbn zeta.
  pose proof (three_days now fed) as Hdays.
  destruct (3 <=? (now - fed) / millisecondsPerDay) eqn:Hdead; z_bools;
    eexists; (split; [reflexivity|]);
    cbn [fst snd hunger happiness isAlive lastFedTime daysWithoutFeeding
         catStats set_catStats];
    repeat split; try tauto; try lia; try congruence.
Qed.

Lemma fed_cat_dies_after_three_days_witness :
  exists checked,
    snd (checkCatDeath 259200001
           (fst (feedCat 20 1 0 (mkState 0 0 None)))) = Some checked /\
    isAlive checked = false.
Proof.
  destruct (fed_cat_dies_after_three_days 20 1 259200001 0 (mkState 0 0 None))
    as (checked & Hchecked & _ & _ & _ & Hdead & _).
  - reflexivity.
  - lia.
  - exists checked. split; [exact Hchecked|]. apply Hdead. vm_compute. discriminate.
Defined.

(** X23.  [reviveCat] costs nothing and resets the cat whatever its state:
    hunger and happiness 50, alive, fed now.  The dead cat that [feedCat]
    and [checkCatDeath] leave untouched is alive after it, and the next
    death check kills it again exactly when 3 days have passed since the
    revival. *)
Theorem revived_cat (revived now loaded_at : Z) (foodValue : Q) (state : State)
    (stats : CatStats) :
  catStats state = Some stats ->
  isAlive stats = false ->
  revived <> 0 ->
  feedCat foodValue now loaded_at state = (state, stats) /\
  checkCatDeath now state = (state, Some stats) /\
  let revived_state := fst (reviveCat revived state) in
  coins revived_state = coins state /\
  catStats revived_state = Some (mkStats 50 50 true revived 0) /\
  exists checked,
    snd (checkCatDeath now revived_state) = Some checked /\
    (isAlive checked = false <-> revived + 3 * millisecondsPerDay <= now).
Proof.
  intros Hstats Hdead Hrevived. split; [|split].
  - unfold feedCat. rewrite Hstats, Hdead. reflexivity.
  - unfold checkCatDeath. rewrite Hstats, Hdead. reflexivity.
  - unfold reviveCat. rewrite Hstats. cbn [fst coins catStats set_catStats].
    split; [reflexivity|split; [reflexivity|]].
    erewrite checkCatDeath_alive; [|reflexivity|reflexivity|assumption].
    cbn [hunger happiness isAlive lastFedTime daysWithoutFeeding]. cbn zeta.
    pose proof (three_days now revived) as Hdays.
    destruct (3 <=? (now - revived) / millisecondsPerDay) eqn:Hlate; z_bools;
      eexists; (split; [reflexivity|]); cbn [isAlive]; split;
      try tauto; try congruence.
    intros Hthree. apply Hdays in Hthree. lia.
Qed.

Lemma revived_cat_witness :
  let dead := mkStats 100 0 false 1 3 in
  fst (reviveCat 5 (mkState 0 0 (Some dead)))
  = mkState 0 0 (Some (mkStats 50 50 true 5 0)).
Proof.
  intros dead.
  destruct (revived_cat 5 6 0 20 (mkState 0 0 (Some dead)) dead)
    as (_ & _ & _ & Hrevived & _).
  - reflexivity.
  - reflexivity.
  - lia.
  - cbn in Hrevived |- *. unfold set_catStats. cbn. reflexivity.
Defined.

End LocalCacheLife.

(** ** The transaction history *)

Section TransactionHistory.
Import transactionHistory.
Context {Fields : Type}.

Lemma firstn_subset (n : nat) (l : list (Transaction Fields)) (x : Transaction Fields) :
  In x (firstn n l) -> In x l.
Proof.
  revert l. induction n as [|n IH]; intros [|y l]; cbn [firstn In]; try tauto.
  intros [->|Hx]; [now left | right; now apply IH].
Qed.

Lemma insert_newest_first_In (x y : Transaction Fields) (l : list (Transaction Fields)) :
  In y (insert_newest_first x l) <-> y = x \/ In y l.
Proof.
  induction l as [|z l IH]; cbn [insert_newest_first In].
  - intuition congruence.
  - destruct (timestamp x <? timestamp z); cbn [In]; rewrite ?IH; intuition congruence.
Qed.

Lemma insert_newest_first_length (x : Transaction Fields) (l : list (Transaction Fields)) :
  length (insert_newest_first x l) = S (length l).
Proof.
  induction l as [|z l IH]; cbn [insert_newest_first length]; [reflexivity|].
  destruct (timestamp x <? timestamp z); cbn [length]; now rewrite ?IH.
Qed.

Lemma insert_newest_first_sorted (x : Transaction Fields) (l : list (Transaction Fields)) :
  StronglySorted newest_first l -> StronglySorted newest_first (insert_newest_first x l).
Proof.
  induction 1 as [|z l Hsorted IH Hz]; cbn [insert_newest_first].
  - repeat constructor.
  - destruct (timestamp x <? timestamp z) eqn:Hlt; z_bools.
    + constructor; [exact IH|].
      apply List.Forall_forall. intros y Hy.
      apply insert_newest_first_In in Hy as [->|Hy].
      * unfold newest_first. lia.
      * revert y Hy. now apply List.Forall_forall.
    + constructor; [now constructor|].
      constructor; [exact Hlt|].
      eapply List.Forall_impl; [|exact Hz].
      unfold newest_first. intros; lia.
Qed.

Lemma sort_newest_first_spec (l : list (Transaction Fields)) :
  StronglySorted newest_first (sort_newest_first l) /\
  length (sort_newest_first l) = length l /\
  (forall y, In y (sort_newest_first l) <-> In y l).
Proof.
  unfold sort_newest_first.
  induction l as [|x l (Hsorted & Hlength & Hin)]; cbn [fold_right length In].
  - repeat split; try constructor; tauto.
  - split; [now apply insert_newest_first_sorted|].
    split; [now rewrite insert_newest_first_length, Hlength|].
    intros y. rewrite insert_newest_first_In, Hin. intuition congruence.
Qed.

Lemma sorted_app (l l' : list (Transaction Fields)) :
  StronglySorted newest_first (l ++ l') ->
  StronglySorted newest_first l /\
  forall a b, In a l -> In b l' -> timestamp b <= timestamp a.
Proof.
  induction l as [|x l IH]; cbn [app]; intros Hsorted.
  - split; [constructor | intros a b []].
  - apply StronglySorted_inv in Hsorted as [Hsorted Hx].
    destruct (IH Hsorted) as [Hl Hbetween].
    apply List.Forall_app in Hx as [Hxl Hxl'].
    split; [now constructor|].
    intros a b [<-|Ha] Hb; [|now apply Hbetween].
    revert b Hb. now apply List.Forall_forall.
Qed.

(** X24.  [addTransaction] stores at most 500 entries with the new one
    first.  When the new entry is at least as recent as the stored ones, the
    stored array is ordered newest first, holds only the new entry and
    entries stored before, and each entry it drops is no more recent than
    any it keeps. *)
Theorem addTransaction_keeps_the_newest (given_timestamp : option Z)
    (transaction : Fields) (now : Z) (stored : option (list (Transaction Fields))) :
  let history := match stored with Some history => history | None => [] end in
  let saved := fst (addTransaction given_timestamp transaction now stored) in
  let newTx := snd (addTransaction given_timestamp transaction now stored) in
  Forall (fun tx => timestamp tx <= timestamp newTx) history ->
  length saved = Nat.min MAX_TRANSACTIONS (S (length history)) /\
  head saved = Some newTx /\
  StronglySorted newest_first saved /\
  (forall tx, In tx saved -> tx = newTx \/ In tx history) /\
  (forall tx kept, In tx history -> ~ In tx saved -> In kept saved ->
     timestamp tx <= timestamp kept).
Proof.
  intros history saved newTx Hnow.
  unfold addTransaction in saved, newTx. cbn [fst snd] in saved, newTx.
  set (sorted := getTransactionHistory stored) in *.
  assert (Hsorted : StronglySorted newest_first sorted /\
                    length sorted = length history /\
                    (forall y, In y sorted <-> In y history)).
  { subst sorted history. destruct stored as [history|]; cbn [getTransactionHistory].
    - apply sort_newest_first_spec.
    - repeat split; try constructor; tauto. }
  destruct Hsorted as (Hsorted & Hlength & Hin).
  assert (Hall : StronglySorted newest_first (newTx :: sorted)).
  { constructor; [exact Hsorted|].
    apply List.Forall_forall. intros y Hy. apply Hin in Hy.
    revert y Hy. now apply List.Forall_forall. }
  rewrite <- (firstn_skipn MAX_TRANSACTIONS (newTx :: sorted)) in Hall.
  fold saved in Hall. apply sorted_app in Hall as [Hsaved Hdropped].
  assert (Hkept : forall tx, In tx saved -> tx = newTx \/ In tx history).
  { intros tx Htx. subst saved. apply firstn_subset in Htx.
    destruct Htx as [<-|Htx]; [now left | right; now apply Hin]. }
  split; [|split; [|split; [|split]]].
  - subst saved. rewrite length_firstn. cbn [length]. now rewrite Hlength.
  - reflexivity.
  - exact Hsaved.
  - exact Hkept.
  - intros tx kept Htx Hnot Hkept'.
    apply Hdropped; [exact Hkept'|].
    apply Hin in Htx.
    assert (Hsplit : In tx (saved ++ skipn MAX_TRANSACTIONS (newTx :: sorted))).
    { subst saved. rewrite firstn_skipn. now right. }
    apply in_app_or in Hsplit as [Hs|Hs]; [contradiction|exact Hs].
Qed.

End TransactionHistory.

Lemma addTransaction_keeps_the_newest_witness :
  map transactionHistory.timestamp
    (fst (transactionHistory.addTransaction None tt 10
            (Some [transactionHistory.mkTransaction 5 tt;
                   transactionHistory.mkTransaction 9 tt])))
  = [10; 9; 5] /\
  length (fst (transactionHistory.addTransaction None tt 10
                 (Some [transactionHistory.mkTransaction 5 tt;
                        transactionHistory.mkTransaction 9 tt]))) = 3%nat.
Proof.
  split; [reflexivity|].
  apply (addTransaction_keeps_the_newest None tt 10
           (Some [transactionHistory.mkTransaction 5 tt;
                  transactionHistory.mkTransaction 9 tt])).
  repeat constructor; cbn; lia.
Defined.

(** ** The retry loop *)

Section RetryRuns.
Import edgeCaseHandler.

Lemma retry_loop_run (transactionFn : nat -> list Event * Settled)
    (maxRetries : nat) (retryDelay : Z) (k : nat) :
  (k <= maxRetries)%nat ->
  (forall j, (j < k)%nat ->
     exists error, snd (transactionFn j) = Rejected error /\
                   shouldRetryTransaction error = true) ->
  (k = maxRetries \/
   match snd (transactionFn k) with
   | Resolved _ => True
   | Rejected error => shouldRetryTransaction error = false
   end) ->
  forall (n attempt : nat) (lastError : Thrown),
    (attempt + n = k)%nat ->
    retry_loop transactionFn maxRetries retryDelay (S (maxRetries - attempt))
               attempt lastError
    = (flat_map (fun j => fst (transactionFn j) ++
                          [OnRetry (j + 1) maxRetries;
                           Sleep (retryDelay * Z.of_nat (j + 1))])
                (seq attempt n) ++ fst (transactionFn k),
       snd (transactionFn k)).
Proof.
  intros Hk Hbefore Hlast.
  induction n as [|n IH]; intros attempt lastError Hattempt.
  - assert (attempt = k) as -> by lia.
    cbn [retry_loop seq flat_map app].
    destruct (transactionFn k) as [done settled]. cbn [fst snd] in *.
    destruct settled as [digest|error]; [reflexivity|].
    destruct (shouldRetryTransaction error) eqn:Hretry; cbn [negb]; [|reflexivity].
    destruct Hlast as [->|Hlast]; [|discriminate].
    rewrite Nat.ltb_irrefl, Nat.sub_diag. cbn [retry_loop app].
    now rewrite app_nil_r.
  - cbn [retry_loop seq flat_map].
    destruct (Hbefore attempt) as (error & Hsettled & Hretry); [lia|].
    destruct (transactionFn attempt) as [done settled]. cbn [fst snd] in *.
    subst settled. rewrite Hretry. cbn [negb].
    replace (attempt <? maxRetries)%nat with true
      by (symmetry; apply Nat.ltb_lt; lia).
    replace (maxRetries - attempt)%nat with (S (maxRetries - S attempt)) by lia.
    rewrite (IH (S attempt) error) by lia.
    now rewrite <- !app_assoc.
Qed.

(** X25.  [executeWithRetry] calls the function once more after each
    rejection that [shouldRetryTransaction] accepts, up to [maxRetries]
    retries, and settles as the last call did: when the calls 0..k-1 are
    rejected with retryable errors and call k resolves, is rejected with an
    error not to retry, or is the last one allowed, the calls made are
    exactly 0..k in order, each but the last followed by [onRetry] and a
    pause of [retryDelay] times its number, and the outcome is the one of
    call k. *)
Theorem executeWithRetry_run (transactionFn : nat -> list Event * Settled)
    (maxRetries : nat) (retryDelay : Z) (k : nat) :
  (k <= maxRetries)%nat ->
  (forall j, (j < k)%nat ->
     exists error, snd (transactionFn j) = Rejected error /\
                   shouldRetryTransaction error = true) ->
  (k = maxRetries \/
   match snd (transactionFn k) with
   | Resolved _ => True
   | Rejected error => shouldRetryTransaction error = false
   end) ->
  executeWithRetry transactionFn maxRetries retryDelay
  = (flat_map (fun j => fst (transactionFn j) ++
                        [OnRetry (j + 1) maxRetries;
                         Sleep (retryDelay * Z.of_nat (j + 1))])
              (seq 0 k) ++ fst (transactionFn k),
     snd (transactionFn k)).
Proof.
  intros Hk Hbefore Hlast. unfold executeWithRetry.
  rewrite <- (Nat.sub_0_r maxRetries) at 2.
  now apply retry_loop_run.
Qed.

Lemma executeWithRetry_run_witness :
  let timeout := Some (mkError None (Some "timeout"%string)) in
  executeWithRetry
    (fun j => if (j <? 1)%nat then ([Submit], Rejected timeout)
              else ([Submit; WaitForTransaction 7], Resolved 7))
    3 1000
  = ([Submit; OnRetry 1 3; Sleep 1000; Submit; WaitForTransaction 7], Resolved 7).
Proof.
  intros timeout.
  apply (executeWithRetry_run
           (fun j => if (j <? 1)%nat then ([Submit], Rejected timeout)
                     else ([Submit; WaitForTransaction 7], Resolved 7))
           3 1000 1).
  - lia.
  - intros j Hj. assert (j = 0)%nat as -> by lia.
    exists timeout. split; reflexivity.
  - right. exact I.
Defined.

End RetryRuns.
